(** * Evnts: the request handlers of [events/views.py], embedded and verified

    The handlers are Django class-based views.  Each one is translated into a
    function in a small state-and-exception monad: the state holds the database
    tables, the log of SQL statements that were executed and the flash messages;
    an exception is either [Http404], which the framework turns into a 404 page,
    or one that reaches the caller as a server error. *)

From stdpp Require Import base list gmap pretty.
From stdpp Require Import strings.
From Stdlib Require Import Ascii String.

Open Scope string_scope.
Open Scope list_scope.
Open Scope nat_scope.

(** ** Text: the string operations the views rely on *)

Module Text.

Definition ord (c : ascii) : nat := nat_of_ascii c.

Definition chars (s : string) : list ascii := list_ascii_of_string s.
Definition text (l : list ascii) : string := string_of_list_ascii l.

Definition between (lo hi : nat) (c : ascii) : bool :=
  (lo <=? ord c) && (ord c <=? hi).

Definition is_ascii (c : ascii) : bool := ord c <? 128.
Definition is_upper : ascii → bool := between 65 90.
Definition is_lower : ascii → bool := between 97 122.
Definition is_digit : ascii → bool := between 48 57.
Definition is_hyphen (c : ascii) : bool := ord c =? 45.
Definition is_underscore (c : ascii) : bool := ord c =? 95.

(** [\w] of Python's [re] on text that is already ASCII. *)
Definition is_word (c : ascii) : bool :=
  is_lower c || is_upper c || is_digit c || is_underscore c.

(** [\s] of Python's [re] on [str]: tab to carriage return, the four
    separators 28..31 and the space. *)
Definition is_space (c : ascii) : bool :=
  between 9 13 c || between 28 31 c || (ord c =? 32).

Definition lower_char (c : ascii) : ascii :=
  if is_upper c then ascii_of_nat (ord c + 32) else c.

(** [str.lower] on ASCII text. *)
Definition lower (s : string) : string := text (map lower_char (chars s)).

(** [re.sub(r"[-\s]+", "-", value)]: every maximal run of hyphens and white
    space becomes one hyphen.  [in_run] tells that the previous character
    already belonged to the run. *)
Fixpoint sub_runs (in_run : bool) (l : list ascii) : list ascii :=
  match l with
  | [] => []
  | c :: r =>
      if is_hyphen c || is_space c
      then (if in_run then sub_runs true r else "-"%char :: sub_runs true r)
      else c :: sub_runs false r
  end.

Definition strip_char (c : ascii) : bool := is_hyphen c || is_underscore c.

Fixpoint lstrip (l : list ascii) : list ascii :=
  match l with
  | [] => []
  | c :: r => if strip_char c then lstrip r else l
  end.

(** [value.strip("-_")] *)
Definition strip (l : list ascii) : list ascii :=
  rev (lstrip (rev (lstrip l))).

(** [django.utils.text.slugify(value)] with [allow_unicode=False]:
<<
    value = unicodedata.normalize("NFKD", value).encode("ascii", "ignore").decode("ascii")
    value = re.sub(r"[^\w\s-]", "", value.lower())
    return re.sub(r"[-\s]+", "-", value).strip("-_")
>>
    This is the function on a [value] that is normalised already: the
    encoding step onwards.  The normalisation is applied by [slugify] of the
    views, which takes it as a parameter.  A [string] is a sequence of bytes
    in UTF-8, where the characters outside ASCII are the ones written with
    bytes above 127: the encoding step drops these bytes. *)
Definition slugify (value : string) : string :=
  let value := filter (λ c, is_ascii c = true) (chars value) in
  let value := map lower_char value in
  let value :=
    filter (λ c, (is_word c || is_space c || is_hyphen c) = true) value in
  text (strip (sub_runs false value)).

Fixpoint starts_with (p s : list ascii) : bool :=
  match p, s with
  | [], _ => true
  | _ :: _, [] => false
  | a :: p', b :: s' => (ord a =? ord b) && starts_with p' s'
  end.

Fixpoint has_infix (q s : list ascii) : bool :=
  starts_with q s ||
  match s with
  | [] => false
  | _ :: s' => has_infix q s'
  end.

(** Python's [q in s]: [q] occurs in [s], byte for byte. *)
Definition is_infix (q s : string) : bool := has_infix (chars q) (chars s).

(** The pattern match both substring lookups compile to,
    [s LIKE '%q%' ESCAPE '\'] with the wildcards of [q] escaped.  The
    database is SQLite, the one a Django project runs on unless its settings
    name another; its [LIKE] compares the letters A to Z without regard to
    case and every other byte exactly. *)
Definition like (s q : string) : bool := is_infix (lower q) (lower s).

(** The field lookup [__contains].  Django documents it as case-sensitive
    and notes that SQLite has no case-sensitive [LIKE]: on this database it
    is the match of [like]. *)
Definition contains (s q : string) : bool := like s q.

(** The field lookup [__icontains], the same pattern match. *)
Definition icontains (s q : string) : bool := like s q.

(** Python's [str(n)] for a non-negative integer. *)
Definition str (n : nat) : string := pretty n.

End Text.

(** ** Data model

    [events/models.py] is not part of the sources at hand; the records carry
    the fields that [views.py] and [admin.py] read and write.  A foreign key
    is the identifier of the row it points to, the tag relation is the list of
    tag identifiers attached to an event, and the attendee relation is a
    finite set of user identifiers. *)

Module User.
Record t := mk { id : nat; is_superuser : bool }.
End User.

Module Category.
Record t := mk { id : nat; name : string; slug : string }.
End Category.

Module Tag.
Record t := mk { id : nat; name : string; slug : string }.
End Tag.

Module Event.
Record t := mk {
  id : nat;
  name : string;
  slug : string;
  category : option nat;
  host : string;
  venue : string;
  date_of_event : nat;
  ticket_price : nat;
  make_private : bool;
  user : nat;
  tags : list nat;
  users_attending : gset nat
}.
End Event.

Module Comment.
Record t := mk { username : string; comment : string; event : nat }.
End Comment.

(** The sanitized data of a valid event form: the editable fields. *)
Module EventData.
Record t := mk {
  name : string;
  category : option nat;
  host : string;
  venue : string;
  date_of_event : nat;
  ticket_price : nat;
  make_private : bool;
  tags : list nat
}.
End EventData.

(** The sanitized data of a valid comment form. *)
Module CommentData.
Record t := mk { username : string; comment : string }.
End CommentData.

(** The tables of the database.  [event_seq] is the counter of the event
    table's auto-incremented primary key, the highest key the table has
    issued: SQLite keeps it for an [AUTOINCREMENT] column, which is how
    Django declares its automatic keys there. *)
Record Tables := mkTables {
  events : list Event.t;
  categories : list Category.t;
  tag_rows : list Tag.t;
  comments : list Comment.t;
  event_seq : nat
}.

(** The tables of the persistence layer, as they occur in SQL statements. *)
Inductive Model := EventModel | CategoryModel | TagModel | CommentModel | AttendanceModel.

Inductive Sql := SELECT (m : Model) | INSERT (m : Model) | UPDATE (m : Model) | DELETE (m : Model).

Inductive Level := SUCCESS | ERROR.

Record State := mkState {
  db : Tables;
  (** the statements executed so far, the latest last *)
  queries : list Sql;
  (** [django.contrib.messages]: the flash messages queued so far *)
  flash : list (Level * string)
}.

(** ** Requests and responses *)

(** [QueryDict]: the submitted pairs in order; a key may occur several times. *)
Definition QueryDict := list (string * string).

(** [QueryDict.get(key)]: the last value submitted for [key], [None] without one. *)
Fixpoint QueryDict_get (key : string) (d : QueryDict) : option string :=
  match d with
  | [] => None
  | (k, v) :: r =>
      match QueryDict_get key r with
      | Some x => Some x
      | None => if String.eqb k key then Some v else None
      end
  end.

(** [user] is [None] for the anonymous user. *)
Record HttpRequest := mkRequest {
  user : option User.t;
  GET : QueryDict;
  POST : QueryDict;
  FILES : QueryDict
}.

Definition is_authenticated (request : HttpRequest) : bool :=
  match user request with Some _ => true | None => false end.

(** [request.user == event.user]: model instances are equal when their
    primary keys are; the anonymous user equals no stored user. *)
Definition user_is (request : HttpRequest) (owner : nat) : bool :=
  match user request with
  | Some u => User.id u =? owner
  | None => false
  end.

(** A form as a template sees it: the instance it edits and the data bound
    to it, if any. *)
Record Form := mkForm { instance : option Event.t; data : option QueryDict }.

(** What a template receives once the lazy querysets of the context have
    been evaluated. *)
Inductive Value :=
| VEvent (e : Event.t)
| VEvents (l : list Event.t)
| VTag (t : Tag.t)
| VTags (l : list Tag.t)
| VCategory (c : Category.t)
| VComments (l : list Comment.t)
| VForm (f : Form)
| VText (s : string).

Inductive Location :=
| LoginPage
| AbsoluteUrl (e : Event.t)        (* [event.get_absolute_url()] *)
| Named (view_name : string).

Inductive HttpResponse :=
| Render (template_name : string) (context : list (string * Value))
| Body (content : string)
| Forbidden
| NotFound
| Redirect (to : Location).

(** ** The monad of the handlers *)

Inductive Exn :=
| Http404
| DoesNotExist (m : Model)
| MultipleObjectsReturned (m : Model)
| IntegrityError
| ValueError.

Inductive Result (A : Type) :=
| Ok (a : A)
| Raise (e : Exn).
Arguments Ok {A} a.
Arguments Raise {A} e.

Definition M (A : Type) : Type := State → Result A * State.

#[export] Instance M_ret : MRet M := λ A a s, (Ok a, s).

#[export] Instance M_bind : MBind M := λ A B f m s,
  match m s with
  | (Ok a, s') => f a s'
  | (Raise e, s') => (Raise e, s')
  end.

Definition raise {A} (e : Exn) : M A := λ s, (Raise e, s).

Definition get_tables : M Tables := λ s, (Ok (db s), s).

Definition put_tables (t : Tables) : M unit :=
  λ s, (Ok tt, mkState t (queries s) (flash s)).

(** One statement reaches the database. *)
Definition execute (q : Sql) : M unit :=
  λ s, (Ok tt, mkState (db s) (queries s ++ [q]) (flash s)).

Definition messages_add (l : Level) (text : string) : M unit :=
  λ s, (Ok tt, mkState (db s) (queries s) (flash s ++ [(l, text)])).

(** [try: ... except DoesNotExist: raise Http404] *)
Definition or_404 {A} (m : M A) : M A := λ s,
  match m s with
  | (Raise (DoesNotExist _), s') => (Raise Http404, s')
  | r => r
  end.

(** What the caller of a view gets.  The framework answers [Http404] with the
    not-found page and rejects a view that returned [None]; any other
    exception is unhandled. *)
Inductive Outcome :=
| Responded (r : HttpResponse)
| Unhandled (e : Exn).

Definition get_response (view : M (option HttpResponse)) (s : State) : Outcome * State :=
  match view s with
  | (Ok (Some r), s') => (Responded r, s')
  | (Ok None, s') => (Unhandled ValueError, s')
  | (Raise Http404, s') => (Responded NotFound, s')
  | (Raise e, s') => (Unhandled e, s')
  end.

(** A view that always returns a response object. *)
Definition returning (view : M HttpResponse) : M (option HttpResponse) :=
  r ← view; mret (Some r).

(** ** The object-relational layer

    A queryset is lazy: building one touches nothing, and it is evaluated
    against the tables when a row is fetched from it or when a template
    iterates over it.  A queryset over events is described by the number of
    result rows every event row yields (0 when the row is filtered out, more
    than 1 when a join on a many-valued relation matches several times), by
    its [DISTINCT] flag and by its slice. *)

Record QuerySet := mkQS {
  rows_per_event : Tables → Event.t → nat;
  is_distinct : bool;
  high_mark : option nat
}.

(** A queryset over tags: its [WHERE] clause. *)
Definition TagQuerySet := Tag.t → bool.

(** [Event.objects] *)
Definition Event_objects : QuerySet := mkQS (λ _ _, 1) false None.

(** [.filter(...)] with conditions on the columns of the event row. *)
Definition qs_filter (p : Event.t → bool) (q : QuerySet) : QuerySet :=
  mkQS (λ t e, if p e then rows_per_event q t e else 0) (is_distinct q) (high_mark q).

(** [.exclude(...)] *)
Definition qs_exclude (p : Event.t → bool) (q : QuerySet) : QuerySet :=
  qs_filter (λ e, negb (p e)) q.

(** [.filter(...)] with a condition across a many-valued relation: an inner
    join, [n t e] being the number of related rows of [e] that satisfy it. *)
Definition qs_join (n : Tables → Event.t → nat) (q : QuerySet) : QuerySet :=
  mkQS (λ t e, rows_per_event q t e * n t e) (is_distinct q) (high_mark q).

(** [.distinct()] *)
Definition qs_distinct (q : QuerySet) : QuerySet :=
  mkQS (rows_per_event q) true (high_mark q).

(** [q[:n]] *)
Definition qs_slice (n : nat) (q : QuerySet) : QuerySet :=
  mkQS (rows_per_event q) (is_distinct q)
       (Some (match high_mark q with Some k => Nat.min k n | None => n end)).

(** [a | b] on two querysets without joins: the rows that satisfy either
    [WHERE] clause, each once. *)
Definition qs_or (a b : QuerySet) : QuerySet :=
  mkQS (λ t e, if (0 <? rows_per_event a t e) || (0 <? rows_per_event b t e) then 1 else 0)
       false None.

(** Modelled from the spec: [models.py] with the managers [Event.public] and
    [Event.private] is absent; the spec's visibility partition makes the
    public manager the events with the private flag unset. *)
Definition Event_public : QuerySet :=
  qs_filter (λ e, negb (Event.make_private e)) Event_objects.

(** Modelled from the spec: the private manager of the absent [models.py],
    the events with the private flag set. *)
Definition Event_private : QuerySet :=
  qs_filter Event.make_private Event_objects.

(** [event.tags.all()] *)
Definition tags_all (event : Event.t) : TagQuerySet :=
  λ g, bool_decide (Tag.id g ∈ Event.tags event).

Definition tag_rows_of (tq : TagQuerySet) (t : Tables) : list Tag.t :=
  base.filter (λ g, tq g = true) (tag_rows t).

(** [tags__id__in=tags]: the join with the tag relation, kept where the tag
    identifier is among those of the subquery [tags]. *)
Definition tags_id_in (tags : TagQuerySet) (t : Tables) (e : Event.t) : nat :=
  List.length (base.filter (λ i, i ∈ Tag.id <$> tag_rows_of tags t) (Event.tags e)).

(** [tags__slug__contains=slug]: the join with the tag relation and the tag
    table, kept where the tag's slug contains [slug]. *)
Definition tags_slug_contains (slug : string) (t : Tables) (e : Event.t) : nat :=
  List.length (flat_map
            (λ i, base.filter (λ g, ((Tag.id g =? i) && Text.contains (Tag.slug g) slug) = true)
                              (tag_rows t))
            (Event.tags e)).

(** [users_attending=user]: the join with the attendee relation, which holds
    a pair of event and user at most once. *)
Definition users_attending_is (u : nat) (t : Tables) (e : Event.t) : nat :=
  if bool_decide (u ∈ Event.users_attending e) then 1 else 0.

(** [DISTINCT]: rows of one table are equal when their primary keys are. *)
Fixpoint distinct_rows (seen : list nat) (l : list Event.t) : list Event.t :=
  match l with
  | [] => []
  | e :: r =>
      if bool_decide (Event.id e ∈ seen) then distinct_rows seen r
      else e :: distinct_rows (Event.id e :: seen) r
  end.

(** The rows a queryset stands for, in table order. *)
Definition qs_rows (q : QuerySet) (t : Tables) : list Event.t :=
  let rows := flat_map (λ e, replicate (rows_per_event q t e) e) (events t) in
  let rows := if is_distinct q then distinct_rows [] rows else rows in
  match high_mark q with
  | Some n => take n rows
  | None => rows
  end.

(** [.get()] on the rows found: exactly one row, or an exception. *)
Definition the_one {A} (m : Model) (rows : list A) : M A :=
  match rows with
  | [] => raise (DoesNotExist m)
  | [a] => mret a
  | _ => raise (MultipleObjectsReturned m)
  end.

(** [queryset.get()] *)
Definition qs_get (q : QuerySet) : M Event.t :=
  execute (SELECT EventModel);;
  t ← get_tables;
  the_one EventModel (qs_rows q t).

(** [get_object_or_404(klass, **kwargs)] on events: the lookup runs on the
    default manager of the model, taken to be [Event.objects]; only
    [DoesNotExist] becomes [Http404]. *)
Definition get_object_or_404 (q : QuerySet) : M Event.t := or_404 (qs_get q).

(** [get_object_or_404(Tag, slug=slug)] *)
Definition get_tag_or_404 (slug : string) : M Tag.t :=
  or_404 (execute (SELECT TagModel);;
          t ← get_tables;
          the_one TagModel (tag_rows_of (λ g, String.eqb (Tag.slug g) slug) t)).

(** [Category.objects.get(slug=slug)] *)
Definition Category_get (slug : string) : M Category.t :=
  execute (SELECT CategoryModel);;
  t ← get_tables;
  the_one CategoryModel
          (base.filter (λ c, String.eqb (Category.slug c) slug = true) (categories t)).

(** What a context holds before rendering. *)
Inductive Lazy :=
| Now (v : Value)
| LEvents (q : QuerySet)
| LTags (q : TagQuerySet)
| LComments (event_id : nat).

Definition force (x : Lazy) : M Value :=
  match x with
  | Now v => mret v
  | LEvents q => execute (SELECT EventModel);; t ← get_tables; mret (VEvents (qs_rows q t))
  | LTags q => execute (SELECT TagModel);; t ← get_tables; mret (VTags (tag_rows_of q t))
  | LComments i =>
      execute (SELECT CommentModel);;
      t ← get_tables;
      mret (VComments (base.filter (λ c, Comment.event c = i) (comments t)))
  end.

Fixpoint force_all (context : list (string * Lazy)) : M (list (string * Value)) :=
  match context with
  | [] => mret []
  | (k, x) :: r => v ← force x; vs ← force_all r; mret ((k, v) :: vs)
  end.

(** [render(request, template_name, context)]: the template iterates over the
    querysets of the context, which evaluates them in order. *)
Definition render (request : HttpRequest) (template_name : string)
    (context : list (string * Lazy)) : M HttpResponse :=
  ctx ← force_all context;
  mret (Render template_name ctx).

(** The value bound to [key] in a rendered context. *)
Fixpoint lookup_ctx (key : string) (ctx : list (string * Value)) : option Value :=
  match ctx with
  | [] => None
  | (k, v) :: r => if String.eqb k key then Some v else lookup_ctx key r
  end.

(** ** Writes *)

Definition with_events (l : list Event.t) (t : Tables) : Tables :=
  mkTables l (categories t) (tag_rows t) (comments t) (event_seq t).

Definition with_comments (l : list Comment.t) (t : Tables) : Tables :=
  mkTables (events t) (categories t) (tag_rows t) l (event_seq t).

Definition set_id (i : nat) (e : Event.t) : Event.t :=
  Event.mk i (Event.name e) (Event.slug e) (Event.category e) (Event.host e)
           (Event.venue e) (Event.date_of_event e) (Event.ticket_price e)
           (Event.make_private e) (Event.user e) (Event.tags e) (Event.users_attending e).

Definition set_slug (s : string) (e : Event.t) : Event.t :=
  Event.mk (Event.id e) (Event.name e) s (Event.category e) (Event.host e)
           (Event.venue e) (Event.date_of_event e) (Event.ticket_price e)
           (Event.make_private e) (Event.user e) (Event.tags e) (Event.users_attending e).

Definition set_user (u : nat) (e : Event.t) : Event.t :=
  Event.mk (Event.id e) (Event.name e) (Event.slug e) (Event.category e) (Event.host e)
           (Event.venue e) (Event.date_of_event e) (Event.ticket_price e)
           (Event.make_private e) u (Event.tags e) (Event.users_attending e).

Definition set_tags (l : list nat) (e : Event.t) : Event.t :=
  Event.mk (Event.id e) (Event.name e) (Event.slug e) (Event.category e) (Event.host e)
           (Event.venue e) (Event.date_of_event e) (Event.ticket_price e)
           (Event.make_private e) (Event.user e) l (Event.users_attending e).

Definition set_users_attending (a : gset nat) (e : Event.t) : Event.t :=
  Event.mk (Event.id e) (Event.name e) (Event.slug e) (Event.category e) (Event.host e)
           (Event.venue e) (Event.date_of_event e) (Event.ticket_price e)
           (Event.make_private e) (Event.user e) (Event.tags e) a.

(** The fields a valid form writes into the instance it edits. *)
Definition set_fields (d : EventData.t) (e : Event.t) : Event.t :=
  Event.mk (Event.id e) (EventData.name d) (Event.slug e) (EventData.category d)
           (EventData.host d) (EventData.venue d) (EventData.date_of_event d)
           (EventData.ticket_price d) (EventData.make_private d) (Event.user e)
           (Event.tags e) (Event.users_attending e).

(** An instance that no row backs yet. *)
Definition blank : Event.t := Event.mk 0 "" "" None "" "" 0 0 false 0 [] ∅.

(** The rows with primary key [i] rewritten by [f]. *)
Definition alter_event (i : nat) (f : Event.t → Event.t) (t : Tables) : Tables :=
  with_events (map (λ r, if Event.id r =? i then f r else r) (events t)) t.

(** The next value of the auto-incremented primary key: one more than the
    highest key issued so far and than every key in the table (a row can be
    stored under a key of the writer's choice).  The key of a deleted row is
    not issued again. *)
Definition fresh_id (t : Tables) : nat :=
  S (Nat.max (event_seq t) (foldr Nat.max 0 (Event.id <$> events t))).

(** The table gains the row [e], stored under a key just issued. *)
Definition insert_event (e : Event.t) (t : Tables) : Tables :=
  mkTables (events t ++ [e]) (categories t) (tag_rows t) (comments t) (Event.id e).

(** Modelled from the spec: [models.py] with the declaration of the slug
    column is absent; the spec's data model has the slug unique, so the
    database rejects a write that would give two rows one slug.
    [slug_in_use] tells that a row other than [self] already carries
    [slug]. *)
Definition slug_in_use (slug : string) (self : option nat) (l : list Event.t) : bool :=
  existsb (λ r, String.eqb (Event.slug r) slug && negb (bool_decide (self = Some (Event.id r)))) l.

(** [instance.save()].  [adding] is the instance's [_state.adding]: an
    instance built by a form from scratch is inserted under a fresh primary
    key, an instance loaded from the table replaces its row.  Either write
    fails with [IntegrityError] when the slug is in use. *)
Definition save (adding : bool) (e : Event.t) : M Event.t :=
  t ← get_tables;
  if adding then
    execute (INSERT EventModel);;
    if slug_in_use (Event.slug e) None (events t) then raise IntegrityError
    else
      let e' := set_id (fresh_id t) e in
      put_tables (insert_event e' t);;
      mret e'
  else
    execute (UPDATE EventModel);;
    if slug_in_use (Event.slug e) (Some (Event.id e)) (events t) then raise IntegrityError
    else
      put_tables (alter_event (Event.id e) (λ _, e) t);;
      mret e.

(** [form.save_m2m()]: the tag relation of the saved event becomes the tags
    of the sanitized data.  The rows that the tagging library creates in the
    tag table for labels it has not seen are left out. *)
Definition save_m2m (d : EventData.t) (e : Event.t) : M Event.t :=
  execute (UPDATE TagModel);;
  t ← get_tables;
  put_tables (alter_event (Event.id e) (set_tags (EventData.tags d)) t);;
  mret (set_tags (EventData.tags d) e).

(** [event.users_attending.add(user)]: the relation gains the pair; a pair
    that it holds already stays as it is. *)
Definition users_attending_add (event : Event.t) (u : nat) : M unit :=
  execute (INSERT AttendanceModel);;
  t ← get_tables;
  put_tables (alter_event (Event.id event)
                (λ r, set_users_attending ({[u]} ∪ Event.users_attending r) r) t).

(** [event.users_attending.remove(user)]: the relation loses the pair; a
    pair that it does not hold is not missed. *)
Definition users_attending_remove (event : Event.t) (u : nat) : M unit :=
  execute (DELETE AttendanceModel);;
  t ← get_tables;
  put_tables (alter_event (Event.id event)
                (λ r, set_users_attending (Event.users_attending r ∖ {[u]}) r) t).

(** [comment.save()] *)
Definition Comment_save (c : Comment.t) : M unit :=
  execute (INSERT CommentModel);;
  t ← get_tables;
  put_tables (with_comments (comments t ++ [c]) t).

(** [LoginRequiredMixin] and [login_required]: an anonymous request is sent
    to the login page before the handler runs; otherwise the handler runs
    with [request.user]. *)
Definition login_required {A} (to_login : A) (request : HttpRequest)
    (view : User.t → M A) : M A :=
  match user request with
  | Some u => view u
  | None => mret to_login
  end.

Definition LoginRequiredMixin := @login_required HttpResponse (Redirect LoginPage).

(** [django.utils.text.slugify(value)]: the value is brought into the
    normal form NFKD, which splits an accented letter into the letter and its
    accent, and goes through the steps of [Text.slugify].  The normalisation
    [unicodedata.normalize("NFKD", value)] is a table of the interpreter and
    is the parameter [nfkd]; it leaves ASCII text as it is. *)
Definition slugify (nfkd : string → string) (value : string) : string :=
  Text.slugify (nfkd value).

(** Text written in ASCII alone. *)
Definition ascii_text (value : string) : Prop :=
  Forall (λ c, Text.is_ascii c = true) (Text.chars value).

(** The one fact about the normalisation that the value of a slug rests on:
    ASCII text is in normal form. *)
Definition keeps_ascii (nfkd : string → string) : Prop :=
  ∀ value, ascii_text value → nfkd value = value.

(** What [form.is_valid()] yields on the form of an event: the sanitized
    data of a valid form, or, for an invalid one, the instance the form
    edits as the validation leaves it, with the submitted values of the
    fields that did validate written into it. *)
Inductive Validity :=
| Valid (cleaned_data : EventData.t)
| Invalid (instance : Event.t).

Fixpoint select_all (tables : list Model) : M unit :=
  match tables with
  | [] => mret tt
  | m :: rest => execute (SELECT m);; select_all rest
  end.

(** [form.is_valid()]: the validation of a model form queries the database,
    for the choices of a foreign key and for the values of unique columns.
    A validator gives the tables it queries, in order, and its verdict. *)
Definition is_valid {A} (validation : list Model * A) : M A :=
  select_all (fst validation);; mret (snd validation).

(** ** The views *)

Section Views.

(** [forms.py] is absent: the validators are parameters.  The comment form
    maps the submitted data to the sanitized data, or to [None] when the form
    is invalid; the event forms give the tables their validation queries
    with their verdict. *)
Variable CommentForm_clean : QueryDict → option CommentData.t.
Variable AddEventForm_clean : QueryDict → QueryDict → list Model * option EventData.t.
Variable EditEventForm_clean : Event.t → QueryDict → QueryDict → list Model * Validity.

(** [str(event)], that is [Event.__str__] of the absent [models.py]: the
    value that the lookup [name=event] compares the name column with. *)
Variable Event_str : Event.t → string.

(** The normalisation that [slugify] starts with. *)
Variable nfkd : string → string.

Definition get_event (slug : string) : M Event.t :=
  get_object_or_404
    (qs_filter (λ e, String.eqb (Event.slug e) slug && negb (Event.make_private e)) Event_objects).

Definition get_private_event (slug : string) : M Event.t :=
  get_object_or_404
    (qs_filter (λ e, String.eqb (Event.slug e) slug && Event.make_private e) Event_objects).

(** [category.events(manager=...)]: the events whose category is this one. *)
Definition of_category (category : Category.t) (e : Event.t) : bool :=
  bool_decide (Event.category e = Some (Category.id category)).

Definition CategoryDetailView_get (request : HttpRequest) (slug : string) : M HttpResponse :=
  category ← Category_get slug;
  let queryset :=
    if is_authenticated request then
      qs_or (qs_filter (of_category category) Event_public)
            (qs_filter (λ e, user_is request (Event.user e))
                       (qs_filter (of_category category) Event_private))
    else qs_filter (of_category category) Event_public in
  render request "category.html"
         [("queryset", LEvents queryset); ("category", Now (VCategory category))].

Definition EventDetailView_get (request : HttpRequest) (slug : string) : M HttpResponse :=
  event ← get_event slug;
  let tags := tags_all event in
  let related_events :=
    qs_distinct
      (qs_exclude (λ e, Event.id e =? Event.id event)
                  (qs_join (tags_id_in tags) Event_public)) in
  let form := mkForm None None in
  let comments := LComments (Event.id event) in
  render request "event_detail.html"
         [("event", Now (VEvent event));
          ("tags", LTags tags);
          ("related_events", LEvents (qs_slice 4 related_events));
          ("comments", comments);
          ("form", Now (VForm form))].

(** The handler ends without a [return] when the comment form is invalid:
    the Python function then returns [None]. *)
Definition EventDetailView_post (request : HttpRequest) (slug : string)
    : M (option HttpResponse) :=
  login_required (Some (Redirect LoginPage)) request (λ u,
    event ← get_event slug;
    let event_action := QueryDict_get (Text.str (Event.id event)) (POST request) in
    if bool_decide (event_action = Some "Add to attend-list") then
      users_attending_add event (User.id u);;
      mret (Some (Body "This evnt has been added to your evnt list."))
    else if bool_decide (event_action = Some "Remove from attend-list") then
      users_attending_remove event (User.id u);;
      mret (Some (Body "This evnt has been removed from your attend-list"))
    else
      match CommentForm_clean (POST request) with
      | Some d =>
          target ← get_event slug;
          Comment_save (Comment.mk (CommentData.username d) (CommentData.comment d)
                                   (Event.id target));;
          mret (Some (Redirect (AbsoluteUrl event)))
      | None => mret None
      end).

Definition EventTagView_get (request : HttpRequest) (slug : string) : M HttpResponse :=
  let events := qs_join (tags_slug_contains slug) Event_objects in
  tag ← get_tag_or_404 slug;
  render request "event_tag.html"
         [("events", LEvents events); ("tag", Now (VTag tag))].

Definition PrivateEventDetailView_get (request : HttpRequest) (slug : string) : M HttpResponse :=
  LoginRequiredMixin request (λ u,
    event ← get_private_event slug;
    if User.id u =? Event.user event then
      event ← qs_get (qs_filter (λ e, (Event.user e =? User.id u)
                                       && String.eqb (Event.name e) (Event_str event))
                                Event_private);
      let tags := tags_all event in
      let related_events :=
        qs_distinct
          (qs_exclude (λ e, Event.id e =? Event.id event)
             (qs_join (tags_id_in tags)
                (qs_filter (λ e, (Event.user e =? User.id u) && negb (Event.make_private e))
                           Event_objects))) in
      render request "private_event_detail.html"
             [("event", Now (VEvent event));
              ("tags", LTags tags);
              ("related_events", LEvents (qs_slice 4 related_events))]
    else mret Forbidden).

Definition AddEventView_post (request : HttpRequest) : M HttpResponse :=
  LoginRequiredMixin request (λ u,
    valid ← is_valid (AddEventForm_clean (POST request) (FILES request));
    match valid with
    | Some d =>
        let event := set_fields d blank in
        let event := set_user (User.id u) event in
        let event := set_slug (slugify nfkd (Event.name event)) event in
        event ← save true event;
        event ← save_m2m d event;
        messages_add SUCCESS "Evnt posted successfully.";;
        mret (Redirect (AbsoluteUrl event))
    | None =>
        messages_add ERROR "Your evnt was not posted. Try again.";;
        render request "add_event.html"
               [("form", Now (VForm (mkForm None (Some (POST request)))))]
    end).

(** [form.save(commit=False)] hands back the instance the form was given, so
    [edit] and [event] are one object and the redirect uses the new slug.
    The validation of an invalid form has written into that object as well:
    the page that is rendered again shows the instance as validation left
    it, not the stored row. *)
Definition EditEventView_post (request : HttpRequest) (slug : string) : M HttpResponse :=
  LoginRequiredMixin request (λ u,
    event ← get_object_or_404 (qs_filter (λ e, String.eqb (Event.slug e) slug) Event_objects);
    if User.id u =? Event.user event then
      valid ← is_valid (EditEventForm_clean event (POST request) (FILES request));
      match valid with
      | Valid d =>
          let edit := set_fields d event in
          let edit := set_slug (slugify nfkd (Event.name edit)) edit in
          edit ← save false edit;
          edit ← save_m2m d edit;
          messages_add SUCCESS "Changes saved!";;
          mret (Redirect (AbsoluteUrl edit))
      | Invalid event =>
          messages_add ERROR "Error while updating evnt.";;
          render request "edit_event.html"
                 [("form", Now (VForm (mkForm (Some event) (Some (POST request)))));
                  ("event", Now (VEvent event))]
      end
    else mret Forbidden).

(** [if not query]: a missing parameter and an empty one are both falsy.
    The handler's [print(request.GET)] writes to the console only and is left
    out. *)
Definition SearchEventView_get (request : HttpRequest) : M HttpResponse :=
  match QueryDict_get "search" (GET request) with
  | None | Some "" => mret (Body "The entry you made is invalid :( ")
  | Some query =>
      let search_results :=
        match user request with
        | Some u =>
            qs_or (qs_filter (λ e, Text.contains (Event.name e) query
                                   && (Event.user e =? User.id u))
                             Event_private)
                  (qs_filter (λ e, Text.icontains (Event.name e) query) Event_public)
        | None => qs_filter (λ e, Text.icontains (Event.name e) query) Event_public
        end in
      render request "search_events.html"
             [("search_results", LEvents search_results); ("query", Now (VText query))]
  end.

Definition Attendlist_get (request : HttpRequest) : M HttpResponse :=
  LoginRequiredMixin request (λ u,
    let events := qs_join (users_attending_is (User.id u)) Event_public in
    render request "attend_list.html" [("events", LEvents events)]).

End Views.

(** ** The two sides of the search claim

    [search_spec] is the result as the specification words it: for a
    signed-in caller the deduplicated union of two separate fetches, the
    caller's own private events whose name contains the query byte for byte
    and the public events whose name contains it once both are put in lower
    case; for an anonymous caller the public match alone.  [search_folded]
    differs in the private fetch only, which compares in lower case too. *)

Definition own_private_match (u : User.t) (query : string) (e : Event.t) : bool :=
  Event.make_private e && (Event.user e =? User.id u)
  && Text.is_infix query (Event.name e).

Definition public_match (query : string) (e : Event.t) : bool :=
  negb (Event.make_private e)
  && Text.is_infix (Text.lower query) (Text.lower (Event.name e)).

Definition search_spec (caller : option User.t) (query : string)
    (table : list Event.t) : list Event.t :=
  match caller with
  | Some u =>
      distinct_rows []
        (base.filter (λ e, own_private_match u query e = true) table
         ++ base.filter (λ e, public_match query e = true) table)
  | None => base.filter (λ e, public_match query e = true) table
  end.

Definition own_private_match_folded (u : User.t) (query : string) (e : Event.t) : bool :=
  Event.make_private e && (Event.user e =? User.id u)
  && Text.is_infix (Text.lower query) (Text.lower (Event.name e)).

Definition search_folded (caller : option User.t) (query : string)
    (table : list Event.t) : list Event.t :=
  match caller with
  | Some u =>
      distinct_rows []
        (base.filter (λ e, own_private_match_folded u query e = true) table
         ++ base.filter (λ e, public_match query e = true) table)
  | None => base.filter (λ e, public_match query e = true) table
  end.

(** ** Invariants of the event table *)

(** The primary key identifies a row. *)
Definition unique_ids (l : list Event.t) : Prop := NoDup (Event.id <$> l).

(** The slug identifies a row. *)
Definition unique_slugs (l : list Event.t) : Prop := NoDup (Event.slug <$> l).

(** Every slug is the one derived from the name, as the create and edit
    handlers leave it. *)
Definition slugs_derived (nfkd : string → string) (l : list Event.t) : Prop :=
  ∀ e, e ∈ l → Event.slug e = slugify nfkd (Event.name e).

(** The data-model invariant of the event table. *)
Definition tables_ok (nfkd : string → string) (l : list Event.t) : Prop :=
  unique_ids l ∧ unique_slugs l ∧ slugs_derived nfkd l.

(** The attendee set of the event with primary key [i]. *)
Definition attendees (i : nat) (t : Tables) : option (gset nat) :=
  Event.users_attending <$> List.find (λ e, Event.id e =? i) (events t).

(** ** A small database to run the handlers on *)

Module Demo.

Definition alice : User.t := User.mk 1 false.
Definition bob : User.t := User.mk 2 false.

Definition music : Tag.t := Tag.mk 1 "music" "music".
Definition art : Tag.t := Tag.mk 2 "art" "art".

Definition spring_fest : Event.t :=
  Event.mk 1 "Spring Fest" "spring-fest" (Some 1) "Town" "Park" 121 0 false 1 [1; 2] {[2]}.

Definition secret_gig : Event.t :=
  Event.mk 2 "Secret Gig" "secret-gig" (Some 1) "Alice" "Cellar" 122 5 true 1 [1] {[2]}.

Definition jazz_night : Event.t :=
  Event.mk 3 "Jazz Night" "jazz-night" (Some 1) "Bob" "Club" 123 10 false 2 [1; 2] ∅.

Definition tables : Tables :=
  mkTables [spring_fest; secret_gig; jazz_night]
           [Category.mk 1 "Music" "music"]
           [music; art]
           []
           3.

Definition state : State := mkState tables [] [].

Definition request (caller : option User.t) (get post : QueryDict) : HttpRequest :=
  mkRequest caller get post [].

(** A comment form that needs both of its fields. *)
Definition CommentForm_clean (d : QueryDict) : option CommentData.t :=
  match QueryDict_get "username" d, QueryDict_get "comment" d with
  | Some n, Some c => Some (CommentData.mk n c)
  | _, _ => None
  end.

(** The names of the demo are ASCII text, which is in normal form. *)
Definition nfkd (value : string) : string := value.

(** An event form that needs a name and looks up the categories to choose
    from. *)
Definition EventForm_clean (d files : QueryDict) : list Model * option EventData.t :=
  ([CategoryModel],
   match QueryDict_get "name" d with
   | Some n => if String.eqb n "" then None else Some (EventData.mk n None "" "" 0 0 false [])
   | None => None
   end).

(** An instance with the name a form submitted. *)
Definition set_name (n : string) (e : Event.t) : Event.t :=
  Event.mk (Event.id e) n (Event.slug e) (Event.category e) (Event.host e)
           (Event.venue e) (Event.date_of_event e) (Event.ticket_price e)
           (Event.make_private e) (Event.user e) (Event.tags e) (Event.users_attending e).

(** The edit form validates like the create form, except that it also needs
    a venue.  A name that is submitted without a venue validates and is
    written into the instance. *)
Definition EditForm_clean (e : Event.t) (d files : QueryDict) : list Model * Validity :=
  ([CategoryModel],
   match QueryDict_get "name" d, QueryDict_get "venue" d with
   | Some n, Some v =>
       if String.eqb n "" then Invalid e
       else Valid (EventData.mk n None "" v 0 0 false [])
   | Some n, None => if String.eqb n "" then Invalid e else Invalid (set_name n e)
   | None, _ => Invalid e
   end).

Definition empty : State := mkState (mkTables [] [] [] [] 0) [] [].

(** The event that [alice] gets when she posts the name [Spring Fest] to the
    empty database, and its form data. *)
Definition posted : EventData.t := EventData.mk "Spring Fest" None "" "" 0 0 false [].
Definition renamed : EventData.t := EventData.mk "Spring Fest 2" None "" "" 0 0 false [].
Definition created : Event.t :=
  Event.mk 1 "Spring Fest" "spring-fest" None "" "" 0 0 false 1 [] ∅.

Definition attend : QueryDict := [("1", "Add to attend-list")].
Definition leave : QueryDict := [("1", "Remove from attend-list")].

(** What the public detail view of [spring_fest] hands to its template, and
    the state it leaves. *)
Definition detail_context : list (string * Value) :=
  [("event", VEvent spring_fest);
   ("tags", VTags [music; art]);
   ("related_events", VEvents [jazz_night]);
   ("comments", VComments []);
   ("form", VForm (mkForm None None))].

Definition after_detail : State :=
  mkState tables
          [SELECT EventModel; SELECT TagModel; SELECT EventModel; SELECT CommentModel] [].

End Demo.

(** ** The remaining views *)

(** [event.delete()].  [models.py] is absent, and with it the [on_delete]
    rule of the comments' foreign key: what becomes of the comments when
    their event goes is the parameter [on_delete], which gives the comment
    table after the deletion, or [None] when the rule protects an event that
    has comments and the deletion is refused with an [IntegrityError]. *)
Definition Event_delete (on_delete : nat → list Comment.t → option (list Comment.t))
    (event : Event.t) : M unit :=
  execute (SELECT CommentModel);;
  t ← get_tables;
  match on_delete (Event.id event) (comments t) with
  | None => raise IntegrityError
  | Some kept =>
      execute (DELETE EventModel);;
      put_tables (mkTables (base.filter (λ r, Event.id r ≠ Event.id event) (events t))
                           (categories t) (tag_rows t) kept (event_seq t))
  end.

(** The context of the category list holds pairs of a category and a
    queryset, which [Value] has no case for: the page is kept as the template
    name with the two evaluated context entries. *)
Record CategoryListPage := mkCategoryListPage {
  page_template : string;
  page_categories : list Category.t;
  page_events : list (Category.t * list Event.t)
}.

(** The template iterates over the queryset of every pair. *)
Fixpoint force_pairs (l : list (Category.t * QuerySet))
    : M (list (Category.t * list Event.t)) :=
  match l with
  | [] => mret []
  | (c, q) :: r =>
      execute (SELECT EventModel);;
      t ← get_tables;
      rest ← force_pairs r;
      mret ((c, qs_rows q t) :: rest)
  end.

Section MoreViews.

Variable CommentForm_clean : QueryDict → option CommentData.t.
Variable AddEventForm_clean : QueryDict → QueryDict → list Model * option EventData.t.
Variable EditEventForm_clean : Event.t → QueryDict → QueryDict → list Model * Validity.
Variable Event_str : Event.t → string.
Variable on_delete : nat → list Comment.t → option (list Comment.t).
Variable nfkd : string → string.

Definition IndexView_get (request : HttpRequest) : M HttpResponse :=
  render request "index.html" [].

(** The loop over [categories] evaluates the category queryset; the event
    querysets it collects stay lazy until the page is rendered. *)
Definition CategoryListView_get (request : HttpRequest) : M CategoryListPage :=
  execute (SELECT CategoryModel);;
  t ← get_tables;
  let all := categories t in
  let events :=
    map (λ category, (category, qs_filter (of_category category) Event_public)) all in
  evaluated ← force_pairs events;
  mret (mkCategoryListPage "categories.html" all evaluated).

Definition EventsListView_get (request : HttpRequest) : M HttpResponse :=
  let events := Event_public in
  render request "homepage.html" [("events", LEvents events)].

Definition ManageEventsView_get (request : HttpRequest) : M HttpResponse :=
  LoginRequiredMixin request (λ _, render request "manage_events.html" []).

Definition PrivateEventsView_get (request : HttpRequest) : M HttpResponse :=
  LoginRequiredMixin request (λ u,
    let my_events := qs_filter (λ e, Event.user e =? User.id u) Event_private in
    render request "private_events.html" [("my_events", LEvents my_events)]).

Definition AddEventView_get (request : HttpRequest) : M HttpResponse :=
  LoginRequiredMixin request (λ _,
    render request "add_event.html" [("form", Now (VForm (mkForm None None)))]).

Definition EditEventView_get (request : HttpRequest) (slug : string) : M HttpResponse :=
  LoginRequiredMixin request (λ u,
    event ← get_object_or_404 (qs_filter (λ e, String.eqb (Event.slug e) slug) Event_objects);
    if User.id u =? Event.user event then
      render request "edit_event.html"
             [("form", Now (VForm (mkForm (Some event) None)));
              ("event", Now (VEvent event))]
    else mret Forbidden).

Definition DeleteEventView_get (request : HttpRequest) (slug : string) : M HttpResponse :=
  LoginRequiredMixin request (λ u,
    event ← get_object_or_404 (qs_filter (λ e, String.eqb (Event.slug e) slug) Event_objects);
    if User.is_superuser u || (User.id u =? Event.user event) then
      render request "delete_event.html" [("event", Now (VEvent event))]
    else mret Forbidden).

Definition DeleteEventView_post (request : HttpRequest) (slug : string) : M HttpResponse :=
  LoginRequiredMixin request (λ u,
    event ← get_object_or_404 (qs_filter (λ e, String.eqb (Event.slug e) slug) Event_objects);
    if User.is_superuser u || (User.id u =? Event.user event) then
      Event_delete on_delete event;;
      mret (Redirect (Named "events:home"))
    else mret Forbidden).

(** The handlers of [views.py], one per view class and HTTP method. *)
Inductive Handler :=
| IndexView_GET
| CategoryListView_GET
| CategoryDetailView_GET (slug : string)
| EventsListView_GET
| EventDetailView_GET (slug : string)
| EventDetailView_POST (slug : string)
| EventTagView_GET (slug : string)
| ManageEventsView_GET
| PrivateEventsView_GET
| PrivateEventDetailView_GET (slug : string)
| AddEventView_GET
| AddEventView_POST
| EditEventView_GET (slug : string)
| EditEventView_POST (slug : string)
| DeleteEventView_GET (slug : string)
| DeleteEventView_POST (slug : string)
| SearchEventView_GET
| Attendlist_GET.

(** The state a handler leaves, whatever it answers. *)
Definition state_after (h : Handler) (request : HttpRequest) (s : State) : State :=
  match h with
  | IndexView_GET => snd (IndexView_get request s)
  | CategoryListView_GET => snd (CategoryListView_get request s)
  | CategoryDetailView_GET slug => snd (CategoryDetailView_get request slug s)
  | EventsListView_GET => snd (EventsListView_get request s)
  | EventDetailView_GET slug => snd (EventDetailView_get request slug s)
  | EventDetailView_POST slug => snd (EventDetailView_post CommentForm_clean request slug s)
  | EventTagView_GET slug => snd (EventTagView_get request slug s)
  | ManageEventsView_GET => snd (ManageEventsView_get request s)
  | PrivateEventsView_GET => snd (PrivateEventsView_get request s)
  | PrivateEventDetailView_GET slug =>
      snd (PrivateEventDetailView_get Event_str request slug s)
  | AddEventView_GET => snd (AddEventView_get request s)
  | AddEventView_POST => snd (AddEventView_post AddEventForm_clean nfkd request s)
  | EditEventView_GET slug => snd (EditEventView_get request slug s)
  | EditEventView_POST slug => snd (EditEventView_post EditEventForm_clean nfkd request slug s)
  | DeleteEventView_GET slug => snd (DeleteEventView_get request slug s)
  | DeleteEventView_POST slug => snd (DeleteEventView_post request slug s)
  | SearchEventView_GET => snd (SearchEventView_get request s)
  | Attendlist_GET => snd (Attendlist_get request s)
  end.

Definition is_GET (h : Handler) : bool :=
  match h with
  | EventDetailView_POST _ | AddEventView_POST | EditEventView_POST _
  | DeleteEventView_POST _ => false
  | _ => true
  end.

(** The handlers behind [LoginRequiredMixin] or [login_required]. *)
Definition needs_login (h : Handler) : bool :=
  match h with
  | EventDetailView_POST _ | ManageEventsView_GET | PrivateEventsView_GET
  | PrivateEventDetailView_GET _ | AddEventView_GET | AddEventView_POST
  | EditEventView_GET _ | EditEventView_POST _ | DeleteEventView_GET _
  | DeleteEventView_POST _ | Attendlist_GET => true
  | _ => false
  end.

(** A sequence of requests served one after the other. *)
Definition serve (calls : list (Handler * HttpRequest)) (s : State) : State :=
  foldl (λ s c, state_after (fst c) (snd c) s) s calls.

End MoreViews.

(** What makes an event a candidate for the related events of [event] on the
    public detail page: public, another row, and at least one tag in common
    that the tag table knows. *)
Definition related_candidate (event : Event.t) (t : Tables) (e : Event.t) : bool :=
  negb (Event.make_private e)
  && negb (Event.id e =? Event.id event)
  && (0 <? tags_id_in (tags_all event) t e).

(** A computation that reads at most: it leaves the tables and the flash
    messages as they are. *)
Definition read_only {A} (m : M A) : Prop :=
  ∀ s, db (snd (m s)) = db s ∧ flash (snd (m s)) = flash s.

(** ** More of the small database *)

Module Scenario.

Definition carol : User.t := User.mk 3 true.

(** [on_delete=CASCADE]: the comments go with their event. *)
Definition cascade (i : nat) (l : list Comment.t) : option (list Comment.t) :=
  Some (base.filter (λ c, Comment.event c ≠ i) l).

(** [on_delete=PROTECT]: an event with comments cannot be deleted. *)
Definition protect (i : nat) (l : list Comment.t) : option (list Comment.t) :=
  if existsb (λ c, Comment.event c =? i) l then None else Some l.

Definition live : Tag.t := Tag.mk 3 "live music" "live-music".

(** The demo tables with a third tag, carried by [jazz_night] next to
    [music], and one comment on [spring_fest]. *)
Definition jazz_live : Event.t :=
  Event.mk 3 "Jazz Night" "jazz-night" (Some 1) "Bob" "Club" 123 10 false 2 [1; 3] ∅.

Definition tables : Tables :=
  mkTables [Demo.spring_fest; Demo.secret_gig; jazz_live]
           [Category.mk 1 "Music" "music"; Category.mk 2 "Food" "food"]
           [Demo.music; Demo.art; live]
           [Comment.mk "bob" "see you there" 1]
           3.

Definition state : State := mkState tables [] [].

(** What the private detail view of [secret_gig] hands to its template when
    [alice] asks on the demo tables, and the state it leaves. *)
Definition private_context : list (string * Value) :=
  [("event", VEvent Demo.secret_gig);
   ("tags", VTags [Demo.music]);
   ("related_events", VEvents [Demo.spring_fest])].

Definition after_private : State :=
  mkState Demo.tables
          [SELECT EventModel; SELECT EventModel; SELECT TagModel; SELECT EventModel] [].

(** What the category detail of [music] hands to its template when [bob]
    asks on the demo tables, and the state it leaves. *)
Definition category_context : list (string * Value) :=
  [("queryset", VEvents [Demo.spring_fest; Demo.jazz_night]);
   ("category", VCategory (Category.mk 1 "Music" "music"))].

Definition after_category : State :=
  mkState Demo.tables [SELECT CategoryModel; SELECT EventModel] [].

End Scenario.

(** * Theorems *)

(** ** The text operations on examples *)

Example slugify_messy : Text.slugify "  --Hello,  World!__ " = "hello-world".
Proof. vm_compute. reflexivity. Qed.

Example slugify_keeps_inner_underscore : Text.slugify "a_b  c--d" = "a_b-c-d".
Proof. vm_compute. reflexivity. Qed.

Example contains_ignores_ascii_case :
  Text.is_infix "Fest" "Spring Fest" = true
  ∧ Text.is_infix "fest" "Spring Fest" = false
  ∧ Text.contains "Spring Fest" "fest" = true
  ∧ Text.contains "Spring Fest" "FEST" = true
  ∧ Text.contains "Spring Fest" "feast" = false
  ∧ Text.icontains "Spring Fest" "fest" = true.
Proof. vm_compute. auto 10. Qed.

Example str_decimal : Text.str 12 = "12" ∧ Text.str 0 = "0".
Proof. vm_compute. auto. Qed.

Example QueryDict_get_last :
  QueryDict_get "a" [("a", "1"); ("b", "2"); ("a", "3")] = Some "3"
  ∧ QueryDict_get "c" [("a", "1")] = None.
Proof. vm_compute. auto. Qed.

(** ** Running the monad *)

(** Unfolds the operations of the monad and computes. *)
Ltac run :=
  unfold mbind, M_bind, mret, M_ret, execute, get_tables, put_tables, raise, messages_add;
  cbn.

Lemma bind_ok {A B} (m : M A) (f : A → M B) s a s' :
  m s = (Ok a, s') → (m ≫= f) s = f a s'.
Proof. intros H. unfold mbind, M_bind. rewrite H. reflexivity. Qed.

Lemma bind_raise {A B} (m : M A) (f : A → M B) s e s' :
  m s = (Raise e, s') → (m ≫= f) s = (Raise e, s').
Proof. intros H. unfold mbind, M_bind. rewrite H. reflexivity. Qed.

Lemma qs_get_run q s :
  qs_get q s =
  (match qs_rows q (db s) with
   | [] => Raise (DoesNotExist EventModel)
   | [a] => Ok a
   | _ => Raise (MultipleObjectsReturned EventModel)
   end,
   mkState (db s) (queries s ++ [SELECT EventModel]) (flash s)).
Proof.
  unfold qs_get, the_one, mbind, M_bind, execute, get_tables, raise, mret, M_ret; cbn.
  destruct (qs_rows q (db s)) as [|a [|b r]]; reflexivity.
Qed.

Lemma get_object_or_404_run q s :
  get_object_or_404 q s =
  (match qs_rows q (db s) with
   | [] => Raise Http404
   | [a] => Ok a
   | _ => Raise (MultipleObjectsReturned EventModel)
   end,
   mkState (db s) (queries s ++ [SELECT EventModel]) (flash s)).
Proof.
  unfold get_object_or_404, or_404. rewrite qs_get_run.
  destruct (qs_rows q (db s)) as [|a [|b r]]; reflexivity.
Qed.

(** ** Search without a query (C5) *)

(** C5: when the [search] parameter is missing or empty, the search handler
    answers with the explicit invalid-input message and leaves the whole state
    as it was; in particular the log of executed statements does not grow, so
    no query reaches the event store. *)
Theorem search_without_query (request : HttpRequest) (s : State) :
  QueryDict_get "search" (GET request) = None
  ∨ QueryDict_get "search" (GET request) = Some "" →
  SearchEventView_get request s = (Ok (Body "The entry you made is invalid :( "), s)
  ∧ queries (snd (SearchEventView_get request s)) = queries s
  ∧ get_response (returning (SearchEventView_get request)) s
    = (Responded (Body "The entry you made is invalid :( "), s).
Proof.
  intros H.
  assert (E : SearchEventView_get request s
              = (Ok (Body "The entry you made is invalid :( "), s)).
  { unfold SearchEventView_get. destruct H as [-> | ->]; reflexivity. }
  split; [exact E|]. split.
  - rewrite E. reflexivity.
  - unfold get_response, returning.
    rewrite (bind_ok _ _ _ _ _ E). reflexivity.
Qed.

Lemma search_without_query_witness :
  SearchEventView_get (Demo.request None [("page", "2"); ("search", "")] []) Demo.state
  = (Ok (Body "The entry you made is invalid :( "), Demo.state)
  ∧ queries (snd (SearchEventView_get
                    (Demo.request None [("page", "2"); ("search", "")] []) Demo.state))
    = queries Demo.state
  ∧ get_response
      (returning (SearchEventView_get (Demo.request None [("page", "2"); ("search", "")] [])))
      Demo.state
    = (Responded (Body "The entry you made is invalid :( "), Demo.state).
Proof.
  apply (search_without_query (Demo.request None [("page", "2"); ("search", "")] [])).
  right. reflexivity.
Defined.

(** ** Tag browsing (C2) *)

Lemma force_all_events_tag q g s :
  force_all [("events", LEvents q); ("tag", Now (VTag g))] s
  = (Ok [("events", VEvents (qs_rows q (db s))); ("tag", VTag g)],
     mkState (db s) (queries s ++ [SELECT EventModel]) (flash s)).
Proof. reflexivity. Qed.

(** C2: the tag-browse handler reads [Event.objects], not the public
    manager.  On the demo tables an anonymous request for the tag [music]
    gets the private event [secret_gig] in its event list. *)
Theorem tag_browse_lists_private_event :
  fst (EventTagView_get (Demo.request None [] []) "music" Demo.state)
  = Ok (Render "event_tag.html"
          [("events", VEvents [Demo.spring_fest; Demo.secret_gig; Demo.jazz_night]);
           ("tag", VTag Demo.music)])
  ∧ Event.make_private Demo.secret_gig = true.
Proof. split; vm_compute; reflexivity. Qed.

(** ** Lookups that raise (C3) *)

Lemma Category_get_missing slug s :
  (∀ c, c ∈ categories (db s) → Category.slug c ≠ slug) →
  Category_get slug s
  = (Raise (DoesNotExist CategoryModel),
     mkState (db s) (queries s ++ [SELECT CategoryModel]) (flash s)).
Proof.
  intros H. unfold Category_get, the_one, mbind, M_bind, execute, get_tables, raise; cbn.
  replace (base.filter (λ c, String.eqb (Category.slug c) slug = true) (categories (db s)))
    with (@nil Category.t); [reflexivity|].
  symmetry. induction (categories (db s)) as [|c l IH]; [reflexivity|].
  rewrite filter_cons. destruct (decide _) as [Hc|Hc].
  - apply String.eqb_eq in Hc. exfalso. apply (H c); [left|exact Hc].
  - apply IH. intros c' Hc'. apply H. right. exact Hc'.
Qed.

(** The category-detail handler lets [DoesNotExist] through whenever no
    category carries the requested slug. *)
Lemma CategoryDetailView_get_missing request slug s :
  (∀ c, c ∈ categories (db s) → Category.slug c ≠ slug) →
  get_response (returning (CategoryDetailView_get request slug)) s
  = (Unhandled (DoesNotExist CategoryModel),
     mkState (db s) (queries s ++ [SELECT CategoryModel]) (flash s)).
Proof.
  intros H. unfold get_response, returning, CategoryDetailView_get.
  rewrite (bind_raise _ _ _ _ _ (bind_raise _ _ _ _ _ (Category_get_missing slug s H))).
  reflexivity.
Qed.

(** C3: a GET of the category detail for a slug that no category carries is
    not answered with a not-found page: [Category.objects.get] raises
    [DoesNotExist], nothing catches it, and the caller gets an unhandled
    exception.  The lookups that go through [get_object_or_404] answer the
    same situation with the not-found page. *)
Theorem category_detail_raises_on_unknown_slug :
  fst (get_response (returning (CategoryDetailView_get (Demo.request None [] []) "sports"))
         Demo.state)
  = Unhandled (DoesNotExist CategoryModel)
  ∧ fst (get_response (returning (EventDetailView_get (Demo.request None [] []) "sports"))
           Demo.state)
    = Responded NotFound
  ∧ fst (get_response
           (returning (PrivateEventDetailView_get Event.name
                         (Demo.request (Some Demo.bob) [] []) "sports"))
           Demo.state)
    = Responded NotFound.
Proof. repeat split; vm_compute; reflexivity. Qed.

(** ** An invalid comment (C4) *)

(** The comment branch of the detail endpoint with an invalid form: the
    handler returns nothing, whatever the request and the event. *)
Lemma EventDetailView_post_invalid clean request u slug E s :
  user request = Some u →
  get_event slug s = (Ok E, mkState (db s) (queries s ++ [SELECT EventModel]) (flash s)) →
  QueryDict_get (Text.str (Event.id E)) (POST request) ≠ Some "Add to attend-list" →
  QueryDict_get (Text.str (Event.id E)) (POST request) ≠ Some "Remove from attend-list" →
  clean (POST request) = None →
  EventDetailView_post clean request slug s
  = (Ok None, mkState (db s) (queries s ++ [SELECT EventModel]) (flash s))
  ∧ fst (get_response (EventDetailView_post clean request slug) s) = Unhandled ValueError.
Proof.
  intros Hu Hget Hadd Hrem Hc.
  assert (H : EventDetailView_post clean request slug s
              = (Ok None, mkState (db s) (queries s ++ [SELECT EventModel]) (flash s))).
  { unfold EventDetailView_post, login_required. rewrite Hu.
    unfold mbind at 1, M_bind at 1. rewrite Hget.
    rewrite !bool_decide_eq_false_2 by assumption. rewrite Hc. reflexivity. }
  split; [exact H|]. unfold get_response. rewrite H. reflexivity.
Qed.

(** C4: an authenticated POST to the event-detail endpoint that carries no
    attendance token and an invalid comment gets no response from the
    handler: the function ends without returning, and the framework reports
    the [None] as an error instead of a re-rendered page. *)
Theorem invalid_comment_gets_no_response :
  fst (EventDetailView_post Demo.CommentForm_clean
         (Demo.request (Some Demo.bob) [] [("comment", "nice")]) "spring-fest" Demo.state)
  = Ok None
  ∧ fst (get_response
           (EventDetailView_post Demo.CommentForm_clean
              (Demo.request (Some Demo.bob) [] [("comment", "nice")]) "spring-fest")
           Demo.state)
    = Unhandled ValueError.
Proof. split; vm_compute; reflexivity. Qed.

(** ** Rows of a queryset *)

Arguments qs_rows : simpl never.
Arguments tag_rows_of : simpl never.

Lemma flat_map_replicate_filter (n : Event.t → nat) (p : Event.t → bool) l :
  (∀ e, n e = if p e then 1 else 0) →
  flat_map (λ e, replicate (n e) e) l = base.filter (λ e, p e = true) l.
Proof.
  intros H. induction l as [|e l IH]; [reflexivity|].
  cbn [flat_map]. rewrite filter_cons, IH, H.
  destruct (p e); destruct (decide _); try congruence; reflexivity.
Qed.

(** A queryset without join fan-out, [DISTINCT] or slice is a filter of the
    table. *)
Lemma qs_rows_plain q t (p : Event.t → bool) :
  is_distinct q = false → high_mark q = None →
  (∀ e, rows_per_event q t e = if p e then 1 else 0) →
  qs_rows q t = base.filter (λ e, p e = true) (events t).
Proof.
  intros Hd Hm H. unfold qs_rows. rewrite Hd, Hm.
  apply flat_map_replicate_filter, H.
Qed.

Lemma elem_of_flat_map_replicate (n : Event.t → nat) l x :
  x ∈ flat_map (λ e, replicate (n e) e) l ↔ x ∈ l ∧ 0 < n x.
Proof.
  rewrite list_elem_of_In, in_flat_map. split.
  - intros (e & He & Hx). apply list_elem_of_In in He, Hx.
    apply elem_of_replicate in Hx as [-> Hn]. split; [exact He|lia].
  - intros [Hx Hn]. exists x. split; [apply list_elem_of_In, Hx|].
    apply list_elem_of_In, elem_of_replicate. split; [reflexivity|lia].
Qed.

Lemma distinct_rows_elem seen l x :
  x ∈ distinct_rows seen l → x ∈ l ∧ Event.id x ∉ seen.
Proof.
  revert seen. induction l as [|e l IH]; intros seen; cbn [distinct_rows].
  - intros H. inversion H.
  - case_bool_decide as Hs.
    + intros H. apply IH in H as [H1 H2]. split; [right; exact H1|exact H2].
    + intros H. apply elem_of_cons in H as [->|H].
      * split; [left|exact Hs].
      * apply IH in H as [H1 H2]. split; [right; exact H1|].
        intros Hx. apply H2. right. exact Hx.
Qed.

Lemma distinct_rows_id seen l :
  NoDup (Event.id <$> l) → (∀ x, x ∈ l → Event.id x ∉ seen) →
  distinct_rows seen l = l.
Proof.
  revert seen. induction l as [|e l IH]; intros seen Hnd Hs; [reflexivity|].
  cbn [distinct_rows]. rewrite fmap_cons in Hnd. apply NoDup_cons in Hnd as [Hn Hnd].
  rewrite bool_decide_eq_false_2 by (apply Hs; left).
  f_equal. apply IH; [exact Hnd|].
  intros x Hx Hin. apply elem_of_cons in Hin as [Heq|Hin].
  - apply Hn. rewrite <- Heq. apply list_elem_of_fmap_2. exact Hx.
  - apply (Hs x); [right; exact Hx|exact Hin].
Qed.

(** The rows of a queryset are rows of the table that it does not filter
    out. *)
Lemma qs_rows_elem q t x :
  x ∈ qs_rows q t → x ∈ events t ∧ 0 < rows_per_event q t x.
Proof.
  unfold qs_rows. intros H.
  assert (H' : x ∈ (if is_distinct q
                    then distinct_rows [] (flat_map (λ e, replicate (rows_per_event q t e) e) (events t))
                    else flat_map (λ e, replicate (rows_per_event q t e) e) (events t))).
  { destruct (high_mark q); [exact (subseteq_take _ _ _ H)|exact H]. }
  destruct (is_distinct q).
  - apply distinct_rows_elem in H' as [H' _]. apply elem_of_flat_map_replicate, H'.
  - apply elem_of_flat_map_replicate, H'.
Qed.

(** ** The attend list (C10) *)



(** ** Search results (C6) *)

Lemma filter_or_disjoint (a b : Event.t → bool) (l : list Event.t) :
  (∀ e, a e = true → b e = true → False) →
  base.filter (λ e, (a e || b e) = true) l
  ≡ₚ base.filter (λ e, a e = true) l ++ base.filter (λ e, b e = true) l.
Proof.
  intros Hab. induction l as [|e l IH]; [reflexivity|].
  rewrite !filter_cons.
  destruct (a e) eqn:Ha, (b e) eqn:Hb; cbn.
  - destruct (Hab e Ha Hb).
  - repeat (destruct (decide _); try congruence). cbn. constructor. exact IH.
  - repeat (destruct (decide _); try congruence).
    etransitivity; [apply perm_skip, IH|]. apply Permutation_middle.
  - repeat (destruct (decide _); try congruence).
Qed.

Lemma unique_ids_filter (p : Event.t → bool) l :
  unique_ids l → unique_ids (base.filter (λ e, p e = true) l).
Proof.
  unfold unique_ids. intros H.
  eapply sublist_NoDup; [exact H|].
  apply fmap_sublist, sublist_filter.
Qed.

(** What the search handler filters the table by. *)
Lemma search_rows (caller : option User.t) query t :
  qs_rows
    (match caller with
     | Some u =>
         qs_or (qs_filter (λ e, Text.contains (Event.name e) query
                                && (Event.user e =? User.id u))
                          Event_private)
               (qs_filter (λ e, Text.icontains (Event.name e) query) Event_public)
     | None => qs_filter (λ e, Text.icontains (Event.name e) query) Event_public
     end) t
  = match caller with
    | Some u =>
        base.filter
          (λ e, (own_private_match_folded u query e || public_match query e) = true)
          (events t)
    | None => base.filter (λ e, public_match query e = true) (events t)
    end.
Proof.
  destruct caller as [u|]; apply qs_rows_plain; try reflexivity; intros e; cbn;
    unfold own_private_match_folded, public_match, Text.icontains, Text.contains, Text.like.
  - destruct (Event.make_private e),
      (Text.is_infix (Text.lower query) (Text.lower (Event.name e))),
      (Event.user e =? User.id u); reflexivity.
  - destruct (Event.make_private e),
      (Text.is_infix (Text.lower query) (Text.lower (Event.name e))); reflexivity.
Qed.

Lemma chars_text l : Text.chars (Text.text l) = l.
Proof. apply list_ascii_of_string_of_list_ascii. Qed.

Lemma starts_with_lower q s :
  Text.starts_with q s = true →
  Text.starts_with (map Text.lower_char q) (map Text.lower_char s) = true.
Proof.
  revert s. induction q as [|a q IH]; intros [|b s] H; cbn in *; try congruence.
  apply andb_true_iff in H as [Hab H]. apply Nat.eqb_eq in Hab.
  assert (Heq : a = b).
  { unfold Text.ord in Hab. rewrite <- (ascii_nat_embedding a), <- (ascii_nat_embedding b).
    f_equal. exact Hab. }
  subst b. rewrite Nat.eqb_refl. cbn. apply IH, H.
Qed.

Lemma has_infix_lower q s :
  Text.has_infix q s = true →
  Text.has_infix (map Text.lower_char q) (map Text.lower_char s) = true.
Proof.
  induction s as [|b s IH]; intros H; cbn [Text.has_infix map] in *;
    apply orb_true_iff in H as [H|H]; apply orb_true_iff.
  - left. exact (starts_with_lower q [] H).
  - discriminate.
  - left. exact (starts_with_lower q (b :: s) H).
  - right. exact (IH H).
Qed.

(** A text found byte for byte is found in lower case too. *)
Lemma is_infix_lower q s :
  Text.is_infix q s = true → Text.is_infix (Text.lower q) (Text.lower s) = true.
Proof.
  unfold Text.is_infix, Text.lower. rewrite !chars_text. apply has_infix_lower.
Qed.

(** C6, amended: for a non-empty query the search handler renders a result
    list that is, for a signed-in user, a rearrangement of the deduplicated
    union of that user's own private events and of the public events whose
    name contains the query once the letters A to Z of both are put in lower
    case: the private match ignores the case of these letters as the public
    one does.  Every event of the union the claim describes is among the
    results, and for an anonymous caller the result is the public match of
    the claim itself.  The primary key is assumed to identify a row. *)
Theorem search_results_are_the_union (request : HttpRequest) (query : string) (s : State) :
  QueryDict_get "search" (GET request) = Some query →
  query ≠ "" →
  unique_ids (events (db s)) →
  ∃ found,
    fst (SearchEventView_get request s)
    = Ok (Render "search_events.html"
            [("search_results", VEvents found); ("query", VText query)])
    ∧ found ≡ₚ search_folded (user request) query (events (db s))
    ∧ NoDup found
    ∧ (∀ e, e ∈ search_spec (user request) query (events (db s)) → e ∈ found)
    ∧ (user request = None → found = search_spec None query (events (db s))).
Proof.
  intros Hq Hne Hid.
  exists (match user request with
          | Some u =>
              base.filter
                (λ e, (own_private_match_folded u query e || public_match query e) = true)
                (events (db s))
          | None => base.filter (λ e, public_match query e = true) (events (db s))
          end).
  split; [|split; [|split; [|split]]].
  - unfold SearchEventView_get. rewrite Hq.
    destruct query as [|c query]; [congruence|].
    unfold render, force_all, force, mbind, M_bind, execute, get_tables, mret, M_ret; cbn.
    rewrite search_rows. reflexivity.
  - destruct (user request) as [u|]; [|reflexivity].
    unfold search_folded.
    assert (Hp : base.filter
                   (λ e, (own_private_match_folded u query e || public_match query e) = true)
                   (events (db s))
                 ≡ₚ base.filter (λ e, own_private_match_folded u query e = true) (events (db s))
                    ++ base.filter (λ e, public_match query e = true) (events (db s))).
    { apply filter_or_disjoint. intros e. unfold own_private_match_folded, public_match.
      destruct (Event.make_private e); cbn; congruence. }
    rewrite distinct_rows_id; [exact Hp| |intros x _ Hx; inversion Hx].
    rewrite <- Hp. apply (unique_ids_filter _ _ Hid).
  - eapply NoDup_fmap_1 with (f := Event.id).
    destruct (user request); apply (unique_ids_filter _ _ Hid).
  - intros e. destruct (user request) as [u|]; [|exact (λ H, H)].
    unfold search_spec. intros H. apply distinct_rows_elem in H as [H _].
    apply elem_of_app in H. rewrite !list_elem_of_filter in H.
    apply list_elem_of_filter.
    destruct H as [[Hm He]|[Hm He]]; (split; [|exact He]).
    + unfold own_private_match in Hm. unfold own_private_match_folded.
      apply andb_true_iff in Hm as [Hm Hi]. rewrite Hm, (is_infix_lower _ _ Hi). reflexivity.
    + rewrite Hm. apply orb_true_r.
  - intros ->. reflexivity.
Qed.

Lemma search_results_are_the_union_witness :
  QueryDict_get "search" (GET (Demo.request (Some Demo.alice) [("search", "G")] [])) = Some "G"
  ∧ "G" ≠ ""
  ∧ unique_ids (events (db Demo.state))
  ∧ ∃ found,
      fst (SearchEventView_get (Demo.request (Some Demo.alice) [("search", "G")] []) Demo.state)
      = Ok (Render "search_events.html"
              [("search_results", VEvents found); ("query", VText "G")])
      ∧ found ≡ₚ search_folded (Some Demo.alice) "G" (events (db Demo.state))
      ∧ NoDup found
      ∧ (∀ e, e ∈ search_spec (Some Demo.alice) "G" (events (db Demo.state)) → e ∈ found)
      ∧ (Some Demo.alice = None → found = search_spec None "G" (events (db Demo.state))).
Proof.
  assert (H1 : QueryDict_get "search" (GET (Demo.request (Some Demo.alice) [("search", "G")] []))
               = Some "G") by reflexivity.
  assert (H2 : "G" ≠ "") by discriminate.
  assert (H3 : unique_ids (events (db Demo.state))).
  { unfold unique_ids. apply (bool_decide_unpack _). vm_compute. exact I. }
  split; [exact H1|]. split; [exact H2|]. split; [exact H3|].
  exact (search_results_are_the_union
           (Demo.request (Some Demo.alice) [("search", "G")] []) "G" Demo.state H1 H2 H3).
Defined.

(** C6 as claimed fails: alice searches for "gig" in lower case.  Her private
    event "Secret Gig" does not contain these bytes and no public name
    matches, so the union the claim describes is empty; the handler returns
    the private event. *)
Lemma search_private_match_ignores_case :
  let request := Demo.request (Some Demo.alice) [("search", "gig")] [] in
  Text.is_infix "gig" (Event.name Demo.secret_gig) = false
  ∧ search_spec (user request) "gig" (events (db Demo.state)) = []
  ∧ fst (SearchEventView_get request Demo.state)
    = Ok (Render "search_events.html"
            [("search_results", VEvents [Demo.secret_gig]); ("query", VText "gig")]).
Proof. vm_compute. auto. Qed.

(** ** Related events (C7) *)

Lemma qs_slice_length q t n : List.length (qs_rows (qs_slice n q) t) ≤ n.
Proof.
  unfold qs_rows, qs_slice. cbn [high_mark].
  rewrite length_take. destruct (high_mark q); lia.
Qed.

(** The shape both detail views give to their related-events queryset: at
    most four rows, none with the target's primary key, all public. *)
Lemma related_rows (event : Event.t) (base : QuerySet) (n : Tables → Event.t → nat)
    (t : Tables) :
  (∀ e, 0 < rows_per_event base t e → Event.make_private e = false) →
  let related :=
    qs_rows (qs_slice 4 (qs_distinct
               (qs_exclude (λ e, Event.id e =? Event.id event) (qs_join n base)))) t in
  List.length related ≤ 4
  ∧ ∀ e, e ∈ related →
         Event.id e ≠ Event.id event ∧ e ≠ event ∧ Event.make_private e = false.
Proof.
  intros Hbase related. split.
  - apply qs_slice_length.
  - intros e He. apply qs_rows_elem in He as [_ He]. cbn in He.
    destruct (Event.id e =? Event.id event) eqn:Hid; cbn in He; [lia|].
    apply Nat.eqb_neq in Hid.
    split; [exact Hid|]. split; [congruence|].
    apply Hbase. destruct (rows_per_event base t e); [lia|lia].
Qed.

(** C7: whenever the public or the private detail view renders an event, the
    [related_events] entry of the rendered context has at most four rows, none
    of them has the primary key of the rendered event (so the event itself is
    not among them), and none of them is private. *)
Theorem related_events_properties (Event_str : Event.t → string)
    (request : HttpRequest) (slug template_name : string)
    (ctx : list (string * Value)) (s s' : State) :
  EventDetailView_get request slug s = (Ok (Render template_name ctx), s')
  ∨ PrivateEventDetailView_get Event_str request slug s
    = (Ok (Render template_name ctx), s') →
  ∃ event related,
    lookup_ctx "event" ctx = Some (VEvent event)
    ∧ lookup_ctx "related_events" ctx = Some (VEvents related)
    ∧ List.length related ≤ 4
    ∧ ∀ e, e ∈ related →
           Event.id e ≠ Event.id event ∧ e ≠ event ∧ Event.make_private e = false.
Proof.
  intros [H|H].
  - unfold EventDetailView_get, get_event, mbind, M_bind in H.
    rewrite get_object_or_404_run in H.
    destruct (qs_rows _ (db s)) as [|event [|? ?]]; try discriminate H.
    unfold render, force_all, force, mbind, M_bind, execute, get_tables, mret, M_ret in H.
    cbn in H. injection H as <- <- <-.
    eexists event, _. split; [reflexivity|]. split; [reflexivity|].
    apply related_rows. intros e. cbn.
    destruct (Event.make_private e); cbn; [lia|reflexivity].
  - unfold PrivateEventDetailView_get, LoginRequiredMixin, login_required in H.
    destruct (user request) as [u|]; [|discriminate H].
    unfold get_private_event, mbind, M_bind in H.
    rewrite get_object_or_404_run in H.
    destruct (qs_rows _ (db s)) as [|found [|? ?]]; try discriminate H.
    destruct (User.id u =? Event.user found); [|discriminate H].
    rewrite qs_get_run in H. cbn [db] in H.
    destruct (qs_rows _ (db s)) as [|event [|? ?]]; try discriminate H.
    unfold render, force_all, force, mbind, M_bind, execute, get_tables, mret, M_ret in H.
    cbn in H. injection H as <- <- <-.
    eexists event, _. split; [reflexivity|]. split; [reflexivity|].
    apply related_rows. intros e. cbn.
    destruct (Event.user e =? User.id u), (Event.make_private e); cbn; try lia; reflexivity.
Qed.

Lemma related_events_properties_witness :
  EventDetailView_get (Demo.request None [] []) "spring-fest" Demo.state
  = (Ok (Render "event_detail.html" Demo.detail_context), Demo.after_detail)
  ∧ ∃ event related,
      lookup_ctx "event" Demo.detail_context = Some (VEvent event)
      ∧ lookup_ctx "related_events" Demo.detail_context = Some (VEvents related)
      ∧ List.length related ≤ 4
      ∧ ∀ e, e ∈ related →
             Event.id e ≠ Event.id event ∧ e ≠ event ∧ Event.make_private e = false.
Proof.
  assert (H : EventDetailView_get (Demo.request None [] []) "spring-fest" Demo.state
              = (Ok (Render "event_detail.html" Demo.detail_context), Demo.after_detail))
    by (vm_compute; reflexivity).
  split; [exact H|].
  exact (related_events_properties Event.name (Demo.request None [] []) "spring-fest"
           "event_detail.html" Demo.detail_context Demo.state Demo.after_detail
           (or_introl H)).
Defined.

(** ** The private detail view (C1) *)

Lemma filter_none (p : Event.t → bool) l :
  (∀ e, e ∈ l → p e = false) → base.filter (λ e, p e = true) l = [].
Proof.
  intros H. induction l as [|e l IH]; [reflexivity|].
  rewrite filter_cons. destruct (decide _) as [Hp|_].
  - rewrite (H e) in Hp by left. discriminate.
  - apply IH. intros x Hx. apply H. right. exact Hx.
Qed.

(** Under unique slugs a filter whose matches all carry the slug of [E]
    finds [E] alone. *)
Lemma filter_by_slug (p : Event.t → bool) l E :
  unique_slugs l → E ∈ l → p E = true →
  (∀ e, e ∈ l → p e = true → Event.slug e = Event.slug E) →
  base.filter (λ e, p e = true) l = [E].
Proof.
  unfold unique_slugs. intros Hnd HE HpE Hslug.
  induction l as [|e l IH]; [inversion HE|].
  rewrite fmap_cons in Hnd. apply NoDup_cons in Hnd as [Hn Hnd].
  rewrite filter_cons. destruct (decide _) as [Hp|Hp].
  - assert (e = E) as ->.
    { apply elem_of_cons in HE as [->|HE]; [reflexivity|].
      exfalso. apply Hn. rewrite (Hslug e) by (try left; assumption).
      apply list_elem_of_fmap_2. exact HE. }
    f_equal. apply filter_none. intros x Hx.
    destruct (p x) eqn:Hpx; [|reflexivity].
    exfalso. apply Hn. rewrite <- (Hslug x) by (try right; assumption).
    apply list_elem_of_fmap_2. exact Hx.
  - apply elem_of_cons in HE as [->|HE]; [congruence|].
    apply IH; [exact Hnd|exact HE|].
    intros x Hx. apply Hslug. right. exact Hx.
Qed.

(** The slug resolves a private event under the private policy. *)
Lemma get_private_event_found s E :
  unique_slugs (events (db s)) → E ∈ events (db s) → Event.make_private E = true →
  get_private_event (Event.slug E) s
  = (Ok E, mkState (db s) (queries s ++ [SELECT EventModel]) (flash s)).
Proof.
  intros Hu HE Hp. unfold get_private_event. rewrite get_object_or_404_run.
  rewrite (qs_rows_plain _ _
             (λ e, String.eqb (Event.slug e) (Event.slug E) && Event.make_private e));
    [|reflexivity|reflexivity|intros e; reflexivity].
  rewrite (filter_by_slug _ _ E Hu HE); [reflexivity| |].
  - rewrite Hp, String.eqb_refl. reflexivity.
  - intros e _ He. apply andb_true_iff in He as [He _]. apply String.eqb_eq, He.
Qed.

(** The second fetch of the private detail view, by owner and name, finds the
    same event when slugs are unique and derived from the names. *)
Lemma private_refetch_rows {nfkd : string → string} (Event_str : Event.t → string) (u : User.t) t E :
  Event_str E = Event.name E →
  unique_slugs (events t) → slugs_derived nfkd (events t) →
  E ∈ events t → Event.make_private E = true → User.id u = Event.user E →
  qs_rows (qs_filter (λ e, (Event.user e =? User.id u)
                            && String.eqb (Event.name e) (Event_str E))
                     Event_private) t
  = [E].
Proof.
  intros Hstr Hu Hd HE Hp Ho.
  rewrite (qs_rows_plain _ _
             (λ e, (Event.user e =? User.id u)
                   && String.eqb (Event.name e) (Event_str E)
                   && Event.make_private e)); [|reflexivity|reflexivity|].
  - apply (filter_by_slug _ _ E Hu HE).
    + rewrite Hp, Hstr, String.eqb_refl, Ho, Nat.eqb_refl. reflexivity.
    + intros e He Hm. apply andb_true_iff in Hm as [Hm _].
      apply andb_true_iff in Hm as [_ Hm]. apply String.eqb_eq in Hm.
      rewrite (Hd e He), (Hd E HE), Hm, Hstr. reflexivity.
  - intros e. cbn.
    destruct ((Event.user e =? User.id u) && String.eqb (Event.name e) (Event_str E)),
      (Event.make_private e); reflexivity.
Qed.

(** C1: let [E] be a private event of a table whose slugs are unique and
    derived from the names, and let a signed-in user request the private
    detail view under the slug of [E].  A user other than the owner of [E] is
    answered [Forbidden]; the owner is answered with the private detail page
    rendered for [E].  [str(event)] is taken to be the event's name. *)
Theorem private_detail_owner_only (nfkd : string → string) (Event_str : Event.t → string)
    (request : HttpRequest) (u : User.t) (E : Event.t) (s : State) :
  Event_str E = Event.name E →
  unique_slugs (events (db s)) →
  slugs_derived nfkd (events (db s)) →
  E ∈ events (db s) →
  Event.make_private E = true →
  user request = Some u →
  (User.id u ≠ Event.user E →
   fst (PrivateEventDetailView_get Event_str request (Event.slug E) s) = Ok Forbidden)
  ∧ (User.id u = Event.user E →
     ∃ ctx,
       fst (PrivateEventDetailView_get Event_str request (Event.slug E) s)
       = Ok (Render "private_event_detail.html" ctx)
       ∧ lookup_ctx "event" ctx = Some (VEvent E)).
Proof.
  intros Hstr Hu Hd HE Hp Hreq.
  split; intros Ho;
    unfold PrivateEventDetailView_get, LoginRequiredMixin, login_required;
    rewrite Hreq; unfold mbind at 1, M_bind at 1;
    rewrite (get_private_event_found s E Hu HE Hp).
  - apply Nat.eqb_neq in Ho. rewrite Ho. reflexivity.
  - rewrite Ho, Nat.eqb_refl. unfold mbind at 1, M_bind at 1.
    rewrite qs_get_run. cbn [db].
    rewrite <- Ho.
    rewrite (private_refetch_rows Event_str u (db s) E Hstr Hu Hd HE Hp Ho).
    unfold render, force_all, force, mbind, M_bind, execute, get_tables, mret, M_ret.
    cbn. eexists. split; reflexivity.
Qed.

Lemma demo_slugs_derived : slugs_derived Demo.nfkd (events (db Demo.state)).
Proof.
  intros e He. revert e He. apply Forall_forall.
  apply (bool_decide_unpack _). vm_compute. exact I.
Qed.

Lemma demo_unique_slugs : unique_slugs (events (db Demo.state)).
Proof. unfold unique_slugs. apply (bool_decide_unpack _). vm_compute. exact I. Qed.

Lemma demo_unique_ids : unique_ids (events (db Demo.state)).
Proof. unfold unique_ids. apply (bool_decide_unpack _). vm_compute. exact I. Qed.

Lemma private_detail_owner_only_witness :
  unique_slugs (events (db Demo.state))
  ∧ slugs_derived Demo.nfkd (events (db Demo.state))
  ∧ Demo.secret_gig ∈ events (db Demo.state)
  ∧ fst (PrivateEventDetailView_get Event.name (Demo.request (Some Demo.bob) [] [])
           "secret-gig" Demo.state)
    = Ok Forbidden
  ∧ ∃ ctx,
      fst (PrivateEventDetailView_get Event.name (Demo.request (Some Demo.alice) [] [])
             "secret-gig" Demo.state)
      = Ok (Render "private_event_detail.html" ctx)
      ∧ lookup_ctx "event" ctx = Some (VEvent Demo.secret_gig).
Proof.
  assert (HE : Demo.secret_gig ∈ events (db Demo.state)) by (right; left).
  split; [exact demo_unique_slugs|]. split; [exact demo_slugs_derived|].
  split; [exact HE|]. split.
  - apply (proj1 (private_detail_owner_only Demo.nfkd Event.name (Demo.request (Some Demo.bob) [] [])
                    Demo.bob Demo.secret_gig Demo.state eq_refl
                    demo_unique_slugs demo_slugs_derived HE eq_refl eq_refl)).
    discriminate.
  - apply (proj2 (private_detail_owner_only Demo.nfkd Event.name (Demo.request (Some Demo.alice) [] [])
                    Demo.alice Demo.secret_gig Demo.state eq_refl
                    demo_unique_slugs demo_slugs_derived HE eq_refl eq_refl)).
    reflexivity.
Defined.

(** ** Attendance (C8) *)

Lemma add_then_remove_set (u : nat) (A : gset nat) : ({[u]} ∪ A) ∖ {[u]} = A ∖ {[u]}.
Proof.
  apply set_eq. intros x.
  rewrite !elem_of_difference, elem_of_union, elem_of_singleton. tauto.
Qed.

Lemma add_present (u : nat) (A : gset nat) : u ∈ A → {[u]} ∪ A = A.
Proof.
  intros Hu. apply set_eq. intros x.
  rewrite elem_of_union, elem_of_singleton. split; [intros [->|H]; assumption|auto].
Qed.

Lemma remove_absent (u : nat) (A : gset nat) : u ∉ A → A ∖ {[u]} = A.
Proof.
  intros Hu. apply set_eq. intros x.
  rewrite elem_of_difference, elem_of_singleton. split; [tauto|].
  intros Hx. split; [exact Hx|]. intros ->. exact (Hu Hx).
Qed.

Lemma set_users_attending_same E : set_users_attending (Event.users_attending E) E = E.
Proof. destruct E; reflexivity. Qed.

Lemma alter_event_events i f t :
  events (alter_event i f t) = map (λ r, if Event.id r =? i then f r else r) (events t).
Proof. reflexivity. Qed.

Lemma alter_event_twice i f g t :
  (∀ r, Event.id r = i → Event.id (f r) = i) →
  alter_event i g (alter_event i f t) = alter_event i (λ r, g (f r)) t.
Proof.
  intros Hf. unfold alter_event, with_events; cbn. f_equal.
  rewrite map_map. apply map_ext. intros r.
  destruct (Event.id r =? i) eqn:Hr.
  - apply Nat.eqb_eq in Hr. rewrite (Hf r Hr), Nat.eqb_refl. reflexivity.
  - rewrite Hr. reflexivity.
Qed.

(** Rewriting the rows of one key by a function that fixes them changes
    nothing. *)
Lemma alter_event_fixed i f t :
  (∀ r, r ∈ events t → Event.id r = i → f r = r) → alter_event i f t = t.
Proof.
  intros H. destruct t as [l c g m n]. unfold alter_event, with_events; cbn in *. f_equal.
  induction l as [|r l IH]; [reflexivity|]. cbn. f_equal.
  - destruct (Event.id r =? i) eqn:Hr; [|reflexivity].
    apply H; [left|apply Nat.eqb_eq, Hr].
  - apply IH. intros x Hx. apply H. right. exact Hx.
Qed.

Lemma same_id_same_row l (E r : Event.t) :
  unique_ids l → E ∈ l → r ∈ l → Event.id r = Event.id E → r = E.
Proof.
  unfold unique_ids. intros Hnd HE Hr Hid.
  induction l as [|x l IH]; [inversion HE|].
  rewrite fmap_cons in Hnd. apply NoDup_cons in Hnd as [Hn Hnd].
  apply elem_of_cons in HE as [->|HE], Hr as [->|Hr].
  - reflexivity.
  - exfalso. apply Hn. rewrite <- Hid. apply list_elem_of_fmap_2, Hr.
  - exfalso. apply Hn. rewrite Hid. apply list_elem_of_fmap_2, HE.
  - apply IH; assumption.
Qed.

Lemma find_by_id l E :
  unique_ids l → E ∈ l → List.find (λ e, Event.id e =? Event.id E) l = Some E.
Proof.
  intros Hnd HE. induction l as [|x l IH]; [inversion HE|]. cbn.
  destruct (Event.id x =? Event.id E) eqn:Hx.
  - f_equal. apply (same_id_same_row (x :: l)); [exact Hnd|exact HE|left|].
    apply Nat.eqb_eq, Hx.
  - apply elem_of_cons in HE as [->|HE]; [rewrite Nat.eqb_refl in Hx; discriminate|].
    apply IH; [|exact HE].
    unfold unique_ids in *. rewrite fmap_cons in Hnd. apply NoDup_cons in Hnd as [_ Hnd].
    exact Hnd.
Qed.

Lemma find_alter i f l :
  (∀ r, Event.id (f r) = Event.id r) →
  List.find (λ e, Event.id e =? i) (map (λ r, if Event.id r =? i then f r else r) l)
  = f <$> List.find (λ e, Event.id e =? i) l.
Proof.
  intros Hf. induction l as [|x l IH]; [reflexivity|]. cbn.
  destruct (Event.id x =? i) eqn:Hx.
  - rewrite Hf, Hx. reflexivity.
  - rewrite Hx. exact IH.
Qed.

Lemma attendees_alter i (h : gset nat → gset nat) t E :
  unique_ids (events t) → E ∈ events t → i = Event.id E →
  attendees i (alter_event i (λ r, set_users_attending (h (Event.users_attending r)) r) t)
  = Some (h (Event.users_attending E)).
Proof.
  intros Hnd HE ->. unfold attendees. rewrite alter_event_events.
  rewrite find_alter by reflexivity.
  rewrite (find_by_id _ E Hnd HE). reflexivity.
Qed.

(** The slug resolves a public event under the public policy. *)
Lemma get_event_found s E :
  unique_slugs (events (db s)) → E ∈ events (db s) → Event.make_private E = false →
  get_event (Event.slug E) s
  = (Ok E, mkState (db s) (queries s ++ [SELECT EventModel]) (flash s)).
Proof.
  intros Hu HE Hp. unfold get_event. rewrite get_object_or_404_run.
  rewrite (qs_rows_plain _ _
             (λ e, String.eqb (Event.slug e) (Event.slug E) && negb (Event.make_private e)));
    [|reflexivity|reflexivity|intros e; reflexivity].
  rewrite (filter_by_slug _ _ E Hu HE); [reflexivity| |].
  - rewrite Hp, String.eqb_refl. reflexivity.
  - intros e _ He. apply andb_true_iff in He as [He _]. apply String.eqb_eq, He.
Qed.

(** What the attendance branch of the detail endpoint does for a public
    event that the slug resolves. *)
Lemma EventDetailView_post_add clean request u E s :
  unique_slugs (events (db s)) → E ∈ events (db s) → Event.make_private E = false →
  user request = Some u →
  QueryDict_get (Text.str (Event.id E)) (POST request) = Some "Add to attend-list" →
  EventDetailView_post clean request (Event.slug E) s
  = (Ok (Some (Body "This evnt has been added to your evnt list.")),
     mkState (alter_event (Event.id E)
                (λ r, set_users_attending ({[User.id u]} ∪ Event.users_attending r) r) (db s))
             (queries s ++ [SELECT EventModel; INSERT AttendanceModel])
             (flash s)).
Proof.
  intros Hu HE Hp Hreq Hpost.
  unfold EventDetailView_post, login_required. rewrite Hreq.
  unfold mbind at 1, M_bind at 1. rewrite (get_event_found s E Hu HE Hp).
  rewrite Hpost. rewrite bool_decide_eq_true_2 by reflexivity.
  unfold users_attending_add, users_attending_remove. run.
  rewrite <- app_assoc. reflexivity.
Qed.

Lemma EventDetailView_post_remove clean request u E s :
  unique_slugs (events (db s)) → E ∈ events (db s) → Event.make_private E = false →
  user request = Some u →
  QueryDict_get (Text.str (Event.id E)) (POST request) = Some "Remove from attend-list" →
  EventDetailView_post clean request (Event.slug E) s
  = (Ok (Some (Body "This evnt has been removed from your attend-list")),
     mkState (alter_event (Event.id E)
                (λ r, set_users_attending (Event.users_attending r ∖ {[User.id u]}) r) (db s))
             (queries s ++ [SELECT EventModel; DELETE AttendanceModel])
             (flash s)).
Proof.
  intros Hu HE Hp Hreq Hpost.
  unfold EventDetailView_post, login_required. rewrite Hreq.
  unfold mbind at 1, M_bind at 1. rewrite (get_event_found s E Hu HE Hp).
  rewrite Hpost. rewrite bool_decide_eq_false_2 by discriminate.
  rewrite bool_decide_eq_true_2 by reflexivity.
  unfold users_attending_add, users_attending_remove. run.
  rewrite <- app_assoc. reflexivity.
Qed.

Lemma alter_event_slugs i f t :
  (∀ r, Event.id r = i → Event.slug (f r) = Event.slug r) →
  Event.slug <$> events (alter_event i f t) = Event.slug <$> events t.
Proof.
  intros Hf. rewrite alter_event_events.
  induction (events t) as [|r l IH]; [reflexivity|]. cbn. rewrite IH. f_equal.
  destruct (Event.id r =? i) eqn:Hr; [apply Hf, Nat.eqb_eq, Hr|reflexivity].
Qed.

Lemma alter_event_ids i f t :
  (∀ r, Event.id r = i → Event.id (f r) = Event.id r) →
  Event.id <$> events (alter_event i f t) = Event.id <$> events t.
Proof.
  intros Hf. rewrite alter_event_events.
  induction (events t) as [|r l IH]; [reflexivity|]. cbn. rewrite IH. f_equal.
  destruct (Event.id r =? i) eqn:Hr; [apply Hf, Nat.eqb_eq, Hr|reflexivity].
Qed.

Lemma alter_event_elem f t E :
  E ∈ events t → f E ∈ events (alter_event (Event.id E) f t).
Proof.
  intros HE. rewrite alter_event_events. apply list_elem_of_In, in_map_iff.
  exists E. split; [rewrite Nat.eqb_refl; reflexivity|apply list_elem_of_In, HE].
Qed.

(** C8, as the code has it: for a signed-in user [u] and a public event [E]
    that its slug resolves, the add action followed by the remove action
    both succeed and leave [E] with its prior attendee set minus [u].  The
    tables are back in their prior state when [u] was not attending before;
    adding an attendee who is present, or removing one who is absent, succeeds
    and changes no table. *)
Theorem attendance_add_then_remove (clean : QueryDict → option CommentData.t)
    (add remove : HttpRequest) (u : User.t) (E : Event.t) (s : State) :
  unique_ids (events (db s)) →
  unique_slugs (events (db s)) →
  E ∈ events (db s) →
  Event.make_private E = false →
  user add = Some u →
  user remove = Some u →
  QueryDict_get (Text.str (Event.id E)) (POST add) = Some "Add to attend-list" →
  QueryDict_get (Text.str (Event.id E)) (POST remove) = Some "Remove from attend-list" →
  let post r := EventDetailView_post clean r (Event.slug E) in
  let s1 := snd (post add s) in
  let s2 := snd (post remove s1) in
  fst (post add s) = Ok (Some (Body "This evnt has been added to your evnt list."))
  ∧ fst (post remove s1) = Ok (Some (Body "This evnt has been removed from your attend-list"))
  ∧ attendees (Event.id E) (db s2) = Some (Event.users_attending E ∖ {[User.id u]})
  ∧ (User.id u ∉ Event.users_attending E → db s2 = db s)
  ∧ (User.id u ∈ Event.users_attending E → db s1 = db s)
  ∧ (User.id u ∉ Event.users_attending E →
     fst (post remove s) = Ok (Some (Body "This evnt has been removed from your attend-list"))
     ∧ db (snd (post remove s)) = db s).
Proof.
  intros Hid Hsl HE Hp Hua Hur Hadd Hrem post s1 s2.
  pose (f1 := λ r, set_users_attending ({[User.id u]} ∪ Event.users_attending r) r).
  pose (f2 := λ r, set_users_attending (Event.users_attending r ∖ {[User.id u]}) r).
  assert (E1 : post add s
               = (Ok (Some (Body "This evnt has been added to your evnt list.")),
                  mkState (alter_event (Event.id E) f1 (db s))
                          (queries s ++ [SELECT EventModel; INSERT AttendanceModel])
                          (flash s))).
  { apply EventDetailView_post_add; assumption. }
  assert (Hs1 : db s1 = alter_event (Event.id E) f1 (db s)).
  { unfold s1. rewrite E1. reflexivity. }
  assert (E2 : post remove s1
               = (Ok (Some (Body "This evnt has been removed from your attend-list")),
                  mkState (alter_event (Event.id E) f2 (db s1))
                          (queries s1 ++ [SELECT EventModel; DELETE AttendanceModel])
                          (flash s1))).
  { apply (EventDetailView_post_remove clean remove u (f1 E) s1).
    - unfold unique_slugs. rewrite Hs1, alter_event_slugs by reflexivity. exact Hsl.
    - rewrite Hs1. apply alter_event_elem, HE.
    - exact Hp.
    - exact Hur.
    - exact Hrem. }
  assert (Hs2 : db s2 = alter_event (Event.id E) (λ r, f2 (f1 r)) (db s)).
  { unfold s2. rewrite E2. cbn [snd db]. rewrite Hs1.
    apply alter_event_twice. intros r Hr. exact Hr. }
  assert (Hrow : ∀ r, r ∈ events (db s) → Event.id r = Event.id E → r = E).
  { intros r Hr. apply (same_id_same_row _ _ _ Hid HE Hr). }
  split; [rewrite E1; reflexivity|].
  split; [rewrite E2; reflexivity|].
  split; [|split; [|split]].
  - rewrite Hs2.
    etransitivity;
      [exact (attendees_alter _ (λ a, ({[User.id u]} ∪ a) ∖ {[User.id u]}) _ E Hid HE eq_refl)|].
    f_equal. apply add_then_remove_set.
  - intros Hout. rewrite Hs2. apply alter_event_fixed.
    intros r Hr Hrid. rewrite (Hrow r Hr Hrid).
    change (f2 (f1 E))
      with (set_users_attending
              (({[User.id u]} ∪ Event.users_attending E) ∖ {[User.id u]}) E).
    rewrite add_then_remove_set, (remove_absent _ _ Hout).
    apply set_users_attending_same.
  - intros Hin. rewrite Hs1. apply alter_event_fixed.
    intros r Hr Hrid. rewrite (Hrow r Hr Hrid). unfold f1.
    rewrite (add_present _ _ Hin).
    apply set_users_attending_same.
  - intros Hout.
    assert (E3 : post remove s
                 = (Ok (Some (Body "This evnt has been removed from your attend-list")),
                    mkState (alter_event (Event.id E) f2 (db s))
                            (queries s ++ [SELECT EventModel; DELETE AttendanceModel])
                            (flash s))).
    { apply EventDetailView_post_remove; assumption. }
    rewrite E3. split; [reflexivity|]. cbn [snd db]. apply alter_event_fixed.
    intros r Hr Hrid. rewrite (Hrow r Hr Hrid). unfold f2.
    rewrite (remove_absent _ _ Hout).
    apply set_users_attending_same.
Qed.

Lemma attendance_add_then_remove_witness :
  let add := Demo.request (Some Demo.alice) [] Demo.attend in
  let remove := Demo.request (Some Demo.alice) [] Demo.leave in
  let post r := EventDetailView_post Demo.CommentForm_clean r "spring-fest" in
  let s1 := snd (post add Demo.state) in
  let s2 := snd (post remove s1) in
  (unique_ids (events (db Demo.state)) ∧ unique_slugs (events (db Demo.state))
   ∧ Demo.spring_fest ∈ events (db Demo.state)
   ∧ QueryDict_get (Text.str (Event.id Demo.spring_fest)) (POST add)
     = Some "Add to attend-list"
   ∧ QueryDict_get (Text.str (Event.id Demo.spring_fest)) (POST remove)
     = Some "Remove from attend-list")
  ∧ fst (post add Demo.state) = Ok (Some (Body "This evnt has been added to your evnt list."))
  ∧ fst (post remove s1) = Ok (Some (Body "This evnt has been removed from your attend-list"))
  ∧ attendees 1 (db s2) = Some (Event.users_attending Demo.spring_fest ∖ {[1]})
  ∧ (1 ∉ Event.users_attending Demo.spring_fest → db s2 = db Demo.state)
  ∧ (1 ∈ Event.users_attending Demo.spring_fest → db s1 = db Demo.state)
  ∧ (1 ∉ Event.users_attending Demo.spring_fest →
     fst (post remove Demo.state)
     = Ok (Some (Body "This evnt has been removed from your attend-list"))
     ∧ db (snd (post remove Demo.state)) = db Demo.state).
Proof.
  intros add remove post s1 s2.
  assert (HE : Demo.spring_fest ∈ events (db Demo.state)) by left.
  assert (Ha : QueryDict_get (Text.str (Event.id Demo.spring_fest)) (POST add)
               = Some "Add to attend-list") by (vm_compute; reflexivity).
  assert (Hr : QueryDict_get (Text.str (Event.id Demo.spring_fest)) (POST remove)
               = Some "Remove from attend-list") by (vm_compute; reflexivity).
  split.
  { split; [exact demo_unique_ids|]. split; [exact demo_unique_slugs|].
    split; [exact HE|]. split; [exact Ha|exact Hr]. }
  exact (attendance_add_then_remove Demo.CommentForm_clean add remove Demo.alice
           Demo.spring_fest Demo.state demo_unique_ids demo_unique_slugs HE
           eq_refl eq_refl eq_refl Ha Hr).
Defined.

(** C8 fails as stated when the user is attending already: on the demo
    tables [bob] attends [spring_fest]; after his add action and his remove
    action the attendee set of the event is empty, not the prior [{bob}]. *)
Lemma add_then_remove_forgets_attendee :
  let add := Demo.request (Some Demo.bob) [] Demo.attend in
  let remove := Demo.request (Some Demo.bob) [] Demo.leave in
  let post r := EventDetailView_post Demo.CommentForm_clean r "spring-fest" in
  let s1 := snd (post add Demo.state) in
  let s2 := snd (post remove s1) in
  fst (post add Demo.state) = Ok (Some (Body "This evnt has been added to your evnt list."))
  ∧ fst (post remove s1) = Ok (Some (Body "This evnt has been removed from your attend-list"))
  ∧ attendees 1 (db Demo.state) = Some {[2]}
  ∧ attendees 1 (db s2) = Some ∅
  ∧ attendees 1 (db s2) ≠ attendees 1 (db Demo.state).
Proof.
  intros add remove post s1 s2.
  assert (H0 : attendees 1 (db Demo.state) = Some {[2]}) by (vm_compute; reflexivity).
  assert (H2 : attendees 1 (db s2) = Some ∅) by (vm_compute; reflexivity).
  split; [vm_compute; reflexivity|]. split; [vm_compute; reflexivity|].
  split; [exact H0|]. split; [exact H2|].
  rewrite H0, H2. intros [=].
Qed.

(** ** Slugs on create and edit (C9) *)

Arguments Text.slugify : simpl never.
Arguments slug_in_use : simpl never.
Arguments fresh_id : simpl never.
Arguments alter_event : simpl never.

Lemma fresh_id_gt t r : r ∈ events t → Event.id r < fresh_id t.
Proof.
  unfold fresh_id. generalize (event_seq t).
  induction (events t) as [|x l IH]; intros n H; [inversion H|].
  cbn. apply elem_of_cons in H as [->|H]; [lia|]. specialize (IH n H). lia.
Qed.

(** The tags of a freshly inserted row are set on that row alone. *)
Lemma alter_event_fresh f e t :
  Event.id e = fresh_id t → Event.id (f e) = Event.id e →
  alter_event (Event.id e) f (insert_event e t) = insert_event (f e) t.
Proof.
  intros He Hf.
  unfold alter_event, with_events, insert_event; cbn. rewrite Hf. f_equal.
  rewrite map_app. cbn. rewrite Nat.eqb_refl. f_equal.
  rewrite <- (map_id (events t)) at 2. apply map_ext_in. intros r Hr.
  apply list_elem_of_In, fresh_id_gt in Hr.
  destruct (Event.id r =? Event.id e) eqn:Hre; [|reflexivity].
  apply Nat.eqb_eq in Hre. lia.
Qed.

Lemma select_all_run l s :
  select_all l s = (Ok tt, mkState (db s) (queries s ++ (SELECT <$> l)) (flash s)).
Proof.
  revert s. induction l as [|m l IH]; intros s.
  - cbn. rewrite app_nil_r. destruct s; reflexivity.
  - cbn [select_all]. unfold mbind, M_bind, execute. rewrite IH. cbn.
    rewrite <- app_assoc. reflexivity.
Qed.

Lemma is_valid_run {A} (v : list Model * A) s :
  is_valid v s = (Ok (snd v), mkState (db s) (queries s ++ (SELECT <$> fst v)) (flash s)).
Proof. unfold is_valid, mbind, M_bind. rewrite select_all_run. reflexivity. Qed.

(** The create handler on a valid submission. *)
Lemma AddEventView_post_valid {nfkd : string → string} AddEventForm_clean request u d s :
  user request = Some u →
  snd (AddEventForm_clean (POST request) (FILES request)) = Some d →
  let new_slug := slugify nfkd (EventData.name d) in
  let lookups := SELECT <$> fst (AddEventForm_clean (POST request) (FILES request)) in
  let e := set_tags (EventData.tags d)
             (set_id (fresh_id (db s))
                (set_slug new_slug (set_user (User.id u) (set_fields d blank)))) in
  AddEventView_post AddEventForm_clean nfkd request s
  = if slug_in_use new_slug None (events (db s))
    then (Raise IntegrityError,
          mkState (db s) (queries s ++ lookups ++ [INSERT EventModel]) (flash s))
    else (Ok (Redirect (AbsoluteUrl e)),
          mkState (insert_event e (db s))
                  (queries s ++ lookups ++ [INSERT EventModel; UPDATE TagModel])
                  (flash s ++ [(SUCCESS, "Evnt posted successfully.")])).
Proof.
  intros Hu Hd new_slug lookups e.
  unfold AddEventView_post, LoginRequiredMixin, login_required. rewrite Hu.
  unfold mbind at 1, M_bind at 1. rewrite is_valid_run, Hd. fold lookups.
  unfold save, save_m2m. run. fold new_slug.
  destruct (slug_in_use new_slug None (events (db s))).
  - rewrite <- app_assoc. reflexivity.
  - cbn. rewrite <- !app_assoc. cbn [app].
    pose proof (alter_event_fresh (set_tags (EventData.tags d))
                  (set_id (fresh_id (db s))
                     (set_slug new_slug (set_user (User.id u) (set_fields d blank))))
                  (db s) eq_refl eq_refl) as Hf.
    cbn in Hf. rewrite Hf. reflexivity.
Qed.

(** The slug resolves an event under no visibility policy, as the edit and
    delete handlers look it up. *)
Lemma get_any_event_found s E :
  unique_slugs (events (db s)) → E ∈ events (db s) →
  get_object_or_404 (qs_filter (λ e, String.eqb (Event.slug e) (Event.slug E)) Event_objects) s
  = (Ok E, mkState (db s) (queries s ++ [SELECT EventModel]) (flash s)).
Proof.
  intros Hu HE. rewrite get_object_or_404_run.
  rewrite (qs_rows_plain _ _ (λ e, String.eqb (Event.slug e) (Event.slug E)));
    [|reflexivity|reflexivity|intros e; reflexivity].
  rewrite (filter_by_slug _ _ E Hu HE); [reflexivity|apply String.eqb_refl|].
  intros e _ He. apply String.eqb_eq, He.
Qed.

(** The edit handler up to the verdict of the form, for the owner. *)
Lemma EditEventView_post_owner {nfkd : string → string} EditEventForm_clean request u E s :
  user request = Some u →
  unique_slugs (events (db s)) → E ∈ events (db s) →
  User.id u = Event.user E →
  let validation := EditEventForm_clean E (POST request) (FILES request) in
  let s1 := mkState (db s) (queries s ++ [SELECT EventModel] ++ (SELECT <$> fst validation))
                    (flash s) in
  EditEventView_post EditEventForm_clean nfkd request (Event.slug E) s
  = match snd validation with
    | Valid d =>
        let edit := set_slug (slugify nfkd (EventData.name d)) (set_fields d E) in
        (edit ← save false edit;
         edit ← save_m2m d edit;
         messages_add SUCCESS "Changes saved!";;
         mret (Redirect (AbsoluteUrl edit))) s1
    | Invalid event =>
        (messages_add ERROR "Error while updating evnt.";;
         render request "edit_event.html"
                [("form", Now (VForm (mkForm (Some event) (Some (POST request)))));
                 ("event", Now (VEvent event))]) s1
    end.
Proof.
  intros Hu Hsl HE Ho validation s1.
  unfold EditEventView_post, LoginRequiredMixin, login_required. rewrite Hu.
  unfold mbind at 1, M_bind at 1. rewrite (get_any_event_found s E Hsl HE).
  rewrite Ho, Nat.eqb_refl.
  unfold mbind at 1, M_bind at 1. rewrite is_valid_run. fold validation. cbn [db queries flash].
  rewrite <- app_assoc. unfold s1. destruct (snd validation); reflexivity.
Qed.

(** The edit handler on a valid submission by the owner. *)
Lemma EditEventView_post_valid {nfkd : string → string} EditEventForm_clean request u E d s :
  user request = Some u →
  unique_slugs (events (db s)) → E ∈ events (db s) →
  User.id u = Event.user E →
  snd (EditEventForm_clean E (POST request) (FILES request)) = Valid d →
  let new_slug := slugify nfkd (EventData.name d) in
  let lookups := SELECT <$> fst (EditEventForm_clean E (POST request) (FILES request)) in
  let e := set_tags (EventData.tags d) (set_slug new_slug (set_fields d E)) in
  EditEventView_post EditEventForm_clean nfkd request (Event.slug E) s
  = if slug_in_use new_slug (Some (Event.id E)) (events (db s))
    then (Raise IntegrityError,
          mkState (db s) (queries s ++ [SELECT EventModel] ++ lookups ++ [UPDATE EventModel])
                  (flash s))
    else (Ok (Redirect (AbsoluteUrl e)),
          mkState (alter_event (Event.id E) (λ _, e) (db s))
                  (queries s ++ [SELECT EventModel] ++ lookups
                   ++ [UPDATE EventModel; UPDATE TagModel])
                  (flash s ++ [(SUCCESS, "Changes saved!")])).
Proof.
  intros Hu Hsl HE Ho Hd new_slug lookups e.
  rewrite (EditEventView_post_owner _ _ u E s Hu Hsl HE Ho), Hd.
  unfold save, save_m2m. run. fold new_slug. fold lookups.
  destruct (slug_in_use new_slug (Some (Event.id E)) (events (db s))); cbn.
  - rewrite <- !app_assoc. reflexivity.
  - rewrite <- !app_assoc. cbn.
    rewrite (alter_event_twice (Event.id E)
               (λ _, set_slug new_slug (set_fields d E)) (set_tags (EventData.tags d)) (db s))
      by reflexivity.
    reflexivity.
Qed.

(** C9: on a valid create submission the handler stores one new event whose
    name is the submitted name and whose slug is the slugified name, unless
    that slug is taken, in which case the database rejects the write and
    nothing is stored.  On a valid edit submission by the owner the row of the
    event is replaced by one with the submitted name and the slug slugified
    from it, again unless another row holds that slug.  This holds for every
    name, with the normalisation of [slugify] as it is in the interpreter;
    since that leaves ASCII text alone, [Spring Fest] gives [spring-fest] and
    [Spring Fest 2] gives [spring-fest-2]. *)
Theorem slug_is_slugified_name (nfkd : string → string)
    (AddEventForm_clean : QueryDict → QueryDict → list Model * option EventData.t)
    (EditEventForm_clean : Event.t → QueryDict → QueryDict → list Model * Validity) :
  (∀ request u d s,
     user request = Some u →
     snd (AddEventForm_clean (POST request) (FILES request)) = Some d →
     let r := AddEventView_post AddEventForm_clean nfkd request s in
     if slug_in_use (slugify nfkd (EventData.name d)) None (events (db s))
     then fst r = Raise IntegrityError ∧ db (snd r) = db s
     else ∃ e,
         fst r = Ok (Redirect (AbsoluteUrl e))
         ∧ events (db (snd r)) = events (db s) ++ [e]
         ∧ Event.name e = EventData.name d
         ∧ Event.slug e = slugify nfkd (EventData.name d))
  ∧ (∀ request u E d s,
       user request = Some u →
       unique_slugs (events (db s)) →
       E ∈ events (db s) →
       User.id u = Event.user E →
       snd (EditEventForm_clean E (POST request) (FILES request)) = Valid d →
       let r := EditEventView_post EditEventForm_clean nfkd request (Event.slug E) s in
       if slug_in_use (slugify nfkd (EventData.name d)) (Some (Event.id E)) (events (db s))
       then fst r = Raise IntegrityError ∧ db (snd r) = db s
       else ∃ e,
           fst r = Ok (Redirect (AbsoluteUrl e))
           ∧ e ∈ events (db (snd r))
           ∧ Event.id e = Event.id E
           ∧ Event.name e = EventData.name d
           ∧ Event.slug e = slugify nfkd (EventData.name d)
           ∧ ∀ x, x ∈ events (db (snd r)) → Event.id x = Event.id E → x = e)
  ∧ (keeps_ascii nfkd →
     slugify nfkd "Spring Fest" = "spring-fest"
     ∧ slugify nfkd "Spring Fest 2" = "spring-fest-2").
Proof.
  split; [|split].
  - intros request u d s Hu Hd r. unfold r.
    rewrite (AddEventView_post_valid _ _ u d s Hu Hd).
    destruct (slug_in_use _ None _); [split; reflexivity|].
    eexists. split; [reflexivity|]. split; [reflexivity|]. split; reflexivity.
  - intros request u E d s Hu Hsl HE Ho Hd r. unfold r.
    rewrite (EditEventView_post_valid _ _ u E d s Hu Hsl HE Ho Hd).
    destruct (slug_in_use _ (Some _) _); [split; reflexivity|].
    eexists. split; [reflexivity|]. cbn [snd db].
    split; [exact (alter_event_elem (λ _, _) (db s) E HE)|].
    split; [reflexivity|]. split; [reflexivity|]. split; [reflexivity|].
    intros x Hx Hid. rewrite alter_event_events in Hx.
    apply list_elem_of_In, in_map_iff in Hx as (x0 & Hx0 & _).
    destruct (Event.id x0 =? Event.id E) eqn:Hx0id; [congruence|].
    apply Nat.eqb_neq in Hx0id. congruence.
  - intros Hk. unfold slugify.
    rewrite (Hk "Spring Fest"), (Hk "Spring Fest 2");
      [split; vm_compute; reflexivity|..];
      unfold ascii_text; cbn; repeat constructor.
Qed.

Lemma slug_is_slugified_name_witness :
  let create := Demo.request (Some Demo.alice) [] [("name", "Spring Fest")] in
  let rename :=
    Demo.request (Some Demo.alice) [] [("name", "Spring Fest 2"); ("venue", "")] in
  let r1 := AddEventView_post Demo.EventForm_clean Demo.nfkd create Demo.empty in
  let r2 := EditEventView_post Demo.EditForm_clean Demo.nfkd rename "spring-fest" (snd r1) in
  (snd (Demo.EventForm_clean (POST create) (FILES create)) = Some Demo.posted
   ∧ unique_slugs (events (db (snd r1)))
   ∧ Demo.created ∈ events (db (snd r1))
   ∧ snd (Demo.EditForm_clean Demo.created (POST rename) (FILES rename)) = Valid Demo.renamed
   ∧ keeps_ascii Demo.nfkd)
  ∧ (∃ e, fst r1 = Ok (Redirect (AbsoluteUrl e))
          ∧ events (db (snd r1)) = [e]
          ∧ Event.name e = "Spring Fest"
          ∧ Event.slug e = "spring-fest")
  ∧ (∃ e, fst r2 = Ok (Redirect (AbsoluteUrl e))
          ∧ e ∈ events (db (snd r2))
          ∧ Event.id e = 1
          ∧ Event.name e = "Spring Fest 2"
          ∧ Event.slug e = "spring-fest-2"
          ∧ ∀ x, x ∈ events (db (snd r2)) → Event.id x = 1 → x = e)
  ∧ slugify Demo.nfkd "Spring Fest" = "spring-fest"
  ∧ slugify Demo.nfkd "Spring Fest 2" = "spring-fest-2".
Proof.
  intros create rename r1 r2.
  assert (H1 : snd (Demo.EventForm_clean (POST create) (FILES create)) = Some Demo.posted)
    by reflexivity.
  assert (H2 : unique_slugs (events (db (snd r1)))).
  { unfold unique_slugs. apply (bool_decide_unpack _). vm_compute. exact I. }
  assert (H3 : Demo.created ∈ events (db (snd r1))).
  { replace (events (db (snd r1))) with [Demo.created] by (vm_compute; reflexivity). left. }
  assert (H4 : snd (Demo.EditForm_clean Demo.created (POST rename) (FILES rename))
               = Valid Demo.renamed) by reflexivity.
  assert (H5 : keeps_ascii Demo.nfkd) by (intros value _; reflexivity).
  split; [split; [exact H1|split; [exact H2|split; [exact H3|split; [exact H4|exact H5]]]]|].
  split; [|split].
  - exact (proj1 (slug_is_slugified_name Demo.nfkd Demo.EventForm_clean Demo.EditForm_clean)
             create Demo.alice Demo.posted Demo.empty eq_refl H1).
  - exact (proj1 (proj2 (slug_is_slugified_name Demo.nfkd Demo.EventForm_clean
                           Demo.EditForm_clean))
             rename Demo.alice Demo.created Demo.renamed (snd r1) eq_refl H2 H3 eq_refl H4).
  - exact (proj2 (proj2 (slug_is_slugified_name Demo.nfkd Demo.EventForm_clean
                           Demo.EditForm_clean)) H5).
Defined.

(** ** The handlers keep the data-model invariant

    The create, edit and attendance handlers are the ones that write to the
    event table.  Each of them leaves the primary keys and the slugs unique and
    every slug derived from its name. *)

Lemma slug_in_use_false slug self l r :
  slug_in_use slug self l = false → r ∈ l → Event.slug r = slug →
  self = Some (Event.id r).
Proof.
  unfold slug_in_use. intros H Hr Hs.
  destruct (existsb _ l) eqn:Hex in H; [discriminate|].
  destruct (decide (self = Some (Event.id r))) as [Hd|Hd]; [exact Hd|].
  exfalso. apply not_true_iff_false in Hex. apply Hex, existsb_exists.
  exists r. split; [apply list_elem_of_In, Hr|].
  rewrite Hs, String.eqb_refl, bool_decide_eq_false_2 by exact Hd. reflexivity.
Qed.

Lemma tables_ok_insert {nfkd : string → string} t e :
  tables_ok nfkd (events t) → Event.id e = fresh_id t →
  slug_in_use (Event.slug e) None (events t) = false →
  Event.slug e = slugify nfkd (Event.name e) →
  tables_ok nfkd (events t ++ [e]).
Proof.
  intros (Hid & Hsl & Hd) He Hfree Hslug. split; [|split].
  - unfold unique_ids in *. rewrite fmap_app. apply NoDup_app. split; [exact Hid|].
    split; [|apply NoDup_singleton].
    intros i Hi Hin. apply list_elem_of_fmap in Hi as (r & -> & Hr).
    apply list_elem_of_singleton in Hin. apply fresh_id_gt in Hr. cbn in Hin. lia.
  - unfold unique_slugs in *. rewrite fmap_app. apply NoDup_app. split; [exact Hsl|].
    split; [|apply NoDup_singleton].
    intros x Hx Hin. apply list_elem_of_fmap in Hx as (r & -> & Hr).
    apply list_elem_of_singleton in Hin.
    pose proof (slug_in_use_false _ _ _ r Hfree Hr Hin) as Hn. discriminate Hn.
  - intros r Hr. apply elem_of_app in Hr as [Hr|Hr]; [apply Hd, Hr|].
    apply list_elem_of_singleton in Hr as ->. exact Hslug.
Qed.

Lemma replace_row_elem l i e x :
  x ∈ map (λ r, if Event.id r =? i then e else r) l →
  x = e ∨ (x ∈ l ∧ Event.id x ≠ i).
Proof.
  intros Hx. apply list_elem_of_In, in_map_iff in Hx as (r & Hr & Hin).
  destruct (Event.id r =? i) eqn:Hri; [left; congruence|].
  right. subst x. split; [apply list_elem_of_In, Hin|apply Nat.eqb_neq, Hri].
Qed.

Lemma tables_ok_replace {nfkd : string → string} l E e :
  tables_ok nfkd l → E ∈ l → Event.id e = Event.id E →
  slug_in_use (Event.slug e) (Some (Event.id E)) l = false →
  Event.slug e = slugify nfkd (Event.name e) →
  tables_ok nfkd (map (λ r, if Event.id r =? Event.id E then e else r) l).
Proof.
  intros (Hid & Hsl & Hd) HE He Hfree Hslug.
  assert (Hother : ∀ r, r ∈ l → Event.id r ≠ Event.id E → Event.slug r ≠ Event.slug e).
  { intros r Hr Hne Hs. pose proof (slug_in_use_false _ _ _ r Hfree Hr Hs) as Hn.
    congruence. }
  split; [|split].
  - unfold unique_ids in *.
    replace (Event.id <$> map (λ r, if Event.id r =? Event.id E then e else r) l)
      with (Event.id <$> l); [exact Hid|].
    clear -He. induction l as [|r l IH]; [reflexivity|]. cbn. rewrite IH. f_equal.
    destruct (Event.id r =? Event.id E) eqn:Hr; [|reflexivity].
    apply Nat.eqb_eq in Hr. congruence.
  - unfold unique_slugs, unique_ids in *. clear Hd Hfree Hslug.
    induction l as [|x l IH]; [constructor|].
    rewrite fmap_cons in Hid. rewrite fmap_cons in Hsl.
    apply NoDup_cons in Hid as [Hxi Hid]. apply NoDup_cons in Hsl as [Hxs Hsl].
    cbn [map]. rewrite fmap_cons. apply NoDup_cons.
    destruct (Event.id x =? Event.id E) eqn:Hx.
    + apply Nat.eqb_eq in Hx.
      assert (Hsame : map (λ r, if Event.id r =? Event.id E then e else r) l = l).
      { rewrite <- (map_id l) at 2. apply map_ext_in. intros r Hr.
        destruct (Event.id r =? Event.id E) eqn:Hr'; [|reflexivity].
        exfalso. apply Hxi. apply Nat.eqb_eq in Hr'. rewrite Hx, <- Hr'.
        apply list_elem_of_fmap_2, list_elem_of_In, Hr. }
      rewrite Hsame. split; [|exact Hsl].
      intros Hin. apply list_elem_of_fmap in Hin as (r & Hs & Hr).
      apply (Hother r); [right; exact Hr| |congruence].
      intros Hri. apply Hxi. rewrite Hx, <- Hri. apply list_elem_of_fmap_2, Hr.
    + apply Nat.eqb_neq in Hx.
      assert (HE' : E ∈ l).
      { apply elem_of_cons in HE as [->|HE]; [congruence|exact HE]. }
      split.
      * intros Hin. apply list_elem_of_fmap in Hin as (r & Hs & Hr).
        apply replace_row_elem in Hr as [->|[Hr _]].
        -- apply (Hother x); [left|exact Hx|exact Hs].
        -- apply Hxs. rewrite Hs. apply list_elem_of_fmap_2, Hr.
      * apply IH; [exact Hid|exact Hsl|exact HE'|].
        intros r Hr. apply Hother. right. exact Hr.
  - intros r Hr. apply replace_row_elem in Hr as [->|[Hr _]]; [exact Hslug|apply Hd, Hr].
Qed.

Lemma tables_ok_attendance {nfkd : string → string} i h t :
  tables_ok nfkd (events t) →
  tables_ok nfkd (events (alter_event i
                       (λ r, set_users_attending (h (Event.users_attending r)) r) t)).
Proof.
  intros (Hid & Hsl & Hd). split; [|split].
  - unfold unique_ids. rewrite alter_event_ids by reflexivity. exact Hid.
  - unfold unique_slugs. rewrite alter_event_slugs by reflexivity. exact Hsl.
  - intros r Hr. rewrite alter_event_events in Hr.
    apply list_elem_of_In, in_map_iff in Hr as (r0 & Hr0 & Hin).
    apply list_elem_of_In in Hin.
    destruct (Event.id r0 =? i); subst r; [cbn|]; apply Hd, Hin.
Qed.

Lemma AddEventView_post_keeps_invariant {nfkd : string → string} clean request s :
  tables_ok nfkd (events (db s)) →
  tables_ok nfkd (events (db (snd (AddEventView_post clean nfkd request s)))).
Proof.
  intros Hok. destruct (user request) as [u|] eqn:Hu.
  - destruct (snd (clean (POST request) (FILES request))) as [d|] eqn:Hd.
    + rewrite (AddEventView_post_valid clean request u d s Hu Hd).
      destruct (slug_in_use _ None _) eqn:Hfree; [exact Hok|].
      cbn [snd db events insert_event].
      apply tables_ok_insert; [exact Hok|reflexivity|exact Hfree|reflexivity].
    + unfold AddEventView_post, LoginRequiredMixin, login_required. rewrite Hu.
      unfold mbind at 1, M_bind at 1. rewrite is_valid_run, Hd. exact Hok.
  - unfold AddEventView_post, LoginRequiredMixin, login_required.
    rewrite Hu. exact Hok.
Qed.

(** A row that a slug lookup found is a row of the table with that slug. *)
Lemma found_by_slug (p : Event.t → bool) slug t E l :
  qs_rows (qs_filter (λ e, String.eqb (Event.slug e) slug && p e) Event_objects) t = E :: l →
  E ∈ events t ∧ slug = Event.slug E ∧ p E = true.
Proof.
  intros H.
  assert (HE : E ∈ qs_rows (qs_filter (λ e, String.eqb (Event.slug e) slug && p e)
                                      Event_objects) t) by (rewrite H; left).
  apply qs_rows_elem in HE as [HE Hm]. cbn in Hm.
  destruct (String.eqb (Event.slug E) slug) eqn:Hs; cbn in Hm; [|lia].
  destruct (p E); [|lia].
  apply String.eqb_eq in Hs. auto.
Qed.

Lemma EditEventView_post_keeps_invariant {nfkd : string → string} clean request slug s :
  tables_ok nfkd (events (db s)) →
  tables_ok nfkd (events (db (snd (EditEventView_post clean nfkd request slug s)))).
Proof.
  intros Hok.
  destruct (user request) as [u|] eqn:Hu;
    [|unfold EditEventView_post, LoginRequiredMixin, login_required; rewrite Hu; exact Hok].
  destruct (qs_rows (qs_filter (λ e, String.eqb (Event.slug e) slug) Event_objects) (db s))
    as [|E [|E' l]] eqn:Hrows.
  1, 3: unfold EditEventView_post, LoginRequiredMixin, login_required; rewrite Hu;
    unfold mbind at 1, M_bind at 1; rewrite get_object_or_404_run, Hrows; exact Hok.
  assert (HE : E ∈ events (db s) ∧ slug = Event.slug E).
  { assert (Hin : E ∈ qs_rows (qs_filter (λ e, String.eqb (Event.slug e) slug) Event_objects)
                              (db s)) by (rewrite Hrows; left).
    apply qs_rows_elem in Hin as [Hin Hm]. cbn in Hm. split; [exact Hin|].
    destruct (String.eqb (Event.slug E) slug) eqn:Hs; [|lia].
    symmetry. apply String.eqb_eq, Hs. }
  destruct HE as [HE ->]. pose proof Hok as (Hid & Hsl & Hd).
  destruct (User.id u =? Event.user E) eqn:Ho.
  - apply Nat.eqb_eq in Ho.
    destruct (snd (clean E (POST request) (FILES request))) as [d|touched] eqn:Hc.
    + rewrite (EditEventView_post_valid clean request u E d s Hu Hsl HE Ho Hc).
      destruct (slug_in_use _ (Some _) _) eqn:Hfree; [exact Hok|].
      cbn [snd db]. rewrite alter_event_events.
      apply tables_ok_replace; [exact Hok|exact HE|reflexivity|exact Hfree|reflexivity].
    + rewrite (EditEventView_post_owner clean request u E s Hu Hsl HE Ho), Hc. exact Hok.
  - unfold EditEventView_post, LoginRequiredMixin, login_required. rewrite Hu.
    unfold mbind at 1, M_bind at 1. rewrite (get_any_event_found s E Hsl HE).
    rewrite Ho. exact Hok.
Qed.

Lemma EventDetailView_post_keeps_invariant {nfkd : string → string} clean request slug s :
  tables_ok nfkd (events (db s)) →
  tables_ok nfkd (events (db (snd (EventDetailView_post clean request slug s)))).
Proof.
  intros Hok.
  destruct (user request) as [u|] eqn:Hu;
    [|unfold EventDetailView_post, login_required; rewrite Hu; exact Hok].
  destruct (qs_rows (qs_filter (λ e, String.eqb (Event.slug e) slug
                                     && negb (Event.make_private e)) Event_objects) (db s))
    as [|E [|E' l]] eqn:Hrows.
  1, 3: unfold EventDetailView_post, login_required, get_event; rewrite Hu;
    unfold mbind at 1, M_bind at 1; rewrite get_object_or_404_run, Hrows; exact Hok.
  apply found_by_slug in Hrows as (HE & -> & Hp). apply negb_true_iff in Hp.
  pose proof Hok as (Hid & Hsl & Hd).
  destruct (QueryDict_get (Text.str (Event.id E)) (POST request)) as [token|] eqn:Ht.
  - destruct (decide (token = "Add to attend-list")) as [->|Hadd].
    { rewrite (EventDetailView_post_add clean request u E s Hsl HE Hp Hu Ht).
      cbn [snd db]. apply (tables_ok_attendance _ (λ a, {[User.id u]} ∪ a)), Hok. }
    destruct (decide (token = "Remove from attend-list")) as [->|Hrem].
    { rewrite (EventDetailView_post_remove clean request u E s Hsl HE Hp Hu Ht).
      cbn [snd db]. apply (tables_ok_attendance _ (λ a, a ∖ {[User.id u]})), Hok. }
    unfold EventDetailView_post, login_required. rewrite Hu.
    unfold mbind at 1, M_bind at 1. rewrite (get_event_found s E Hsl HE Hp), Ht.
    rewrite !bool_decide_eq_false_2 by congruence.
    destruct (clean (POST request)); [|exact Hok].
    unfold mbind at 1, M_bind at 1.
    rewrite (get_event_found (mkState (db s) _ _) E Hsl HE Hp). exact Hok.
  - unfold EventDetailView_post, login_required. rewrite Hu.
    unfold mbind at 1, M_bind at 1. rewrite (get_event_found s E Hsl HE Hp), Ht.
    rewrite !bool_decide_eq_false_2 by discriminate.
    destruct (clean (POST request)); [|exact Hok].
    unfold mbind at 1, M_bind at 1.
    rewrite (get_event_found (mkState (db s) _ _) E Hsl HE Hp). exact Hok.
Qed.

(** ** Outside the invariant *)

(** The private detail view fetches the event a second time, by owner and
    name.  On a table that breaks the invariant, with two private events of
    one owner under one name and hand-made slugs, that fetch finds both and
    the owner's request ends in [MultipleObjectsReturned]. *)
Remark private_detail_needs_the_invariant :
  let twin := Event.mk 4 "Secret Gig" "secret-gig-2" None "" "" 0 0 true 1 [] ∅ in
  let s := mkState (with_events (events Demo.tables ++ [twin]) Demo.tables) [] [] in
  unique_ids (events (db s))
  ∧ unique_slugs (events (db s))
  ∧ Event.slug twin ≠ slugify Demo.nfkd (Event.name twin)
  ∧ fst (PrivateEventDetailView_get Event.name (Demo.request (Some Demo.alice) [] [])
           "secret-gig" s)
    = Raise (MultipleObjectsReturned EventModel).
Proof.
  intros twin s. split; [|split; [|split]].
  - unfold unique_ids. apply (bool_decide_unpack _). vm_compute. exact I.
  - unfold unique_slugs. apply (bool_decide_unpack _). vm_compute. exact I.
  - vm_compute. discriminate.
  - vm_compute. reflexivity.
Qed.

(** The public detail view renders every public event that its slug
    resolves. *)
Lemma EventDetailView_get_found request E s :
  unique_slugs (events (db s)) → E ∈ events (db s) → Event.make_private E = false →
  ∃ ctx,
    fst (EventDetailView_get request (Event.slug E) s) = Ok (Render "event_detail.html" ctx)
    ∧ lookup_ctx "event" ctx = Some (VEvent E).
Proof.
  intros Hsl HE Hp. unfold EventDetailView_get.
  unfold mbind at 1, M_bind at 1. rewrite (get_event_found s E Hsl HE Hp).
  unfold render, force_all, force. run. eexists. split; reflexivity.
Qed.

(** * More of the code *)

(** ** Computations that only read *)

Lemma read_only_ret {A} (a : A) : read_only (mret a).
Proof. intros s. split; reflexivity. Qed.

Lemma read_only_raise {A} e : read_only (@raise A e).
Proof. intros s. split; reflexivity. Qed.

Lemma read_only_execute q : read_only (execute q).
Proof. intros s. split; reflexivity. Qed.

Lemma read_only_get_tables : read_only get_tables.
Proof. intros s. split; reflexivity. Qed.

Lemma read_only_bind {A B} (m : M A) (f : A → M B) :
  read_only m → (∀ a, read_only (f a)) → read_only (m ≫= f).
Proof.
  intros Hm Hf s. unfold mbind, M_bind. specialize (Hm s).
  destruct (m s) as [[a|e] s']; cbn in *.
  - destruct (Hf a s') as [H1 H2]. destruct Hm as [H3 H4]. split; congruence.
  - exact Hm.
Qed.

Lemma read_only_or_404 {A} (m : M A) : read_only m → read_only (or_404 m).
Proof.
  intros Hm s. unfold or_404. specialize (Hm s).
  destruct (m s) as [[a|[]] s']; exact Hm.
Qed.

Lemma read_only_the_one {A} m (rows : list A) : read_only (the_one m rows).
Proof.
  destruct rows as [|a [|b r]]; [apply read_only_raise|apply read_only_ret|apply read_only_raise].
Qed.

(** Solves a [read_only] goal by following the structure of the computation. *)
Ltac reads :=
  repeat first
    [ apply read_only_ret | apply read_only_raise | apply read_only_execute
    | apply read_only_get_tables | apply read_only_the_one
    | apply read_only_or_404 | apply read_only_bind; [|intros ?] ].

Lemma read_only_qs_get q : read_only (qs_get q).
Proof. unfold qs_get. reads. Qed.

Lemma read_only_get_object_or_404 q : read_only (get_object_or_404 q).
Proof. apply read_only_or_404, read_only_qs_get. Qed.

Lemma read_only_get_tag_or_404 slug : read_only (get_tag_or_404 slug).
Proof. unfold get_tag_or_404. reads. Qed.

Lemma read_only_Category_get slug : read_only (Category_get slug).
Proof. unfold Category_get. reads. Qed.

Lemma read_only_force x : read_only (force x).
Proof. destruct x; cbn [force]; reads. Qed.

Lemma read_only_force_all ctx : read_only (force_all ctx).
Proof.
  induction ctx as [|[k x] r IH]; cbn [force_all]; [apply read_only_ret|].
  apply read_only_bind; [apply read_only_force|intros v].
  apply read_only_bind; [exact IH|intros vs]. apply read_only_ret.
Qed.

Lemma read_only_render request template_name ctx :
  read_only (render request template_name ctx).
Proof.
  unfold render. apply read_only_bind; [apply read_only_force_all|intros v].
  apply read_only_ret.
Qed.

Lemma read_only_force_pairs l : read_only (force_pairs l).
Proof.
  induction l as [|[c q] r IH]; cbn [force_pairs]; [apply read_only_ret|].
  apply read_only_bind; [apply read_only_execute|intros _].
  apply read_only_bind; [apply read_only_get_tables|intros t].
  apply read_only_bind; [exact IH|intros rest]. apply read_only_ret.
Qed.

Lemma read_only_login_required {A} (to_login : A) request view :
  (∀ u, read_only (view u)) → read_only (login_required to_login request view).
Proof.
  intros H. unfold login_required. destruct (user request); [apply H|apply read_only_ret].
Qed.

(** Rendering always answers, with the template it was given. *)
Lemma render_answers request template_name ctx s :
  ∃ vals, fst (render request template_name ctx s) = Ok (Render template_name vals).
Proof.
  unfold render.
  assert (H : ∀ ctx s, ∃ vals s', force_all ctx s = (Ok vals, s')).
  { clear. induction ctx as [|[k x] r IH]; intros s; cbn [force_all].
    - eexists _, _. reflexivity.
    - assert (Hx : ∃ v s1, force x s = (Ok v, s1)) by (destruct x; eexists _, _; reflexivity).
      destruct Hx as (v & s1 & Hx). destruct (IH s1) as (vs & s2 & Hr).
      unfold mbind, M_bind. rewrite Hx, Hr. eexists _, _. reflexivity. }
  destruct (H ctx s) as (vals & s' & Hf). exists vals.
  unfold mbind, M_bind. rewrite Hf. reflexivity.
Qed.

(** ** The GET handlers never write *)

Ltac reads_view :=
  repeat first
    [ apply read_only_render | apply read_only_get_object_or_404 | apply read_only_qs_get
    | apply read_only_get_tag_or_404 | apply read_only_Category_get
    | apply read_only_force_pairs | apply read_only_ret | apply read_only_execute
    | apply read_only_get_tables
    | apply read_only_login_required; intros ?
    | apply read_only_bind; [|intros ?] ].

Lemma read_only_CategoryDetailView_get request slug :
  read_only (CategoryDetailView_get request slug).
Proof. unfold CategoryDetailView_get. reads_view. Qed.

Lemma read_only_EventDetailView_get request slug :
  read_only (EventDetailView_get request slug).
Proof. unfold EventDetailView_get, get_event. reads_view. Qed.

Lemma read_only_EventTagView_get request slug : read_only (EventTagView_get request slug).
Proof. unfold EventTagView_get. reads_view. Qed.

Lemma read_only_PrivateEventDetailView_get str request slug :
  read_only (PrivateEventDetailView_get str request slug).
Proof.
  unfold PrivateEventDetailView_get, LoginRequiredMixin, get_private_event. reads_view.
  destruct (User.id _ =? Event.user _); reads_view.
Qed.

Lemma read_only_SearchEventView_get request : read_only (SearchEventView_get request).
Proof.
  unfold SearchEventView_get.
  destruct (QueryDict_get "search" (GET request)) as [[|c q]|]; reads_view.
Qed.

Lemma read_only_Attendlist_get request : read_only (Attendlist_get request).
Proof. unfold Attendlist_get, LoginRequiredMixin. reads_view. Qed.

Lemma read_only_EditEventView_get request slug : read_only (EditEventView_get request slug).
Proof.
  unfold EditEventView_get, LoginRequiredMixin. reads_view.
  destruct (User.id _ =? Event.user _); reads_view.
Qed.

Lemma read_only_DeleteEventView_get request slug :
  read_only (DeleteEventView_get request slug).
Proof.
  unfold DeleteEventView_get, LoginRequiredMixin. reads_view.
  destruct (User.is_superuser _ || (User.id _ =? Event.user _)); reads_view.
Qed.

Lemma read_only_CategoryListView_get request : read_only (CategoryListView_get request).
Proof. unfold CategoryListView_get. reads_view. Qed.

(** Every GET handler is a computation that only reads. *)
Lemma state_after_GET {nfkd : string → string}
    (clean : QueryDict → option CommentData.t)
    (add_clean : QueryDict → QueryDict → list Model * option EventData.t)
    (edit_clean : Event.t → QueryDict → QueryDict → list Model * Validity)
    (str : Event.t → string)
    (on_delete : nat → list Comment.t → option (list Comment.t))
    (h : Handler) (request : HttpRequest) (s : State) :
  is_GET h = true →
  db (state_after clean add_clean edit_clean str on_delete nfkd h request s) = db s
  ∧ flash (state_after clean add_clean edit_clean str on_delete nfkd h request s) = flash s.
Proof.
  intros Hget. destruct h; try discriminate Hget; cbn [state_after].
  - apply read_only_render.
  - apply read_only_CategoryListView_get.
  - apply read_only_CategoryDetailView_get.
  - apply read_only_render.
  - apply read_only_EventDetailView_get.
  - apply read_only_EventTagView_get.
  - unfold ManageEventsView_get, LoginRequiredMixin. reads_view.
  - unfold PrivateEventsView_get, LoginRequiredMixin. reads_view.
  - apply read_only_PrivateEventDetailView_get.
  - unfold AddEventView_get, LoginRequiredMixin. reads_view.
  - apply read_only_EditEventView_get.
  - apply read_only_DeleteEventView_get.
  - apply read_only_SearchEventView_get.
  - apply read_only_Attendlist_get.
Qed.

(** X1: a GET handler, whatever the request and whoever sends it, leaves
    every table and the queue of flash messages as they were; only the log of
    statements grows.  This holds for all fourteen GET handlers, also when
    the handler raises. *)
Theorem get_handlers_never_write (nfkd : string → string)
    (clean : QueryDict → option CommentData.t)
    (add_clean : QueryDict → QueryDict → list Model * option EventData.t)
    (edit_clean : Event.t → QueryDict → QueryDict → list Model * Validity)
    (str : Event.t → string)
    (on_delete : nat → list Comment.t → option (list Comment.t))
    (h : Handler) (request : HttpRequest) (s : State) :
  is_GET h = true →
  db (state_after clean add_clean edit_clean str on_delete nfkd h request s) = db s
  ∧ flash (state_after clean add_clean edit_clean str on_delete nfkd h request s) = flash s.
Proof. apply state_after_GET. Qed.

Lemma get_handlers_never_write_witness :
  is_GET (DeleteEventView_GET "spring-fest") = true
  ∧ db (state_after Demo.CommentForm_clean Demo.EventForm_clean Demo.EditForm_clean
          Event.name Scenario.cascade Demo.nfkd (DeleteEventView_GET "spring-fest")
          (Demo.request (Some Demo.alice) [] []) Demo.state)
    = db Demo.state
  ∧ flash (state_after Demo.CommentForm_clean Demo.EventForm_clean Demo.EditForm_clean
             Event.name Scenario.cascade Demo.nfkd (DeleteEventView_GET "spring-fest")
             (Demo.request (Some Demo.alice) [] []) Demo.state)
    = flash Demo.state.
Proof.
  split; [reflexivity|].
  exact (get_handlers_never_write Demo.nfkd Demo.CommentForm_clean Demo.EventForm_clean
           Demo.EditForm_clean Event.name Scenario.cascade
           (DeleteEventView_GET "spring-fest") (Demo.request (Some Demo.alice) [] [])
           Demo.state eq_refl).
Defined.

(** ** Anonymous requests to protected handlers *)

(** X2: each of the eleven handlers behind [LoginRequiredMixin] or
    [login_required] answers an anonymous request with the redirect to the
    login page and leaves the state untouched: no statement is executed,
    nothing is written, no message is queued. *)
Theorem anonymous_is_sent_to_login (nfkd : string → string)
    (clean : QueryDict → option CommentData.t)
    (add_clean : QueryDict → QueryDict → list Model * option EventData.t)
    (edit_clean : Event.t → QueryDict → QueryDict → list Model * Validity)
    (str : Event.t → string)
    (on_delete : nat → list Comment.t → option (list Comment.t))
    (request : HttpRequest) (slug : string) (s : State) :
  user request = None →
  EventDetailView_post clean request slug s = (Ok (Some (Redirect LoginPage)), s)
  ∧ ManageEventsView_get request s = (Ok (Redirect LoginPage), s)
  ∧ PrivateEventsView_get request s = (Ok (Redirect LoginPage), s)
  ∧ PrivateEventDetailView_get str request slug s = (Ok (Redirect LoginPage), s)
  ∧ AddEventView_get request s = (Ok (Redirect LoginPage), s)
  ∧ AddEventView_post add_clean nfkd request s = (Ok (Redirect LoginPage), s)
  ∧ EditEventView_get request slug s = (Ok (Redirect LoginPage), s)
  ∧ EditEventView_post edit_clean nfkd request slug s = (Ok (Redirect LoginPage), s)
  ∧ DeleteEventView_get request slug s = (Ok (Redirect LoginPage), s)
  ∧ DeleteEventView_post on_delete request slug s = (Ok (Redirect LoginPage), s)
  ∧ Attendlist_get request s = (Ok (Redirect LoginPage), s).
Proof.
  intros Hanon.
  unfold EventDetailView_post, ManageEventsView_get, PrivateEventsView_get,
    PrivateEventDetailView_get, AddEventView_get, AddEventView_post, EditEventView_get,
    EditEventView_post, DeleteEventView_get, DeleteEventView_post, Attendlist_get,
    LoginRequiredMixin, login_required.
  rewrite Hanon. repeat split.
Qed.

Lemma anonymous_is_sent_to_login_witness :
  user (Demo.request None [] Demo.attend) = None
  ∧ EventDetailView_post Demo.CommentForm_clean (Demo.request None [] Demo.attend)
      "spring-fest" Demo.state
    = (Ok (Some (Redirect LoginPage)), Demo.state)
  ∧ DeleteEventView_post Scenario.cascade (Demo.request None [] Demo.attend)
      "spring-fest" Demo.state
    = (Ok (Redirect LoginPage), Demo.state).
Proof.
  pose proof (anonymous_is_sent_to_login Demo.nfkd Demo.CommentForm_clean Demo.EventForm_clean
                Demo.EditForm_clean Event.name Scenario.cascade
                (Demo.request None [] Demo.attend) "spring-fest" Demo.state eq_refl) as H.
  split; [reflexivity|]. split; [exact (proj1 H)|].
  exact (proj1 (proj2 (proj2 (proj2 (proj2 (proj2 (proj2 (proj2 (proj2 (proj2 H)))))))))).
Defined.

(** ** Slugs that resolve to nothing *)

Lemma no_rows_for_slug (p : Event.t → bool) slug t :
  (∀ e, e ∈ events t → Event.slug e ≠ slug) →
  qs_rows (qs_filter (λ e, String.eqb (Event.slug e) slug && p e) Event_objects) t = [].
Proof.
  intros H.
  rewrite (qs_rows_plain _ _ (λ e, String.eqb (Event.slug e) slug && p e));
    [|reflexivity|reflexivity|intros e; reflexivity].
  apply filter_none. intros e He.
  destruct (String.eqb (Event.slug e) slug) eqn:Hs; [|reflexivity].
  apply String.eqb_eq in Hs. destruct (H e He Hs).
Qed.




(** ** The two visibility policies keep apart *)

Lemma same_slug_same_row l (E r : Event.t) :
  unique_slugs l → E ∈ l → r ∈ l → Event.slug r = Event.slug E → r = E.
Proof.
  unfold unique_slugs. intros Hnd HE Hr Hs.
  induction l as [|x l IH]; [inversion HE|].
  rewrite fmap_cons in Hnd. apply NoDup_cons in Hnd as [Hn Hnd].
  apply elem_of_cons in HE as [->|HE], Hr as [->|Hr].
  - reflexivity.
  - exfalso. apply Hn. rewrite <- Hs. apply list_elem_of_fmap_2, Hr.
  - exfalso. apply Hn. rewrite Hs. apply list_elem_of_fmap_2, HE.
  - apply IH; assumption.
Qed.




(** ** What the private detail view shows *)

(** X5: whatever the tables hold, a page rendered by the private detail view
    shows a private event of the table that belongs to the signed-in
    requester, and every related event on it is a public event of the same
    requester. *)
Theorem private_detail_shows_own_events (str : Event.t → string)
    (request : HttpRequest) (slug template_name : string)
    (ctx : list (string * Value)) (s s' : State) :
  PrivateEventDetailView_get str request slug s = (Ok (Render template_name ctx), s') →
  ∃ u event related,
    user request = Some u
    ∧ lookup_ctx "event" ctx = Some (VEvent event)
    ∧ event ∈ events (db s)
    ∧ Event.make_private event = true
    ∧ Event.user event = User.id u
    ∧ lookup_ctx "related_events" ctx = Some (VEvents related)
    ∧ ∀ e, e ∈ related →
           e ∈ events (db s) ∧ Event.user e = User.id u ∧ Event.make_private e = false.
Proof.
  intros H.
  unfold PrivateEventDetailView_get, LoginRequiredMixin, login_required in H.
  destruct (user request) as [u|]; [|discriminate H].
  unfold get_private_event, mbind, M_bind in H.
  rewrite get_object_or_404_run in H.
  destruct (qs_rows _ (db s)) as [|found [|? ?]]; try discriminate H.
  destruct (User.id u =? Event.user found); [|discriminate H].
  rewrite qs_get_run in H. cbn [db] in H.
  destruct (qs_rows _ (db s)) as [|event [|? ?]] eqn:Hrows; try discriminate H.
  unfold render, force_all, force, mbind, M_bind, execute, get_tables, mret, M_ret in H.
  cbn in H. injection H as <- <- <-.
  assert (Hev : event ∈ qs_rows
                  (qs_filter (λ e, (Event.user e =? User.id u)
                                   && String.eqb (Event.name e) (str found))
                             Event_private) (db s)) by (rewrite Hrows; left).
  apply qs_rows_elem in Hev as [Hin Hm]. cbn in Hm.
  destruct (Event.user event =? User.id u) eqn:Ho; cbn in Hm; [|lia].
  destruct (String.eqb (Event.name event) (str found)); cbn in Hm; [|lia].
  destruct (Event.make_private event) eqn:Hp; [|lia].
  apply Nat.eqb_eq in Ho.
  eexists u, event, _. split; [reflexivity|]. split; [reflexivity|].
  split; [exact Hin|]. split; [exact Hp|]. split; [exact Ho|].
  split; [reflexivity|].
  intros e He. apply qs_rows_elem in He as [He Hm']. cbn in Hm'.
  destruct (Event.id e =? Event.id event); cbn in Hm'; [lia|].
  destruct (Event.user e =? User.id u) eqn:Hoe; cbn in Hm'; [|lia].
  destruct (Event.make_private e); cbn in Hm'; [lia|].
  apply Nat.eqb_eq in Hoe. auto.
Qed.

Lemma private_detail_shows_own_events_witness :
  PrivateEventDetailView_get Event.name (Demo.request (Some Demo.alice) [] [])
    "secret-gig" Demo.state
  = (Ok (Render "private_event_detail.html" Scenario.private_context),
     Scenario.after_private)
  ∧ ∃ u event related,
      user (Demo.request (Some Demo.alice) [] []) = Some u
      ∧ lookup_ctx "event" Scenario.private_context = Some (VEvent event)
      ∧ event ∈ events (db Demo.state)
      ∧ Event.make_private event = true
      ∧ Event.user event = User.id u
      ∧ lookup_ctx "related_events" Scenario.private_context = Some (VEvents related)
      ∧ ∀ e, e ∈ related →
             e ∈ events (db Demo.state) ∧ Event.user e = User.id u
             ∧ Event.make_private e = false.
Proof.
  assert (H : PrivateEventDetailView_get Event.name (Demo.request (Some Demo.alice) [] [])
                "secret-gig" Demo.state
              = (Ok (Render "private_event_detail.html" Scenario.private_context),
                 Scenario.after_private)) by (vm_compute; reflexivity).
  split; [exact H|].
  exact (private_detail_shows_own_events Event.name (Demo.request (Some Demo.alice) [] [])
           "secret-gig" "private_event_detail.html" Scenario.private_context
           Demo.state Scenario.after_private H).
Defined.

(** ** The listings *)

(** X6: the event list shows the public rows of the event table, in table
    order and each once, to every caller, signed in or not; the
    private-events list shows a signed-in user the private rows that user
    owns.  So no private event is on the event list and nobody else's event
    is on the private list. *)
Theorem listings_follow_the_flag (request : HttpRequest) (s : State) :
  let shown := base.filter (λ e, negb (Event.make_private e) = true) (events (db s)) in
  fst (EventsListView_get request s) = Ok (Render "homepage.html" [("events", VEvents shown)])
  ∧ (∀ e, e ∈ shown ↔ e ∈ events (db s) ∧ Event.make_private e = false)
  ∧ ∀ u, user request = Some u →
      let mine :=
        base.filter (λ e, ((Event.user e =? User.id u) && Event.make_private e) = true)
                    (events (db s)) in
      fst (PrivateEventsView_get request s)
      = Ok (Render "private_events.html" [("my_events", VEvents mine)])
      ∧ (∀ e, e ∈ mine ↔
              e ∈ events (db s) ∧ Event.make_private e = true ∧ Event.user e = User.id u).
Proof.
  intros shown. split; [|split].
  - unfold EventsListView_get, render, force_all, force. run.
    rewrite (qs_rows_plain _ _ (λ e, negb (Event.make_private e)));
      [reflexivity..|]. intros e. reflexivity.
  - intros e. unfold shown. rewrite list_elem_of_filter, negb_true_iff. tauto.
  - intros u Hu mine. split.
    + unfold PrivateEventsView_get, LoginRequiredMixin, login_required. rewrite Hu.
      unfold render, force_all, force. run.
      rewrite (qs_rows_plain _ _ (λ e, (Event.user e =? User.id u) && Event.make_private e));
        [reflexivity..|]. intros e. cbn.
      destruct (Event.user e =? User.id u), (Event.make_private e); reflexivity.
    + intros e. unfold mine.
      rewrite list_elem_of_filter, andb_true_iff, Nat.eqb_eq. tauto.
Qed.

Lemma listings_follow_the_flag_witness :
  fst (EventsListView_get (Demo.request None [] []) Demo.state)
  = Ok (Render "homepage.html" [("events", VEvents [Demo.spring_fest; Demo.jazz_night])])
  ∧ fst (EventsListView_get (Demo.request (Some Demo.alice) [] []) Demo.state)
    = Ok (Render "homepage.html" [("events", VEvents [Demo.spring_fest; Demo.jazz_night])])
  ∧ fst (PrivateEventsView_get (Demo.request (Some Demo.alice) [] []) Demo.state)
    = Ok (Render "private_events.html" [("my_events", VEvents [Demo.secret_gig])]).
Proof.
  pose proof (listings_follow_the_flag (Demo.request None [] []) Demo.state) as (H0 & _).
  pose proof (listings_follow_the_flag (Demo.request (Some Demo.alice) [] []) Demo.state)
    as (H1 & _ & H2).
  destruct (H2 Demo.alice eq_refl) as (H3 & _).
  split; [exact H0|]. split; [exact H1|exact H3].
Defined.

(** ** Categories *)

Lemma Category_get_run slug s :
  Category_get slug s =
  (match base.filter (λ c, String.eqb (Category.slug c) slug = true) (categories (db s)) with
   | [] => Raise (DoesNotExist CategoryModel)
   | [c] => Ok c
   | _ => Raise (MultipleObjectsReturned CategoryModel)
   end,
   mkState (db s) (queries s ++ [SELECT CategoryModel]) (flash s)).
Proof.
  unfold Category_get, the_one. run.
  destruct (base.filter _ (categories (db s))) as [|a [|b r]]; reflexivity.
Qed.

(** The rows of the category detail: the events of the category that are
    public or belong to the requester. *)
Lemma category_rows request (c : Category.t) t :
  qs_rows
    (if is_authenticated request then
       qs_or (qs_filter (of_category c) Event_public)
             (qs_filter (λ e, user_is request (Event.user e))
                        (qs_filter (of_category c) Event_private))
     else qs_filter (of_category c) Event_public) t
  = base.filter
      (λ e, (of_category c e
             && (negb (Event.make_private e) || user_is request (Event.user e))) = true)
      (events t).
Proof.
  unfold is_authenticated, user_is.
  destruct (user request) as [u|]; apply qs_rows_plain; try reflexivity; intros e; cbn.
  - destruct (of_category c e), (Event.make_private e), (User.id u =? Event.user e);
      reflexivity.
  - destruct (of_category c e), (Event.make_private e); reflexivity.
Qed.

(** X7: a page rendered by the category detail view shows a category of the
    table with the requested slug and lists the events of that category that
    are public or are private events of the signed-in requester, in table
    order; an anonymous caller gets the public ones only, and a private event
    of somebody else is never listed. *)
Theorem category_detail_lists_visible_events
    (request : HttpRequest) (slug template_name : string)
    (ctx : list (string * Value)) (s s' : State) :
  CategoryDetailView_get request slug s = (Ok (Render template_name ctx), s') →
  ∃ c listed,
    lookup_ctx "category" ctx = Some (VCategory c)
    ∧ c ∈ categories (db s)
    ∧ Category.slug c = slug
    ∧ lookup_ctx "queryset" ctx = Some (VEvents listed)
    ∧ ∀ e, e ∈ listed ↔
           e ∈ events (db s)
           ∧ Event.category e = Some (Category.id c)
           ∧ (Event.make_private e = false
              ∨ ∃ u, user request = Some u ∧ Event.user e = User.id u).
Proof.
  intros H. unfold CategoryDetailView_get in H.
  unfold mbind at 1, M_bind at 1 in H. rewrite Category_get_run in H.
  destruct (base.filter _ (categories (db s))) as [|c [|? ?]] eqn:Hc; try discriminate H.
  assert (Hin : c ∈ base.filter (λ c, String.eqb (Category.slug c) slug = true)
                                (categories (db s))) by (rewrite Hc; left).
  apply list_elem_of_filter in Hin as [Hslug Hin]. apply String.eqb_eq in Hslug.
  unfold render, force_all, force, mbind, M_bind, execute, get_tables, mret, M_ret in H.
  cbn in H. rewrite category_rows in H.
  injection H as <- <- <-.
  eexists c, _. split; [reflexivity|]. split; [exact Hin|]. split; [exact Hslug|].
  split; [reflexivity|].
  intros e. rewrite list_elem_of_filter, andb_true_iff, orb_true_iff, negb_true_iff.
  unfold of_category, user_is. rewrite bool_decide_eq_true.
  destruct (user request) as [u|].
  - rewrite Nat.eqb_eq. split.
    + intros [[Hcat [Hp|Ho]] He]; (split; [exact He|split; [exact Hcat|]]);
        [left; exact Hp|right; exists u; auto].
    + intros (He & Hcat & [Hp|(u' & [= <-] & Ho)]); (split; [split; [exact Hcat|]|exact He]);
        [left; exact Hp|right; auto].
  - split.
    + intros [[Hcat [Hp|Ho]] He]; [|discriminate Ho]. auto.
    + intros (He & Hcat & [Hp|(u' & Hu & _)]); [|discriminate Hu]. auto.
Qed.

Lemma category_detail_lists_visible_events_witness :
  CategoryDetailView_get (Demo.request (Some Demo.bob) [] []) "music" Demo.state
  = (Ok (Render "category.html" Scenario.category_context), Scenario.after_category)
  ∧ ∃ c listed,
      lookup_ctx "category" Scenario.category_context = Some (VCategory c)
      ∧ c ∈ categories (db Demo.state)
      ∧ Category.slug c = "music"
      ∧ lookup_ctx "queryset" Scenario.category_context = Some (VEvents listed)
      ∧ ∀ e, e ∈ listed ↔
             e ∈ events (db Demo.state)
             ∧ Event.category e = Some (Category.id c)
             ∧ (Event.make_private e = false
                ∨ ∃ u, user (Demo.request (Some Demo.bob) [] []) = Some u
                       ∧ Event.user e = User.id u).
Proof.
  assert (H : CategoryDetailView_get (Demo.request (Some Demo.bob) [] []) "music" Demo.state
              = (Ok (Render "category.html" Scenario.category_context),
                 Scenario.after_category)) by (vm_compute; reflexivity).
  split; [exact H|].
  exact (category_detail_lists_visible_events (Demo.request (Some Demo.bob) [] []) "music"
           "category.html" Scenario.category_context Demo.state Scenario.after_category H).
Defined.

Lemma force_pairs_run (q : Category.t → QuerySet) (l : list Category.t) s :
  force_pairs (map (λ c, (c, q c)) l) s
  = (Ok (map (λ c, (c, qs_rows (q c) (db s))) l),
     mkState (db s) (queries s ++ replicate (List.length l) (SELECT EventModel)) (flash s)).
Proof.
  revert s. induction l as [|c l IH]; intros s.
  - cbn. rewrite app_nil_r. destruct s; reflexivity.
  - cbn [map force_pairs]. unfold mbind at 1 2, M_bind at 1 2, execute, get_tables. cbn.
    unfold mbind, M_bind. rewrite IH. cbn. rewrite <- app_assoc. reflexivity.
Qed.

(** X8: the category list pairs every category of the table, in table order,
    with the public events of that category, so that no private event is on
    the page and an event without a category is under none; it costs one
    statement for the categories and one more for every category. *)
Theorem category_list_pairs_public_events (request : HttpRequest) (s : State) :
  let pairs :=
    map (λ c, (c, base.filter (λ e, (of_category c e && negb (Event.make_private e)) = true)
                              (events (db s))))
        (categories (db s)) in
  fst (CategoryListView_get request s)
  = Ok (mkCategoryListPage "categories.html" (categories (db s)) pairs)
  ∧ queries (snd (CategoryListView_get request s))
    = queries s ++ SELECT CategoryModel
                   :: replicate (List.length (categories (db s))) (SELECT EventModel)
  ∧ ∀ c l e, (c, l) ∈ pairs → e ∈ l →
             e ∈ events (db s) ∧ Event.make_private e = false
             ∧ Event.category e = Some (Category.id c).
Proof.
  intros pairs.
  assert (Hrun : CategoryListView_get request s
                 = (Ok (mkCategoryListPage "categories.html" (categories (db s)) pairs),
                    mkState (db s)
                      (queries s ++ SELECT CategoryModel
                                    :: replicate (List.length (categories (db s)))
                                                 (SELECT EventModel))
                      (flash s))).
  { unfold CategoryListView_get. unfold mbind at 1 2, M_bind at 1 2, execute, get_tables.
    cbn. unfold mbind, M_bind.
    rewrite (force_pairs_run (λ c, qs_filter (of_category c) Event_public)). cbn.
    rewrite <- app_assoc. cbn.
    assert (Hp : map (λ c, (c, qs_rows (qs_filter (of_category c) Event_public) (db s)))
                     (categories (db s))
                 = pairs).
    { unfold pairs. apply map_ext. intros c. f_equal.
      apply qs_rows_plain; [reflexivity..|]. intros e. cbn.
      destruct (of_category c e), (Event.make_private e); reflexivity. }
    rewrite Hp. reflexivity. }
  rewrite Hrun. split; [reflexivity|]. split; [reflexivity|].
  intros c l e Hpair He. unfold pairs in Hpair.
  apply list_elem_of_In, in_map_iff in Hpair as (c' & [= <- <-] & _).
  apply list_elem_of_filter in He as [Hm He]. apply andb_true_iff in Hm as [Hc Hp].
  apply negb_true_iff in Hp. unfold of_category in Hc. apply bool_decide_eq_true in Hc.
  auto.
Qed.

(** ** Tag browsing *)







(** ** Comments *)

(** X10: a valid comment posted to the detail endpoint of a public event is
    stored once, at the end of the comment table, bound to the event that the
    slug of the URL resolves and carrying the name and text of the sanitized
    form data; the handler fetches the event twice, touches no other table and
    redirects to the event. *)
Theorem comment_goes_to_the_event_of_the_url
    (clean : QueryDict → option CommentData.t)
    (request : HttpRequest) (u : User.t) (E : Event.t) (d : CommentData.t) (s : State) :
  user request = Some u →
  unique_slugs (events (db s)) →
  E ∈ events (db s) →
  Event.make_private E = false →
  QueryDict_get (Text.str (Event.id E)) (POST request) ≠ Some "Add to attend-list" →
  QueryDict_get (Text.str (Event.id E)) (POST request) ≠ Some "Remove from attend-list" →
  clean (POST request) = Some d →
  EventDetailView_post clean request (Event.slug E) s
  = (Ok (Some (Redirect (AbsoluteUrl E))),
     mkState (with_comments
                (comments (db s)
                 ++ [Comment.mk (CommentData.username d) (CommentData.comment d) (Event.id E)])
                (db s))
             (queries s ++ [SELECT EventModel; SELECT EventModel; INSERT CommentModel])
             (flash s)).
Proof.
  intros Hu Hsl HE Hp Hadd Hrem Hc.
  unfold EventDetailView_post, login_required. rewrite Hu.
  unfold mbind at 1, M_bind at 1. rewrite (get_event_found s E Hsl HE Hp).
  rewrite !bool_decide_eq_false_2 by assumption. rewrite Hc.
  unfold mbind at 1, M_bind at 1.
  rewrite (get_event_found (mkState (db s) _ _) E Hsl HE Hp).
  unfold Comment_save. run. rewrite <- !app_assoc. reflexivity.
Qed.

Lemma comment_goes_to_the_event_of_the_url_witness :
  let request :=
    Demo.request (Some Demo.bob) []
      [("username", "bob"); ("comment", "nice"); ("event", "3")] in
  (unique_slugs (events (db Demo.state))
   ∧ Demo.spring_fest ∈ events (db Demo.state)
   ∧ Demo.CommentForm_clean (POST request) = Some (CommentData.mk "bob" "nice"))
  ∧ EventDetailView_post Demo.CommentForm_clean request "spring-fest" Demo.state
    = (Ok (Some (Redirect (AbsoluteUrl Demo.spring_fest))),
       mkState (with_comments [Comment.mk "bob" "nice" 1] Demo.tables)
               [SELECT EventModel; SELECT EventModel; INSERT CommentModel] []).
Proof.
  intros request.
  assert (HE : Demo.spring_fest ∈ events (db Demo.state)) by left.
  assert (Hc : Demo.CommentForm_clean (POST request) = Some (CommentData.mk "bob" "nice"))
    by reflexivity.
  split; [split; [exact demo_unique_slugs|split; [exact HE|exact Hc]]|].
  refine (comment_goes_to_the_event_of_the_url Demo.CommentForm_clean request Demo.bob
            Demo.spring_fest (CommentData.mk "bob" "nice") Demo.state eq_refl
            demo_unique_slugs HE eq_refl _ _ Hc); vm_compute; discriminate.
Defined.

(** ** Attendance and the attend list *)

Lemma Attendlist_get_run request u s :
  user request = Some u →
  Attendlist_get request s
  = (Ok (Render "attend_list.html"
           [("events",
             VEvents (base.filter
                        (λ e, (negb (Event.make_private e)
                               && bool_decide (User.id u ∈ Event.users_attending e)) = true)
                        (events (db s))))]),
     mkState (db s) (queries s ++ [SELECT EventModel]) (flash s)).
Proof.
  intros Hu. unfold Attendlist_get, LoginRequiredMixin, login_required. rewrite Hu.
  unfold render, force_all, force. run.
  rewrite (qs_rows_plain _ _
             (λ e, negb (Event.make_private e)
                   && bool_decide (User.id u ∈ Event.users_attending e)));
    [reflexivity..|].
  intros e. cbn. unfold users_attending_is.
  destruct (Event.make_private e); cbn; [reflexivity|]. case_bool_decide; reflexivity.
Qed.

(** X11: after the add action of a signed-in user on a public event, that
    user's attend list shows the event; after the remove action it shows no
    event with that primary key.  Either action leaves every row with another
    primary key, and the category, tag and comment tables, as they were. *)
Theorem attend_list_follows_the_actions
    (clean : QueryDict → option CommentData.t)
    (add remove list : HttpRequest) (u : User.t) (E : Event.t) (s : State) :
  unique_slugs (events (db s)) →
  E ∈ events (db s) →
  Event.make_private E = false →
  user add = Some u → user remove = Some u → user list = Some u →
  QueryDict_get (Text.str (Event.id E)) (POST add) = Some "Add to attend-list" →
  QueryDict_get (Text.str (Event.id E)) (POST remove) = Some "Remove from attend-list" →
  let added := snd (EventDetailView_post clean add (Event.slug E) s) in
  let removed := snd (EventDetailView_post clean remove (Event.slug E) s) in
  (∃ shown, fst (Attendlist_get list added)
            = Ok (Render "attend_list.html" [("events", VEvents shown)])
            ∧ set_users_attending ({[User.id u]} ∪ Event.users_attending E) E ∈ shown)
  ∧ (∃ shown, fst (Attendlist_get list removed)
              = Ok (Render "attend_list.html" [("events", VEvents shown)])
              ∧ ∀ e, e ∈ shown → Event.id e ≠ Event.id E)
  ∧ (∀ s', s' = added ∨ s' = removed →
           categories (db s') = categories (db s)
           ∧ tag_rows (db s') = tag_rows (db s)
           ∧ comments (db s') = comments (db s)
           ∧ ∀ r, r ∈ events (db s) → Event.id r ≠ Event.id E → r ∈ events (db s')).
Proof.
  intros Hsl HE Hp Hua Hur Hul Hadd Hrem added removed.
  assert (Ha : db added
               = alter_event (Event.id E)
                   (λ r, set_users_attending ({[User.id u]} ∪ Event.users_attending r) r)
                   (db s)).
  { unfold added. rewrite (EventDetailView_post_add clean add u E s); auto. }
  assert (Hr : db removed
               = alter_event (Event.id E)
                   (λ r, set_users_attending (Event.users_attending r ∖ {[User.id u]}) r)
                   (db s)).
  { unfold removed. rewrite (EventDetailView_post_remove clean remove u E s); auto. }
  assert (Hother : ∀ f r, r ∈ events (db s) → Event.id r ≠ Event.id E →
                          r ∈ events (alter_event (Event.id E) f (db s))).
  { intros f r Hin Hne. rewrite alter_event_events. apply list_elem_of_In, in_map_iff.
    exists r. split; [|apply list_elem_of_In, Hin].
    apply Nat.eqb_neq in Hne. rewrite Hne. reflexivity. }
  split; [|split].
  - eexists. rewrite (Attendlist_get_run list u added Hul). split; [reflexivity|].
    apply list_elem_of_filter. split.
    + cbn. rewrite Hp. cbn. apply bool_decide_eq_true.
      apply elem_of_union_l, elem_of_singleton. reflexivity.
    + rewrite Ha.
      exact (alter_event_elem
               (λ r, set_users_attending ({[User.id u]} ∪ Event.users_attending r) r)
               (db s) E HE).
  - eexists. rewrite (Attendlist_get_run list u removed Hul). split; [reflexivity|].
    intros e He Hid. apply list_elem_of_filter in He as [Hm He].
    apply andb_true_iff in Hm as [_ Hm]. apply bool_decide_eq_true in Hm.
    rewrite Hr, alter_event_events in He.
    apply list_elem_of_In, in_map_iff in He as (r & Hre & _).
    destruct (Event.id r =? Event.id E) eqn:Hrid.
    + subst e. cbn in Hm. apply elem_of_difference in Hm as [_ Hm].
      apply Hm, elem_of_singleton. reflexivity.
    + subst e. apply Nat.eqb_neq in Hrid. exact (Hrid Hid).
  - intros s' [-> | ->]; [rewrite Ha|rewrite Hr];
      (split; [reflexivity|]; split; [reflexivity|]; split; [reflexivity|]);
      apply Hother.
Qed.

Lemma attend_list_follows_the_actions_witness :
  let add := Demo.request (Some Demo.alice) [] Demo.attend in
  let added := snd (EventDetailView_post Demo.CommentForm_clean add "spring-fest" Demo.state) in
  (unique_slugs (events (db Demo.state)) ∧ Demo.spring_fest ∈ events (db Demo.state))
  ∧ ∃ shown,
      fst (Attendlist_get (Demo.request (Some Demo.alice) [] []) added)
      = Ok (Render "attend_list.html" [("events", VEvents shown)])
      ∧ set_users_attending ({[1]} ∪ Event.users_attending Demo.spring_fest) Demo.spring_fest
        ∈ shown.
Proof.
  intros add added.
  assert (HE : Demo.spring_fest ∈ events (db Demo.state)) by left.
  split; [split; [exact demo_unique_slugs|exact HE]|].
  exact (proj1 (attend_list_follows_the_actions Demo.CommentForm_clean add
                  (Demo.request (Some Demo.alice) [] Demo.leave)
                  (Demo.request (Some Demo.alice) [] []) Demo.alice Demo.spring_fest
                  Demo.state demo_unique_slugs HE eq_refl eq_refl eq_refl eq_refl
                  eq_refl eq_refl)).
Defined.

(** ** Creating an event and looking at it *)

(** The owner's request for a private event under the invariant. *)
Lemma PrivateEventDetailView_get_owner {nfkd : string → string} (str : Event.t → string) request u E s :
  str E = Event.name E →
  unique_slugs (events (db s)) → slugs_derived nfkd (events (db s)) →
  E ∈ events (db s) → Event.make_private E = true →
  user request = Some u → User.id u = Event.user E →
  ∃ ctx,
    fst (PrivateEventDetailView_get str request (Event.slug E) s)
    = Ok (Render "private_event_detail.html" ctx)
    ∧ lookup_ctx "event" ctx = Some (VEvent E).
Proof.
  intros Hstr Hu Hd HE Hp Hreq Ho.
  unfold PrivateEventDetailView_get, LoginRequiredMixin, login_required.
  rewrite Hreq. unfold mbind at 1, M_bind at 1.
  rewrite (get_private_event_found s E Hu HE Hp).
  rewrite Ho, Nat.eqb_refl. unfold mbind at 1, M_bind at 1.
  rewrite qs_get_run. cbn [db]. rewrite <- Ho.
  rewrite (private_refetch_rows str u (db s) E Hstr Hu Hd HE Hp Ho).
  unfold render, force_all, force. run. eexists. split; reflexivity.
Qed.

(** X12: a valid create submission whose slug is free stores an event that
    belongs to the submitter, has a primary key that no row has and that the
    table has not issued before, no attendees, and the tags and the private
    flag of the form; one success message is queued.  On tables that satisfy
    the invariant the new event is at once on view under its slug: on the public detail page when it is
    public, on its owner's private detail page when it is private. *)
Theorem created_event_is_on_view (nfkd : string → string)
    (add_clean : QueryDict → QueryDict → list Model * option EventData.t) (str : Event.t → string)
    (request view : HttpRequest) (u : User.t) (d : EventData.t) (s : State) :
  tables_ok nfkd (events (db s)) →
  (∀ e, str e = Event.name e) →
  user request = Some u →
  user view = Some u →
  snd (add_clean (POST request) (FILES request)) = Some d →
  slug_in_use (slugify nfkd (EventData.name d)) None (events (db s)) = false →
  let s' := snd (AddEventView_post add_clean nfkd request s) in
  ∃ e ctx,
    fst (AddEventView_post add_clean nfkd request s) = Ok (Redirect (AbsoluteUrl e))
    ∧ Event.user e = User.id u
    ∧ Event.users_attending e = ∅
    ∧ Event.tags e = EventData.tags d
    ∧ Event.make_private e = EventData.make_private d
    ∧ (∀ r, r ∈ events (db s) → Event.id r ≠ Event.id e)
    ∧ event_seq (db s) < Event.id e
    ∧ event_seq (db s') = Event.id e
    ∧ flash s' = flash s ++ [(SUCCESS, "Evnt posted successfully.")]
    ∧ (if EventData.make_private d
       then fst (PrivateEventDetailView_get str view (slugify nfkd (EventData.name d)) s')
            = Ok (Render "private_event_detail.html" ctx)
       else fst (EventDetailView_get view (slugify nfkd (EventData.name d)) s')
            = Ok (Render "event_detail.html" ctx))
    ∧ lookup_ctx "event" ctx = Some (VEvent e).
Proof.
  intros Hok Hstr Hu Hv Hd Hfree s'. unfold s'.
  rewrite (AddEventView_post_valid add_clean request u d s Hu Hd), Hfree. cbn [fst snd].
  set (e := set_tags (EventData.tags d)
              (set_id (fresh_id (db s))
                 (set_slug (slugify nfkd (EventData.name d))
                    (set_user (User.id u) (set_fields d blank))))).
  set (s1 := mkState (insert_event e (db s)) _ _).
  assert (Hok' : tables_ok nfkd (events (db s1))).
  { apply tables_ok_insert; [exact Hok|reflexivity|exact Hfree|reflexivity]. }
  destruct Hok' as (_ & Hsl & Hder).
  assert (He : e ∈ events (db s1)).
  { cbn. apply elem_of_app. right. left. }
  assert (Hview : ∃ ctx,
             (if EventData.make_private d
              then fst (PrivateEventDetailView_get str view (Event.slug e) s1)
                   = Ok (Render "private_event_detail.html" ctx)
              else fst (EventDetailView_get view (Event.slug e) s1)
                   = Ok (Render "event_detail.html" ctx))
             ∧ lookup_ctx "event" ctx = Some (VEvent e)).
  { destruct (EventData.make_private d) eqn:Hp.
    - apply (PrivateEventDetailView_get_owner str view u e s1 (Hstr e) Hsl Hder He);
        [exact Hp|exact Hv|reflexivity].
    - apply (EventDetailView_get_found view e s1 Hsl He). exact Hp. }
  destruct Hview as (ctx & Hrender & Hctx).
  exists e, ctx. split; [reflexivity|]. split; [reflexivity|]. split; [reflexivity|].
  split; [reflexivity|]. split; [reflexivity|].
  split; [intros r Hr; apply fresh_id_gt in Hr; cbn; lia|].
  split; [cbn; unfold fresh_id; lia|]. split; [reflexivity|].
  split; [reflexivity|]. split; [exact Hrender|exact Hctx].
Qed.

Lemma tables_ok_nil {nfkd : string → string} : tables_ok nfkd [].
Proof.
  split; [|split]; [constructor|constructor|]. intros e He. inversion He.
Qed.

Lemma created_event_is_on_view_witness :
  let request := Demo.request (Some Demo.alice) [] [("name", "Spring Fest")] in
  let view := Demo.request (Some Demo.alice) [] [] in
  let s' := snd (AddEventView_post Demo.EventForm_clean Demo.nfkd request Demo.empty) in
  (tables_ok Demo.nfkd (events (db Demo.empty))
   ∧ snd (Demo.EventForm_clean (POST request) (FILES request)) = Some Demo.posted
   ∧ slug_in_use (slugify Demo.nfkd (EventData.name Demo.posted)) None (events (db Demo.empty))
     = false)
  ∧ ∃ e ctx,
      fst (AddEventView_post Demo.EventForm_clean Demo.nfkd request Demo.empty)
      = Ok (Redirect (AbsoluteUrl e))
      ∧ Event.user e = 1
      ∧ Event.users_attending e = ∅
      ∧ Event.tags e = []
      ∧ Event.make_private e = false
      ∧ (∀ r, r ∈ events (db Demo.empty) → Event.id r ≠ Event.id e)
      ∧ event_seq (db Demo.empty) < Event.id e
      ∧ event_seq (db s') = Event.id e
      ∧ flash s' = [(SUCCESS, "Evnt posted successfully.")]
      ∧ fst (EventDetailView_get view "spring-fest" s') = Ok (Render "event_detail.html" ctx)
      ∧ lookup_ctx "event" ctx = Some (VEvent e).
Proof.
  intros request view s'.
  split; [split; [exact tables_ok_nil|split; reflexivity]|].
  exact (created_event_is_on_view Demo.nfkd Demo.EventForm_clean Event.name request view Demo.alice
           Demo.posted Demo.empty tables_ok_nil (λ e, eq_refl) eq_refl eq_refl eq_refl
           eq_refl).
Defined.

(** ** Forms that do not validate *)

(** X13: an invalid create form stores nothing: after the queries of its
    validation, none of which writes, the form is rendered again with the
    submitted data and one error message is queued.  An invalid edit form
    submitted by the owner stores nothing either, after the lookup of the
    event and the queries of the validation: every table is as before, so the
    event keeps its row, one error message is queued, and the page is
    rendered again with the instance as the validation left it, which need
    not be the stored row. *)
Theorem invalid_forms_write_nothing (nfkd : string → string)
    (add_clean : QueryDict → QueryDict → list Model * option EventData.t)
    (edit_clean : Event.t → QueryDict → QueryDict → list Model * Validity)
    (request : HttpRequest) (u : User.t) (E touched : Event.t) (s : State) :
  user request = Some u →
  (snd (add_clean (POST request) (FILES request)) = None →
   AddEventView_post add_clean nfkd request s
   = (Ok (Render "add_event.html" [("form", VForm (mkForm None (Some (POST request))))]),
      mkState (db s)
              (queries s ++ (SELECT <$> fst (add_clean (POST request) (FILES request))))
              (flash s ++ [(ERROR, "Your evnt was not posted. Try again.")])))
  ∧ (unique_slugs (events (db s)) → E ∈ events (db s) → User.id u = Event.user E →
     snd (edit_clean E (POST request) (FILES request)) = Invalid touched →
     EditEventView_post edit_clean nfkd request (Event.slug E) s
     = (Ok (Render "edit_event.html"
              [("form", VForm (mkForm (Some touched) (Some (POST request))));
               ("event", VEvent touched)]),
        mkState (db s)
                (queries s ++ [SELECT EventModel]
                 ++ (SELECT <$> fst (edit_clean E (POST request) (FILES request))))
                (flash s ++ [(ERROR, "Error while updating evnt.")]))).
Proof.
  intros Hu. split.
  - intros Hc. unfold AddEventView_post, LoginRequiredMixin, login_required.
    rewrite Hu. unfold mbind at 1, M_bind at 1. rewrite is_valid_run, Hc. reflexivity.
  - intros Hsl HE Ho Hc.
    rewrite (EditEventView_post_owner edit_clean request u E s Hu Hsl HE Ho), Hc.
    reflexivity.
Qed.

Lemma invalid_forms_write_nothing_witness :
  let create := Demo.request (Some Demo.alice) [] [("name", "")] in
  let rename := Demo.request (Some Demo.alice) [] [("name", "Secret Show")] in
  let touched := Demo.set_name "Secret Show" Demo.secret_gig in
  (snd (Demo.EventForm_clean (POST create) (FILES create)) = None
   ∧ unique_slugs (events (db Demo.state))
   ∧ Demo.secret_gig ∈ events (db Demo.state)
   ∧ snd (Demo.EditForm_clean Demo.secret_gig (POST rename) (FILES rename)) = Invalid touched)
  ∧ AddEventView_post Demo.EventForm_clean Demo.nfkd create Demo.state
    = (Ok (Render "add_event.html" [("form", VForm (mkForm None (Some [("name", "")])))]),
       mkState Demo.tables [SELECT CategoryModel]
               [(ERROR, "Your evnt was not posted. Try again.")])
  ∧ EditEventView_post Demo.EditForm_clean Demo.nfkd rename "secret-gig" Demo.state
    = (Ok (Render "edit_event.html"
             [("form", VForm (mkForm (Some touched) (Some [("name", "Secret Show")])));
              ("event", VEvent touched)]),
       mkState Demo.tables [SELECT EventModel; SELECT CategoryModel]
               [(ERROR, "Error while updating evnt.")]).
Proof.
  intros create rename touched.
  assert (HE : Demo.secret_gig ∈ events (db Demo.state)) by (right; left).
  pose proof (invalid_forms_write_nothing Demo.nfkd Demo.EventForm_clean Demo.EditForm_clean
                create Demo.alice Demo.secret_gig touched Demo.state eq_refl) as [H1 _].
  pose proof (invalid_forms_write_nothing Demo.nfkd Demo.EventForm_clean Demo.EditForm_clean
                rename Demo.alice Demo.secret_gig touched Demo.state eq_refl) as [_ H2].
  split; [split; [reflexivity|split; [exact demo_unique_slugs|split; [exact HE|reflexivity]]]|].
  split; [exact (H1 eq_refl)|exact (H2 demo_unique_slugs HE eq_refl eq_refl)].
Defined.

(** ** Who may edit and delete *)

(** X14: when the slug resolves an event of somebody else, the edit view
    answers [Forbidden] to both of its methods, also for a superuser and
    whatever the submitted form holds, and the delete view answers
    [Forbidden] to both of its methods unless the requester is a superuser;
    in each case the one lookup is all that happens. *)
Theorem strangers_are_forbidden (nfkd : string → string)
    (edit_clean : Event.t → QueryDict → QueryDict → list Model * Validity)
    (on_delete : nat → list Comment.t → option (list Comment.t))
    (request : HttpRequest) (u : User.t) (E : Event.t) (s : State) :
  user request = Some u →
  unique_slugs (events (db s)) →
  E ∈ events (db s) →
  User.id u ≠ Event.user E →
  let s' := mkState (db s) (queries s ++ [SELECT EventModel]) (flash s) in
  EditEventView_get request (Event.slug E) s = (Ok Forbidden, s')
  ∧ EditEventView_post edit_clean nfkd request (Event.slug E) s = (Ok Forbidden, s')
  ∧ (User.is_superuser u = false →
     DeleteEventView_get request (Event.slug E) s = (Ok Forbidden, s')
     ∧ DeleteEventView_post on_delete request (Event.slug E) s = (Ok Forbidden, s')).
Proof.
  intros Hu Hsl HE Hne s'. apply Nat.eqb_neq in Hne.
  split; [|split; [|intros Hsuper; split]].
  - unfold EditEventView_get, LoginRequiredMixin.
    etransitivity; [unfold login_required; rewrite Hu; reflexivity|].
    unfold mbind, M_bind. rewrite (get_any_event_found s E Hsl HE), Hne. reflexivity.
  - unfold EditEventView_post, LoginRequiredMixin.
    etransitivity; [unfold login_required; rewrite Hu; reflexivity|].
    unfold mbind at 1, M_bind at 1. rewrite (get_any_event_found s E Hsl HE), Hne.
    reflexivity.
  - unfold DeleteEventView_get, LoginRequiredMixin.
    etransitivity; [unfold login_required; rewrite Hu; reflexivity|].
    unfold mbind, M_bind. rewrite (get_any_event_found s E Hsl HE), Hsuper, Hne.
    reflexivity.
  - unfold DeleteEventView_post, LoginRequiredMixin.
    etransitivity; [unfold login_required; rewrite Hu; reflexivity|].
    unfold mbind at 1, M_bind at 1. rewrite (get_any_event_found s E Hsl HE), Hsuper, Hne.
    reflexivity.
Qed.

Lemma strangers_are_forbidden_witness :
  unique_slugs (events (db Demo.state))
  ∧ Demo.spring_fest ∈ events (db Demo.state)
  ∧ User.id Scenario.carol ≠ Event.user Demo.spring_fest
  ∧ EditEventView_post Demo.EditForm_clean Demo.nfkd
      (Demo.request (Some Scenario.carol) [] [("name", "Mine now")]) "spring-fest" Demo.state
    = (Ok Forbidden, mkState Demo.tables [SELECT EventModel] [])
  ∧ DeleteEventView_post Scenario.cascade (Demo.request (Some Demo.bob) [] [])
      "spring-fest" Demo.state
    = (Ok Forbidden, mkState Demo.tables [SELECT EventModel] []).
Proof.
  assert (HE : Demo.spring_fest ∈ events (db Demo.state)) by left.
  assert (Hc : User.id Scenario.carol ≠ Event.user Demo.spring_fest) by discriminate.
  assert (Hb : User.id Demo.bob ≠ Event.user Demo.spring_fest) by discriminate.
  split; [exact demo_unique_slugs|]. split; [exact HE|]. split; [exact Hc|]. split.
  - exact (proj1 (proj2 (strangers_are_forbidden Demo.nfkd Demo.EditForm_clean Scenario.cascade
                           (Demo.request (Some Scenario.carol) [] [("name", "Mine now")])
                           Scenario.carol Demo.spring_fest Demo.state eq_refl
                           demo_unique_slugs HE Hc))).
  - exact (proj2 (proj2 (proj2 (strangers_are_forbidden Demo.nfkd Demo.EditForm_clean Scenario.cascade
                                  (Demo.request (Some Demo.bob) [] [])
                                  Demo.bob Demo.spring_fest Demo.state eq_refl
                                  demo_unique_slugs HE Hb)) eq_refl)).
Defined.

(** ** Deleting an event *)

Lemma Event_delete_run on_delete E s :
  Event_delete on_delete E s
  = match on_delete (Event.id E) (comments (db s)) with
    | None =>
        (Raise IntegrityError,
         mkState (db s) (queries s ++ [SELECT CommentModel]) (flash s))
    | Some kept =>
        (Ok tt,
         mkState (mkTables (base.filter (λ r, Event.id r ≠ Event.id E) (events (db s)))
                           (categories (db s)) (tag_rows (db s)) kept (event_seq (db s)))
                 (queries s ++ [SELECT CommentModel; DELETE EventModel])
                 (flash s))
    end.
Proof.
  unfold Event_delete. run.
  destruct (on_delete (Event.id E) (comments (db s))); cbn; [|reflexivity].
  rewrite <- app_assoc. reflexivity.
Qed.

(** X15: the owner of an event, or a superuser, deletes it by the POST of
    the delete view.  When the rule for the comments lets the deletion
    through, the rows with the event's primary key are gone, every other row
    stays, the category and tag tables are untouched, the answer is the
    redirect to the home listing, and from then on the public detail view
    answers the event's slug with not-found.  When the rule refuses, the
    handler raises [IntegrityError] and no table has changed. *)
Theorem delete_removes_the_event
    (on_delete : nat → list Comment.t → option (list Comment.t))
    (request view : HttpRequest) (u : User.t) (E : Event.t) (s : State) :
  user request = Some u →
  unique_slugs (events (db s)) →
  E ∈ events (db s) →
  (User.is_superuser u = true ∨ User.id u = Event.user E) →
  let r := DeleteEventView_post on_delete request (Event.slug E) s in
  match on_delete (Event.id E) (comments (db s)) with
  | Some kept =>
      fst r = Ok (Redirect (Named "events:home"))
      ∧ (∀ x, x ∈ events (db (snd r)) ↔ x ∈ events (db s) ∧ Event.id x ≠ Event.id E)
      ∧ categories (db (snd r)) = categories (db s)
      ∧ tag_rows (db (snd r)) = tag_rows (db s)
      ∧ comments (db (snd r)) = kept
      ∧ fst (get_response (returning (EventDetailView_get view (Event.slug E))) (snd r))
        = Responded NotFound
  | None => fst r = Raise IntegrityError ∧ db (snd r) = db s
  end.
Proof.
  intros Hu Hsl HE Hmay r.
  assert (Hauth : User.is_superuser u || (User.id u =? Event.user E) = true).
  { destruct Hmay as [-> | ->]; [reflexivity|]. rewrite Nat.eqb_refl. apply orb_true_r. }
  assert (Hrun : r = match on_delete (Event.id E) (comments (db s)) with
                     | Some kept =>
                         (Ok (Redirect (Named "events:home")),
                          mkState (mkTables
                                     (base.filter (λ r, Event.id r ≠ Event.id E)
                                                  (events (db s)))
                                     (categories (db s)) (tag_rows (db s)) kept (event_seq (db s)))
                                  ((queries s ++ [SELECT EventModel])
                                   ++ [SELECT CommentModel; DELETE EventModel])
                                  (flash s))
                     | None =>
                         (Raise IntegrityError,
                          mkState (db s)
                                  ((queries s ++ [SELECT EventModel]) ++ [SELECT CommentModel])
                                  (flash s))
                     end).
  { unfold r, DeleteEventView_post, LoginRequiredMixin, login_required. rewrite Hu.
    unfold mbind at 1, M_bind at 1. rewrite (get_any_event_found s E Hsl HE), Hauth.
    unfold mbind, M_bind. rewrite Event_delete_run. cbn [db comments queries flash].
    destruct (on_delete (Event.id E) (comments (db s))); reflexivity. }
  rewrite Hrun. clear Hrun r.
  destruct (on_delete (Event.id E) (comments (db s))) as [kept|]; cbn [fst snd db];
    [|split; reflexivity].
  split; [reflexivity|].
  assert (Hrows : ∀ x, x ∈ base.filter (λ r, Event.id r ≠ Event.id E) (events (db s))
                       ↔ x ∈ events (db s) ∧ Event.id x ≠ Event.id E).
  { intros x. rewrite list_elem_of_filter. tauto. }
  split; [exact Hrows|]. split; [reflexivity|]. split; [reflexivity|].
  split; [reflexivity|].
  unfold get_response, returning, EventDetailView_get, get_event. unfold mbind, M_bind.
  rewrite get_object_or_404_run. cbn [db].
  rewrite no_rows_for_slug; [reflexivity|].
  intros x Hx Hs. cbn [events] in Hx. apply Hrows in Hx as [Hx Hid].
  apply Hid. rewrite (same_slug_same_row _ _ _ Hsl HE Hx Hs). reflexivity.
Qed.

Lemma delete_removes_the_event_witness :
  let r := DeleteEventView_post Scenario.cascade (Demo.request (Some Scenario.carol) [] [])
             "spring-fest" Scenario.state in
  (unique_slugs (events (db Scenario.state)) ∧ Demo.spring_fest ∈ events (db Scenario.state))
  ∧ fst r = Ok (Redirect (Named "events:home"))
  ∧ (∀ x, x ∈ events (db (snd r)) ↔ x ∈ events (db Scenario.state) ∧ Event.id x ≠ 1)
  ∧ categories (db (snd r)) = categories (db Scenario.state)
  ∧ tag_rows (db (snd r)) = tag_rows (db Scenario.state)
  ∧ comments (db (snd r)) = []
  ∧ fst (get_response
           (returning (EventDetailView_get (Demo.request None [] []) "spring-fest")) (snd r))
    = Responded NotFound.
Proof.
  intros r.
  assert (Hsl : unique_slugs (events (db Scenario.state))).
  { unfold unique_slugs. apply (bool_decide_unpack _). vm_compute. exact I. }
  assert (HE : Demo.spring_fest ∈ events (db Scenario.state)) by left.
  split; [split; [exact Hsl|exact HE]|].
  exact (delete_removes_the_event Scenario.cascade (Demo.request (Some Scenario.carol) [] [])
           (Demo.request None [] []) Scenario.carol Demo.spring_fest Scenario.state
           eq_refl Hsl HE (or_introl eq_refl)).
Defined.

(** ** Editing an event *)

Lemma slug_in_use_true slug self l r :
  r ∈ l → Event.slug r = slug → self ≠ Some (Event.id r) → slug_in_use slug self l = true.
Proof.
  intros Hr Hs Hself. unfold slug_in_use. apply existsb_exists.
  exists r. split; [apply list_elem_of_In, Hr|].
  rewrite Hs, String.eqb_refl, bool_decide_eq_false_2 by exact Hself. reflexivity.
Qed.

(** Under unique slugs no other row holds the slug of [E]. *)
Lemma slug_in_use_own l E :
  unique_slugs l → E ∈ l → slug_in_use (Event.slug E) (Some (Event.id E)) l = false.
Proof.
  intros Hsl HE. unfold slug_in_use. apply not_true_iff_false. intros Hex.
  apply existsb_exists in Hex as (r & Hr & Hm). apply list_elem_of_In in Hr.
  apply andb_true_iff in Hm as [Hs Hn]. apply String.eqb_eq in Hs.
  apply negb_true_iff, bool_decide_eq_false in Hn. apply Hn.
  rewrite (same_slug_same_row _ _ _ Hsl HE Hr Hs). reflexivity.
Qed.



(** X17: on tables that satisfy the invariant, a valid edit by the owner that
    keeps the name of the event always goes through: the event does not
    collide with its own slug, the answer is the redirect, and the slug is the
    one it had. *)
Theorem edit_without_renaming_succeeds (nfkd : string → string)
    (edit_clean : Event.t → QueryDict → QueryDict → list Model * Validity)
    (request : HttpRequest) (u : User.t) (E : Event.t) (d : EventData.t) (s : State) :
  tables_ok nfkd (events (db s)) →
  user request = Some u →
  E ∈ events (db s) →
  User.id u = Event.user E →
  snd (edit_clean E (POST request) (FILES request)) = Valid d →
  EventData.name d = Event.name E →
  ∃ e,
    fst (EditEventView_post edit_clean nfkd request (Event.slug E) s)
    = Ok (Redirect (AbsoluteUrl e))
    ∧ Event.slug e = Event.slug E
    ∧ e ∈ events (db (snd (EditEventView_post edit_clean nfkd request (Event.slug E) s))).
Proof.
  intros (Hid & Hsl & Hder) Hu HE Ho Hd Hname.
  assert (Hslug : slugify nfkd (EventData.name d) = Event.slug E).
  { rewrite Hname. symmetry. apply Hder, HE. }
  rewrite (EditEventView_post_valid edit_clean request u E d s Hu Hsl HE Ho Hd).
  rewrite Hslug, (slug_in_use_own _ E Hsl HE). cbn [fst snd db].
  eexists. split; [reflexivity|]. split; [reflexivity|].
  exact (alter_event_elem (λ _, _) (db s) E HE).
Qed.

Lemma edit_without_renaming_succeeds_witness :
  let request := Demo.request (Some Demo.bob) [] [("name", "Jazz Night"); ("venue", "")] in
  let d := EventData.mk "Jazz Night" None "" "" 0 0 false [] in
  (tables_ok Demo.nfkd (events (db Demo.state)) ∧ Demo.jazz_night ∈ events (db Demo.state)
   ∧ snd (Demo.EditForm_clean Demo.jazz_night (POST request) (FILES request)) = Valid d)
  ∧ ∃ e,
      fst (EditEventView_post Demo.EditForm_clean Demo.nfkd request "jazz-night" Demo.state)
      = Ok (Redirect (AbsoluteUrl e))
      ∧ Event.slug e = "jazz-night"
      ∧ e ∈ events (db (snd (EditEventView_post Demo.EditForm_clean Demo.nfkd request "jazz-night"
                               Demo.state))).
Proof.
  intros request d.
  assert (Hok : tables_ok Demo.nfkd (events (db Demo.state))).
  { split; [exact demo_unique_ids|split; [exact demo_unique_slugs|exact demo_slugs_derived]]. }
  assert (HE : Demo.jazz_night ∈ events (db Demo.state)) by (right; right; left).
  split; [split; [exact Hok|split; [exact HE|reflexivity]]|].
  exact (edit_without_renaming_succeeds Demo.nfkd Demo.EditForm_clean request Demo.bob Demo.jazz_night
           d Demo.state Hok eq_refl HE eq_refl eq_refl eq_refl).
Defined.

(** ** A slug that is taken *)

(** X18: a valid create submission whose name slugifies to the slug of an
    existing event is not stored: the write is rejected, the handler does not
    catch the [IntegrityError], and the tables and messages are as before.
    Two names that differ only in case or punctuation meet this way. *)
Theorem taken_slug_is_an_unhandled_error (nfkd : string → string)
    (add_clean : QueryDict → QueryDict → list Model * option EventData.t)
    (request : HttpRequest) (u : User.t) (d : EventData.t) (E : Event.t) (s : State) :
  user request = Some u →
  snd (add_clean (POST request) (FILES request)) = Some d →
  E ∈ events (db s) →
  Event.slug E = slugify nfkd (EventData.name d) →
  get_response (returning (AddEventView_post add_clean nfkd request)) s
  = (Unhandled IntegrityError,
     mkState (db s)
             (queries s ++ (SELECT <$> fst (add_clean (POST request) (FILES request)))
              ++ [INSERT EventModel])
             (flash s)).
Proof.
  intros Hu Hd HE Hs. unfold get_response, returning. unfold mbind, M_bind.
  rewrite (AddEventView_post_valid add_clean request u d s Hu Hd).
  rewrite (slug_in_use_true _ None _ E HE Hs) by discriminate. reflexivity.
Qed.

Lemma taken_slug_is_an_unhandled_error_witness :
  let request := Demo.request (Some Demo.bob) [] [("name", "spring fest!")] in
  (snd (Demo.EventForm_clean (POST request) (FILES request))
   = Some (EventData.mk "spring fest!" None "" "" 0 0 false [])
   ∧ Demo.spring_fest ∈ events (db Demo.state)
   ∧ Event.slug Demo.spring_fest = slugify Demo.nfkd "spring fest!")
  ∧ get_response (returning (AddEventView_post Demo.EventForm_clean Demo.nfkd request)) Demo.state
    = (Unhandled IntegrityError,
       mkState Demo.tables [SELECT CategoryModel; INSERT EventModel] []).
Proof.
  intros request.
  assert (HE : Demo.spring_fest ∈ events (db Demo.state)) by left.
  assert (Hs : Event.slug Demo.spring_fest = Text.slugify "spring fest!")
    by (vm_compute; reflexivity).
  split; [split; [reflexivity|split; [exact HE|exact Hs]]|].
  exact (taken_slug_is_an_unhandled_error Demo.nfkd Demo.EventForm_clean request Demo.bob
           (EventData.mk "spring fest!" None "" "" 0 0 false []) Demo.spring_fest
           Demo.state eq_refl eq_refl HE Hs).
Defined.

(** ** The invariant along a run *)

Lemma tables_ok_filter {nfkd : string → string} (p : Event.t → Prop) `{∀ x, Decision (p x)} l :
  tables_ok nfkd l → tables_ok nfkd (base.filter p l).
Proof.
  intros (Hid & Hsl & Hd). split; [|split].
  - unfold unique_ids in *. eapply sublist_NoDup; [exact Hid|].
    apply fmap_sublist, sublist_filter.
  - unfold unique_slugs in *. eapply sublist_NoDup; [exact Hsl|].
    apply fmap_sublist, sublist_filter.
  - intros e He. apply list_elem_of_filter in He as [_ He]. apply Hd, He.
Qed.

Lemma DeleteEventView_post_keeps_invariant {nfkd : string → string} on_delete request slug s :
  tables_ok nfkd (events (db s)) →
  tables_ok nfkd (events (db (snd (DeleteEventView_post on_delete request slug s)))).
Proof.
  intros Hok. unfold DeleteEventView_post, LoginRequiredMixin, login_required.
  destruct (user request) as [u|]; [|exact Hok].
  unfold mbind at 1, M_bind at 1. rewrite get_object_or_404_run.
  destruct (qs_rows _ (db s)) as [|E [|E' l]]; try exact Hok.
  destruct (User.is_superuser u || (User.id u =? Event.user E)); [|exact Hok].
  unfold mbind, M_bind. rewrite Event_delete_run. cbn [db comments].
  destruct (on_delete (Event.id E) (comments (db s))); [|exact Hok].
  cbn. apply tables_ok_filter, Hok.
Qed.

Lemma state_after_keeps_invariant {nfkd : string → string} clean add_clean edit_clean str on_delete h request s :
  tables_ok nfkd (events (db s)) →
  tables_ok nfkd (events (db (state_after clean add_clean edit_clean str on_delete nfkd h request s))).
Proof.
  intros Hok. destruct (is_GET h) eqn:Hget.
  - rewrite (proj1 (state_after_GET clean add_clean edit_clean str on_delete h request s
                      Hget)).
    exact Hok.
  - destruct h; try discriminate Hget; cbn [state_after].
    + apply EventDetailView_post_keeps_invariant, Hok.
    + apply AddEventView_post_keeps_invariant, Hok.
    + apply EditEventView_post_keeps_invariant, Hok.
    + apply DeleteEventView_post_keeps_invariant, Hok.
Qed.

(** X19: the data-model invariant of the event table, unique primary keys,
    unique slugs and every slug derived from its name, survives every run of
    the application: whatever requests are served one after the other, by
    whatever handlers, users and forms, a table that satisfied the invariant
    before satisfies it after. *)
Theorem every_run_keeps_the_invariant (nfkd : string → string)
    (clean : QueryDict → option CommentData.t)
    (add_clean : QueryDict → QueryDict → list Model * option EventData.t)
    (edit_clean : Event.t → QueryDict → QueryDict → list Model * Validity)
    (str : Event.t → string)
    (on_delete : nat → list Comment.t → option (list Comment.t))
    (calls : list (Handler * HttpRequest)) (s : State) :
  tables_ok nfkd (events (db s)) →
  tables_ok nfkd (events (db (serve clean add_clean edit_clean str on_delete nfkd calls s))).
Proof.
  revert s. unfold serve. induction calls as [|[h request] calls IH]; intros s Hok.
  - exact Hok.
  - cbn [foldl]. apply IH. cbn [fst snd]. apply state_after_keeps_invariant, Hok.
Qed.

Lemma every_run_keeps_the_invariant_witness :
  let calls :=
    [(AddEventView_POST, Demo.request (Some Demo.alice) [] [("name", "Spring Fest")]);
     (EventDetailView_POST "spring-fest", Demo.request (Some Demo.bob) [] Demo.attend);
     (EditEventView_POST "spring-fest",
      Demo.request (Some Demo.alice) [] [("name", "Spring Fest 2"); ("venue", "")]);
     (DeleteEventView_POST "spring-fest-2", Demo.request (Some Scenario.carol) [] [])] in
  tables_ok Demo.nfkd (events (db Demo.empty))
  ∧ tables_ok Demo.nfkd (events (db (serve Demo.CommentForm_clean Demo.EventForm_clean
                             Demo.EditForm_clean Event.name Scenario.cascade Demo.nfkd calls
                             Demo.empty))).
Proof.
  intros calls. split; [exact tables_ok_nil|].
  exact (every_run_keeps_the_invariant Demo.nfkd Demo.CommentForm_clean Demo.EventForm_clean
           Demo.EditForm_clean Event.name Scenario.cascade calls Demo.empty tables_ok_nil).
Defined.

(** ** Lookups by slug under the invariant *)

(** Under unique slugs a filter whose matches all carry one slug finds no row
    or one. *)
Lemma rows_for_a_slug (q : Event.t → bool) slug t :
  unique_slugs (events t) →
  (∀ e, q e = true → Event.slug e = slug) →
  qs_rows (qs_filter q Event_objects) t = []
  ∨ ∃ E, qs_rows (qs_filter q Event_objects) t = [E] ∧ E ∈ events t ∧ q E = true.
Proof.
  intros Hsl Hq.
  rewrite (qs_rows_plain _ _ q); [|reflexivity|reflexivity|intros e; reflexivity].
  destruct (base.filter (λ e, q e = true) (events t)) as [|E l] eqn:Hrows; [left; reflexivity|].
  right. exists E.
  assert (HE : E ∈ base.filter (λ e, q e = true) (events t)) by (rewrite Hrows; left).
  apply list_elem_of_filter in HE as [HqE HE].
  rewrite <- Hrows. split; [|split; [exact HE|exact HqE]].
  apply (filter_by_slug q _ E Hsl HE HqE).
  intros e _ He. rewrite (Hq e He), (Hq E HqE). reflexivity.
Qed.

(** X20: on tables that satisfy the invariant, with [str(event)] the name of
    the event, the four GET handlers that look an event up by its slug never
    let an exception other than [Http404] through: the public detail, the
    private detail, the edit form and the delete confirmation always answer
    with a response. *)
Theorem slug_lookups_always_answer (nfkd : string → string) (str : Event.t → string)
    (request : HttpRequest) (slug : string) (s : State) :
  tables_ok nfkd (events (db s)) →
  (∀ e, str e = Event.name e) →
  (∃ r, fst (get_response (returning (EventDetailView_get request slug)) s) = Responded r)
  ∧ (∃ r, fst (get_response (returning (PrivateEventDetailView_get str request slug)) s)
          = Responded r)
  ∧ (∃ r, fst (get_response (returning (EditEventView_get request slug)) s) = Responded r)
  ∧ (∃ r, fst (get_response (returning (DeleteEventView_get request slug)) s) = Responded r).
Proof.
  intros (Hid & Hsl & Hder) Hstr.
  assert (Hresp : ∀ (m : M HttpResponse) s0,
             (∀ e, fst (m s0) = Raise e → e = Http404) →
             ∃ r, fst (get_response (returning m) s0) = Responded r).
  { intros m s0 H. unfold get_response, returning, mbind, M_bind.
    destruct (m s0) as [[r|e] s1]; cbn in *.
    - eexists; reflexivity.
    - rewrite (H e eq_refl). eexists; reflexivity. }
  assert (Hrender : ∀ t ctx s0 e, fst (render request t ctx s0) = Raise e → e = Http404).
  { intros t ctx s0 e H. destruct (render_answers request t ctx s0) as (vals & Hv).
    rewrite Hv in H. discriminate H. }
  assert (Hok : ∀ (r : HttpResponse) (s0 : State) e,
             fst ((mret r : M HttpResponse) s0) = Raise e → e = Http404)
    by (intros r s0 e H; discriminate H).
  assert (H404 : ∀ (s0 : State) e,
             fst (@Raise HttpResponse Http404, s0) = Raise e → e = Http404).
  { intros s0 e [= <-]. reflexivity. }
  split; [|split; [|split]]; apply Hresp.
  - unfold EventDetailView_get, get_event. unfold mbind at 1, M_bind at 1.
    rewrite get_object_or_404_run.
    destruct (rows_for_a_slug
                (λ e, String.eqb (Event.slug e) slug && negb (Event.make_private e))
                slug (db s) Hsl) as [-> | (E & -> & _)].
    + intros e He. apply andb_true_iff in He as [He _]. apply String.eqb_eq, He.
    + apply H404.
    + apply Hrender.
  - unfold PrivateEventDetailView_get, LoginRequiredMixin, login_required.
    destruct (user request) as [u|]; [|apply Hok].
    unfold get_private_event. unfold mbind at 1, M_bind at 1.
    rewrite get_object_or_404_run.
    destruct (rows_for_a_slug
                (λ e, String.eqb (Event.slug e) slug && Event.make_private e)
                slug (db s) Hsl) as [-> | (E & -> & HE & HqE)].
    + intros e He. apply andb_true_iff in He as [He _]. apply String.eqb_eq, He.
    + apply H404.
    + apply andb_true_iff in HqE as [_ Hp].
      destruct (User.id u =? Event.user E) eqn:Ho; [|apply Hok].
      apply Nat.eqb_eq in Ho. unfold mbind at 1, M_bind at 1.
      rewrite qs_get_run. cbn [db].
      rewrite (private_refetch_rows str u (db s) E (Hstr E) Hsl Hder HE Hp Ho).
      apply Hrender.
  - unfold EditEventView_get, LoginRequiredMixin, login_required.
    destruct (user request) as [u|]; [|apply Hok].
    unfold mbind at 1, M_bind at 1. rewrite get_object_or_404_run.
    destruct (rows_for_a_slug (λ e, String.eqb (Event.slug e) slug) slug (db s) Hsl)
      as [-> | (E & -> & _)].
    + intros e He. apply String.eqb_eq, He.
    + apply H404.
    + destruct (User.id u =? Event.user E); [apply Hrender|apply Hok].
  - unfold DeleteEventView_get, LoginRequiredMixin, login_required.
    destruct (user request) as [u|]; [|apply Hok].
    unfold mbind at 1, M_bind at 1. rewrite get_object_or_404_run.
    destruct (rows_for_a_slug (λ e, String.eqb (Event.slug e) slug) slug (db s) Hsl)
      as [-> | (E & -> & _)].
    + intros e He. apply String.eqb_eq, He.
    + apply H404.
    + destruct (User.is_superuser u || (User.id u =? Event.user E));
        [apply Hrender|apply Hok].
Qed.

Lemma slug_lookups_always_answer_witness :
  tables_ok Demo.nfkd (events (db Demo.state))
  ∧ (∃ r, fst (get_response
                 (returning (PrivateEventDetailView_get Event.name
                               (Demo.request (Some Demo.alice) [] []) "secret-gig"))
                 Demo.state)
          = Responded r)
  ∧ (∃ r, fst (get_response
                 (returning (DeleteEventView_get (Demo.request (Some Demo.bob) [] [])
                               "no-such-event"))
                 Demo.state)
          = Responded r).
Proof.
  assert (Hok : tables_ok Demo.nfkd (events (db Demo.state))).
  { split; [exact demo_unique_ids|split; [exact demo_unique_slugs|exact demo_slugs_derived]]. }
  split; [exact Hok|]. split.
  - exact (proj1 (proj2 (slug_lookups_always_answer Demo.nfkd Event.name
                           (Demo.request (Some Demo.alice) [] []) "secret-gig" Demo.state
                           Hok (λ e, eq_refl)))).
  - exact (proj2 (proj2 (proj2 (slug_lookups_always_answer Demo.nfkd Event.name
                                  (Demo.request (Some Demo.bob) [] []) "no-such-event"
                                  Demo.state Hok (λ e, eq_refl))))).
Defined.

(** ** What a slug looks like *)

Lemma lower_char_not_upper c : Text.is_upper (Text.lower_char c) = false.
Proof. destruct c as [[] [] [] [] [] [] [] []]; vm_compute; reflexivity. Qed.

Lemma elem_of_lstrip c l : c ∈ Text.lstrip l → c ∈ l.
Proof.
  induction l as [|a l IH]; cbn; [intros H; exact H|].
  destruct (Text.strip_char a); [intros H; right; exact (IH H)|intros H; exact H].
Qed.

Lemma elem_of_rev c (l : list ascii) : c ∈ rev l ↔ c ∈ l.
Proof. rewrite !list_elem_of_In. symmetry. apply in_rev. Qed.

Lemma elem_of_strip c l : c ∈ Text.strip l → c ∈ l.
Proof.
  unfold Text.strip. intros H.
  apply elem_of_rev, elem_of_lstrip, elem_of_rev, elem_of_lstrip in H. exact H.
Qed.

Lemma elem_of_sub_runs c b l :
  c ∈ Text.sub_runs b l →
  Text.is_hyphen c = true ∨ (c ∈ l ∧ (Text.is_hyphen c || Text.is_space c) = false).
Proof.
  revert b. induction l as [|a l IH]; intros b; cbn; [intros H; inversion H|].
  destruct (Text.is_hyphen a || Text.is_space a) eqn:Ha.
  - destruct b.
    + intros H. destruct (IH _ H) as [Hh|[Hin Hc]]; [left; exact Hh|right].
      split; [right; exact Hin|exact Hc].
    + intros H. apply elem_of_cons in H as [->|H]; [left; reflexivity|].
      destruct (IH _ H) as [Hh|[Hin Hc]]; [left; exact Hh|right].
      split; [right; exact Hin|exact Hc].
  - intros H. apply elem_of_cons in H as [->|H]; [right; split; [left|exact Ha]|].
    destruct (IH _ H) as [Hh|[Hin Hc]]; [left; exact Hh|right].
    split; [right; exact Hin|exact Hc].
Qed.

Lemma lstrip_head l c : head (Text.lstrip l) = Some c → Text.strip_char c = false.
Proof.
  induction l as [|a l IH]; cbn; [discriminate|].
  destruct (Text.strip_char a) eqn:Ha; [exact IH|]. cbn. intros [= <-]. exact Ha.
Qed.

Lemma lstrip_last l c : last (Text.lstrip l) = Some c → last l = Some c.
Proof.
  induction l as [|a l IH]; cbn [Text.lstrip]; [intros H; exact H|].
  destruct (Text.strip_char a); [|intros H; exact H].
  intros H. specialize (IH H). destruct l as [|b l]; [discriminate IH|].
  rewrite last_cons_cons. exact IH.
Qed.

Lemma last_rev (l : list ascii) : last (rev l) = head l.
Proof. destruct l as [|a l]; [reflexivity|]. cbn. apply last_snoc. Qed.

Lemma head_rev (l : list ascii) : head (rev l) = last l.
Proof. rewrite <- (rev_involutive l) at 2. rewrite last_rev. reflexivity. Qed.

(** X21: whatever the name, its slug is made of lower-case ASCII letters,
    digits, underscores and hyphens only, and neither begins nor ends with a
    hyphen or an underscore. *)
Theorem slug_is_url_safe (value : string) :
  (∀ c, c ∈ Text.chars (Text.slugify value) →
        (Text.is_lower c || Text.is_digit c || Text.is_underscore c || Text.is_hyphen c)
        = true)
  ∧ (∀ c, head (Text.chars (Text.slugify value)) = Some c → Text.strip_char c = false)
  ∧ (∀ c, last (Text.chars (Text.slugify value)) = Some c → Text.strip_char c = false).
Proof.
  unfold Text.slugify. rewrite chars_text.
  set (kept := base.filter
                 (λ c, (Text.is_word c || Text.is_space c || Text.is_hyphen c) = true)
                 (map Text.lower_char
                      (base.filter (λ c, Text.is_ascii c = true) (Text.chars value)))).
  split; [|split].
  - intros c Hc. apply elem_of_strip, elem_of_sub_runs in Hc as [Hh|[Hin Hn]].
    + rewrite Hh. apply orb_true_r.
    + apply list_elem_of_filter in Hin as [Hkeep Hin].
      apply list_elem_of_In, in_map_iff in Hin as (c0 & <- & _).
      pose proof (lower_char_not_upper c0) as Hup.
      apply orb_false_iff in Hn as [Hh Hs]. rewrite Hh, Hs, !orb_false_r in Hkeep.
      unfold Text.is_word in Hkeep. rewrite Hup, orb_false_r in Hkeep.
      rewrite Hh, orb_false_r. exact Hkeep.
  - intros c Hc. unfold Text.strip in Hc. rewrite head_rev in Hc.
    apply lstrip_last in Hc. rewrite last_rev in Hc. apply lstrip_head in Hc. exact Hc.
  - intros c Hc. unfold Text.strip in Hc. rewrite last_rev in Hc.
    apply lstrip_head in Hc. exact Hc.
Qed.

Lemma alnum_survives c :
  (Text.is_lower c || Text.is_upper c || Text.is_digit c) = true →
  Text.is_word (Text.lower_char c) = true
  ∧ (Text.is_hyphen (Text.lower_char c) || Text.is_space (Text.lower_char c)) = false
  ∧ Text.strip_char (Text.lower_char c) = false.
Proof.
  destruct c as [[] [] [] [] [] [] [] []]; vm_compute; intros H;
    first [discriminate H | repeat split].
Qed.

Lemma other_word_is_underscore c :
  (Text.is_lower c || Text.is_upper c || Text.is_digit c) = false →
  Text.is_word (Text.lower_char c) = true →
  Text.strip_char (Text.lower_char c) = true.
Proof.
  destruct c as [[] [] [] [] [] [] [] []]; vm_compute; intros H1 H2;
    first [discriminate H1 | discriminate H2 | reflexivity].
Qed.

Lemma lstrip_all l : (∀ c, c ∈ l → Text.strip_char c = true) → Text.lstrip l = [].
Proof.
  induction l as [|a l IH]; intros H; [reflexivity|]. cbn.
  rewrite (H a) by left. apply IH. intros c Hc. apply H. right. exact Hc.
Qed.

Lemma lstrip_keeps c l : c ∈ l → Text.strip_char c = false → c ∈ Text.lstrip l.
Proof.
  induction l as [|a l IH]; intros Hc Hn; [inversion Hc|]. cbn.
  destruct (Text.strip_char a) eqn:Ha; [|exact Hc].
  apply elem_of_cons in Hc as [->|Hc]; [congruence|]. apply IH; assumption.
Qed.

Lemma sub_runs_keeps c b l :
  c ∈ l → (Text.is_hyphen c || Text.is_space c) = false → c ∈ Text.sub_runs b l.
Proof.
  revert b. induction l as [|a l IH]; intros b Hc Hn; [inversion Hc|]. cbn.
  apply elem_of_cons in Hc as [->|Hc].
  - rewrite Hn. left.
  - destruct (Text.is_hyphen a || Text.is_space a); [destruct b|];
      [apply IH; assumption|right; apply IH; assumption|right; apply IH; assumption].
Qed.

(** X22: the slug of an ASCII name is empty exactly when the name holds no
    letter and no digit: punctuation, white space, hyphens and underscores
    alone leave nothing to address the event by. *)
Theorem slug_is_empty_without_letters (value : string) :
  (∀ c, c ∈ Text.chars value → Text.is_ascii c = true) →
  Text.slugify value = ""
  ↔ ∀ c, c ∈ Text.chars value →
         (Text.is_lower c || Text.is_upper c || Text.is_digit c) = false.
Proof.
  intros Hascii. unfold Text.slugify.
  set (kept := base.filter
                 (λ c, (Text.is_word c || Text.is_space c || Text.is_hyphen c) = true)
                 (map Text.lower_char
                      (base.filter (λ c, Text.is_ascii c = true) (Text.chars value)))).
  split.
  - intros Hempty c Hc.
    destruct (Text.is_lower c || Text.is_upper c || Text.is_digit c) eqn:Hal; [|reflexivity].
    exfalso. destruct (alnum_survives c Hal) as (Hw & Hrun & Hstrip).
    assert (Hk : Text.lower_char c ∈ kept).
    { apply list_elem_of_filter. split; [rewrite Hw; reflexivity|].
      apply list_elem_of_In, in_map. apply list_elem_of_In, list_elem_of_filter.
      split; [apply Hascii, Hc|exact Hc]. }
    assert (Hs : Text.lower_char c ∈ Text.strip (Text.sub_runs false kept)).
    { unfold Text.strip. apply elem_of_rev, lstrip_keeps; [|exact Hstrip].
      apply elem_of_rev, lstrip_keeps; [|exact Hstrip].
      apply sub_runs_keeps; assumption. }
    assert (Hnil : Text.strip (Text.sub_runs false kept) = []).
    { rewrite <- (chars_text (Text.strip _)), Hempty. reflexivity. }
    rewrite Hnil in Hs. inversion Hs.
  - intros Hnone.
    assert (Hall : ∀ c, c ∈ Text.sub_runs false kept → Text.strip_char c = true).
    { intros c Hc. apply elem_of_sub_runs in Hc as [Hh|[Hin Hn]].
      - unfold Text.strip_char. rewrite Hh. reflexivity.
      - apply list_elem_of_filter in Hin as [Hkeep Hin].
        apply list_elem_of_In, in_map_iff in Hin as (c0 & <- & Hc0).
        apply list_elem_of_In, list_elem_of_filter in Hc0 as [_ Hc0].
        apply orb_false_iff in Hn as [Hh Hs]. rewrite Hh, Hs, !orb_false_r in Hkeep.
        apply other_word_is_underscore; [apply Hnone, Hc0|exact Hkeep]. }
    unfold Text.strip. rewrite (lstrip_all _ Hall). reflexivity.
Qed.

Lemma slug_is_empty_without_letters_witness :
  (∀ c, c ∈ Text.chars "?! -- __" → Text.is_ascii c = true)
  ∧ (Text.slugify "?! -- __" = ""
     ↔ ∀ c, c ∈ Text.chars "?! -- __" →
            (Text.is_lower c || Text.is_upper c || Text.is_digit c) = false).
Proof.
  assert (H : ∀ c, c ∈ Text.chars "?! -- __" → Text.is_ascii c = true).
  { apply Forall_forall. repeat constructor. }
  split; [exact H|]. exact (slug_is_empty_without_letters "?! -- __" H).
Defined.

(** ** Which events are related *)

Lemma distinct_rows_NoDup seen l : NoDup (Event.id <$> distinct_rows seen l).
Proof.
  revert seen. induction l as [|e l IH]; intros seen; cbn [distinct_rows]; [constructor|].
  case_bool_decide as Hs; [apply IH|].
  rewrite fmap_cons. apply NoDup_cons. split; [|apply IH].
  intros Hin. apply list_elem_of_fmap in Hin as (x & Hx & Hin).
  apply distinct_rows_elem in Hin as [_ Hin]. apply Hin. rewrite Hx. left.
Qed.

Lemma distinct_rows_skip seen e k l :
  Event.id e ∈ seen → distinct_rows seen (replicate k e ++ l) = distinct_rows seen l.
Proof.
  intros Hs. induction k as [|k IH]; [reflexivity|]. cbn.
  rewrite bool_decide_eq_true_2 by exact Hs. exact IH.
Qed.

(** With unique primary keys, [DISTINCT] over a join keeps each matching row
    once, in table order. *)
Lemma distinct_flat_map (m : Event.t → nat) l seen :
  unique_ids l → (∀ e, e ∈ l → Event.id e ∉ seen) →
  distinct_rows seen (flat_map (λ e, replicate (m e) e) l)
  = base.filter (λ e, (0 <? m e) = true) l.
Proof.
  unfold unique_ids. revert seen. induction l as [|e l IH]; intros seen Hid Hs; [reflexivity|].
  rewrite fmap_cons in Hid. apply NoDup_cons in Hid as [Hn Hid].
  cbn [flat_map]. rewrite filter_cons.
  destruct (m e) as [|k] eqn:Hm; cbn [replicate app].
  - destruct (decide _) as [H|_]; [discriminate H|].
    apply IH; [exact Hid|]. intros x Hx. apply Hs. right. exact Hx.
  - destruct (decide _) as [_|H]; [|destruct H; reflexivity].
    cbn [distinct_rows]. rewrite bool_decide_eq_false_2 by (apply Hs; left).
    f_equal. rewrite distinct_rows_skip by left.
    apply IH; [exact Hid|]. intros x Hx Hin. apply elem_of_cons in Hin as [Heq|Hin].
    + apply Hn. rewrite <- Heq. apply list_elem_of_fmap_2, Hx.
    + apply (Hs x); [right; exact Hx|exact Hin].
Qed.

Lemma tags_id_in_pos event t e :
  0 < tags_id_in (tags_all event) t e →
  ∃ g, g ∈ tag_rows t ∧ Tag.id g ∈ Event.tags e ∧ Tag.id g ∈ Event.tags event.
Proof.
  unfold tags_id_in. intros H.
  destruct (base.filter _ (Event.tags e)) as [|i r] eqn:Hf; [cbn in H; lia|].
  assert (Hi : i ∈ base.filter (λ i, i ∈ Tag.id <$> tag_rows_of (tags_all event) t)
                               (Event.tags e)) by (rewrite Hf; left).
  apply list_elem_of_filter in Hi as [Hsub Hi].
  apply list_elem_of_fmap in Hsub as (g & -> & Hg).
  unfold tag_rows_of in Hg. apply list_elem_of_filter in Hg as [Hall Hg].
  unfold tags_all in Hall. apply bool_decide_eq_true in Hall.
  exists g. auto.
Qed.

(** X23: on a page rendered by the public detail view no two related events
    have the same primary key, although the join with the tags can match an
    event several times, and every related event has a tag of the tag table in
    common with the event shown.  With unique primary keys the list is the
    first four candidates in table order, so that when the table has at most
    four candidates, each of them is shown. *)
Theorem related_events_share_a_tag
    (request : HttpRequest) (slug template_name : string)
    (ctx : list (string * Value)) (s s' : State) :
  EventDetailView_get request slug s = (Ok (Render template_name ctx), s') →
  ∃ event related,
    lookup_ctx "event" ctx = Some (VEvent event)
    ∧ lookup_ctx "related_events" ctx = Some (VEvents related)
    ∧ NoDup (Event.id <$> related)
    ∧ (∀ e, e ∈ related →
            ∃ g, g ∈ tag_rows (db s) ∧ Tag.id g ∈ Event.tags e
                 ∧ Tag.id g ∈ Event.tags event)
    ∧ (unique_ids (events (db s)) →
       related
       = take 4 (base.filter (λ e, related_candidate event (db s) e = true) (events (db s)))
       ∧ (List.length (base.filter (λ e, related_candidate event (db s) e = true)
                                   (events (db s))) ≤ 4 →
          ∀ e, e ∈ events (db s) → related_candidate event (db s) e = true → e ∈ related)).
Proof.
  intros H. unfold EventDetailView_get, get_event, mbind, M_bind in H.
  rewrite get_object_or_404_run in H.
  destruct (qs_rows _ (db s)) as [|event [|? ?]]; try discriminate H.
  unfold render, force_all, force, mbind, M_bind, execute, get_tables, mret, M_ret in H.
  cbn in H. injection H as <- <- <-.
  set (m := λ e, (if negb (Event.id e =? Event.id event)
                  then (if negb (Event.make_private e) then 1 else 0)
                       * tags_id_in (tags_all event) (db s) e
                  else 0)).
  assert (Hrows : qs_rows
                    (qs_slice 4
                       (qs_distinct
                          (qs_exclude (λ e, Event.id e =? Event.id event)
                             (qs_join (tags_id_in (tags_all event)) Event_public))))
                    (db s)
                  = take 4 (distinct_rows [] (flat_map (λ e, replicate (m e) e)
                                                       (events (db s))))) by reflexivity.
  eexists event, _. split; [reflexivity|]. split; [reflexivity|]. rewrite Hrows.
  split; [|split].
  - eapply sublist_NoDup; [apply distinct_rows_NoDup|].
    apply fmap_sublist, sublist_take.
  - intros e He. apply subseteq_take in He. apply distinct_rows_elem in He as [He _].
    apply elem_of_flat_map_replicate in He as [_ Hm]. unfold m in Hm.
    destruct (negb (Event.id e =? Event.id event)); [|lia].
    destruct (negb (Event.make_private e)); [|lia].
    apply tags_id_in_pos. lia.
  - intros Hid.
    assert (Hcand : distinct_rows [] (flat_map (λ e, replicate (m e) e) (events (db s)))
                    = base.filter (λ e, related_candidate event (db s) e = true)
                                  (events (db s))).
    { rewrite (distinct_flat_map m _ [] Hid) by (intros x _ Hx; inversion Hx).
      apply list_filter_iff. intros e. unfold m, related_candidate.
      destruct (Event.id e =? Event.id event), (Event.make_private e); cbn;
        rewrite ?andb_false_r; try (split; discriminate).
      destruct (tags_id_in (tags_all event) (db s) e); cbn; split; auto. }
    rewrite Hcand. split; [reflexivity|].
    intros Hfew e He Hc. rewrite take_ge by exact Hfew.
    apply list_elem_of_filter. split; assumption.
Qed.

Lemma related_events_share_a_tag_witness :
  EventDetailView_get (Demo.request None [] []) "spring-fest" Demo.state
  = (Ok (Render "event_detail.html" Demo.detail_context), Demo.after_detail)
  ∧ ∃ event related,
      lookup_ctx "event" Demo.detail_context = Some (VEvent event)
      ∧ lookup_ctx "related_events" Demo.detail_context = Some (VEvents related)
      ∧ NoDup (Event.id <$> related)
      ∧ (∀ e, e ∈ related →
              ∃ g, g ∈ tag_rows (db Demo.state) ∧ Tag.id g ∈ Event.tags e
                   ∧ Tag.id g ∈ Event.tags event)
      ∧ (unique_ids (events (db Demo.state)) →
         related
         = take 4 (base.filter (λ e, related_candidate event (db Demo.state) e = true)
                               (events (db Demo.state)))
         ∧ (List.length (base.filter (λ e, related_candidate event (db Demo.state) e = true)
                                     (events (db Demo.state))) ≤ 4 →
            ∀ e, e ∈ events (db Demo.state) →
                 related_candidate event (db Demo.state) e = true → e ∈ related)).
Proof.
  assert (H : EventDetailView_get (Demo.request None [] []) "spring-fest" Demo.state
              = (Ok (Render "event_detail.html" Demo.detail_context), Demo.after_detail))
    by (vm_compute; reflexivity).
  split; [exact H|].
  exact (related_events_share_a_tag (Demo.request None [] []) "spring-fest"
           "event_detail.html" Demo.detail_context Demo.state Demo.after_detail H).
Defined.
